(** * Nova Defense (ZT-ZQ/KLAY): the simulation core of [src/App.tsx]

    A shallow embedding of the game engine that lives inside the React
    component [App]: [initGame], [spawnRocket], [fireMissile] and the
    per-frame callback [update], over the entities of [types.ts] and the
    constants of [constants.ts].

    Numbers.  A JavaScript [number] is an IEEE-754 binary64 value.  The
    coordinates, speeds, angles, times, radii and explosion lives of the game
    are modelled by Rocq's primitive binary64 floats, whose operations are the
    ones the JavaScript engine performs ([+], [-], [*], [/], [<], [<=],
    [Math.abs], [Math.sqrt]).  Two fields only ever hold small non-negative
    integers, on which binary64 arithmetic is exact: [score] (starts at 0 and
    grows by [POINTS_PER_ROCKET]) and a turret's [ammo] / [maxAmmo]
    (initialised from [TURRET_AMMO] and decremented by 1); they are modelled
    as [Z].  [Math.pow(v, 2)] is modelled as [v * v].

    Host functions.  [Math.cos], [Math.sin] and [Math.atan2] are
    implementation-approximated in ECMAScript; they are the fields of the
    class [MathLib].  [Math.random()], [performance.now()] and the frame
    timestamp are inputs of the functions that read them.

    React state.  [gameState] and [score] are React state: a callback reads the
    values captured by the render that created it, and [setScore] /
    [setGameState] take effect at the next render.  [update] is rebuilt
    whenever [gameState] or [score] changes (its dependency list), so each
    frame reads the state left by the previous one, and reads the same
    captured [score] from its first line to its last.

    The [id] strings of the entities are never read by the engine and are
    left out; so are [draw] and the markup.  Of the handlers of the markup,
    the buttons are the events of the component, each taken in the statuses
    in which the button is in the document (the overlay buttons also in
    PLAYING, while the overlay fades out), and [handleCanvasClick] is
    modelled with the rectangle of the canvas and the pointer event it reads.

    Contents.  The model ([JS], the constants, the entities, [initGame],
    [fireMissile], [spawnRocket], [update], the events of the component and
    its runs); a reference host for the three [Math] functions; the vocabulary
    of the specification and the example states; then the results: the order
    of binary64 values, targeting (C3), what each phase leaves alone, the
    win/loss check (C1, C2), ammo (C4), explosions against rockets and the
    score (C7), rocket impact (C6), the frame of the explosion phase (C10),
    the zero-distance missile (C5), the phases of a frame in closed form,
    the life of an explosion (C8), the rounding of binary64, spawning (C9),
    and the theorems at concrete inputs; then further results (X1 to
    X15): the state machine, the ground, shots and missiles, rockets, the
    books of a frame, the score, radii, the spawn clock, targets that are not
    numbers, clicks on the canvas and the budget of missiles. *)

From Stdlib Require Import ZArith List Bool Lia.
From Stdlib Require Import Floats.
Import ListNotations.

Set Implicit Arguments.
Set Warnings "-inexact-float".

(* ================================================================== *)
(** * JavaScript numbers *)

Module JS.

Definition number := float.

(** [a > b] and [a >= b]. *)
Definition gtb (a b : number) : bool := (b <? a)%float.
Definition geb (a b : number) : bool := (b <=? a)%float.

(** An integer as a [number] (round to nearest, exact below 2^53). *)
Definition ofZ (z : Z) : number := SF2Prim (binary_normalize prec emax z 0 false).

(** The integer part, rounded down, of a finite number. *)
Definition floorZ (v : number) : option Z :=
  match Prim2SF v with
  | S754_zero _ => Some 0%Z
  | S754_finite s m e => Some (Z.shiftl (if s then Zneg m else Zpos m) e)
  | S754_infinity _ | S754_nan => None
  end.

Definition Math_abs (v : number) : number := abs v.
Definition Math_sqrt (v : number) : number := sqrt v.
(** [Math.pow(v, 2)]. *)
Definition Math_pow2 (v : number) : number := (v * v)%float.

(** [Math.max(a, b)]: NaN when either is NaN, [+0] above [-0]. *)
Definition Math_max (a b : number) : number :=
  if is_nan a || is_nan b then nan
  else if (a <? b)%float then b
  else if (b <? a)%float then a
  else if get_sign a then b else a.

(** [Math.floor(v)]: zeros, infinities and NaN are returned as they are. *)
Definition Math_floor (v : number) : number :=
  match Prim2SF v with
  | S754_finite s m e =>
      let z := Z.shiftl (if s then Zneg m else Zpos m) e in
      if (z =? 0)%Z then (if s then neg_zero else zero) else ofZ z
  | _ => v
  end.

(** [arr.length] as a number. *)
Definition length {A} (arr : list A) : number := ofZ (Z.of_nat (List.length arr)).

(** [arr[i]]: [None] is [undefined], the result for an [i] that is not an
    index of [arr]. *)
Definition get {A} (arr : list A) (i : number) : option A :=
  match floorZ i with
  | Some z =>
      if (0 <=? z)%Z && (ofZ z =? i)%float then nth_error arr (Z.to_nat z) else None
  | None => None
  end.

(** Outcome of a call: it returns, or an exception propagates out of it. *)
Inductive completion (A : Type) : Type :=
| Normal (a : A)
| Throw.
Arguments Throw {A}.

Definition bind {A B} (c : completion A) (k : A -> completion B) : completion B :=
  match c with
  | Normal a => k a
  | Throw => Throw
  end.

End JS.

Abbreviation number := JS.number.
Abbreviation Normal := JS.Normal.
Abbreviation Throw := JS.Throw.

(** [Math.cos], [Math.sin], [Math.atan2] of the host. *)
Class MathLib : Type := {
  Math_cos : number -> number;
  Math_sin : number -> number;
  Math_atan2 : number -> number -> number
}.

(* ================================================================== *)
(** * constants.ts *)

Definition GAME_WIDTH : number := 800%float.
Definition GAME_HEIGHT : number := 600%float.

Module TURRET_AMMO.
Definition LEFT : Z := 20.
Definition MIDDLE : Z := 40.
Definition RIGHT : Z := 20.
End TURRET_AMMO.

Definition ROCKET_SPEED_MIN : number := 0.5%float.
Definition ROCKET_SPEED_MAX : number := 1.5%float.
Definition MISSILE_SPEED : number := 5.5%float.
Definition EXPLOSION_RADIUS_MAX : number := 46%float.
Definition EXPLOSION_DURATION : number := 60%float.

Definition POINTS_PER_ROCKET : Z := 20.
Definition WIN_SCORE : Z := 1000.

(* ================================================================== *)
(** * types.ts *)

Module Rocket.
Record t : Type := mk {
  x : number;
  y : number;
  targetX : number;
  targetY : number;
  speed : number;
  angle : number
}.
End Rocket.

Module Missile.
Record t : Type := mk {
  x : number;
  y : number;
  targetX : number;
  targetY : number;
  startX : number;
  startY : number;
  progress : number;
  distance : number
}.
End Missile.

Module Explosion.
Record t : Type := mk {
  x : number;
  y : number;
  radius : number;
  maxRadius : number;
  life : number;
  maxLife : number
}.
End Explosion.

Module City.
Record t : Type := mk {
  x : number;
  y : number;
  active : bool
}.
End City.

Module Turret.
Record t : Type := mk {
  x : number;
  y : number;
  active : bool;
  ammo : Z;
  maxAmmo : Z
}.
End Turret.

Inductive GameStatus : Type := START | PLAYING | PAUSED | WON | LOST.

Definition GameStatus_eqb (a b : GameStatus) : bool :=
  match a, b with
  | START, START | PLAYING, PLAYING | PAUSED, PAUSED | WON, WON | LOST, LOST => true
  | _, _ => false
  end.

(** The state of the component: the two React state variables and the refs. *)
Record GameState : Type := mkState {
  score : Z;
  status : GameStatus;
  rockets : list Rocket.t;
  missiles : list Missile.t;
  explosions : list Explosion.t;
  cities : list City.t;
  turrets : list Turret.t;
  lastSpawnTime : number
}.

(** Field updates ([obj.f = v] on an object held in a ref, [ref.current = v],
    [setScore], [setGameState]). *)
Definition City_deactivate (c : City.t) : City.t :=
  City.mk (City.x c) (City.y c) false.

Definition Turret_deactivate (t : Turret.t) : Turret.t :=
  Turret.mk (Turret.x t) (Turret.y t) false (Turret.ammo t) (Turret.maxAmmo t).

Definition Turret_set_ammo (a : Z) (t : Turret.t) : Turret.t :=
  Turret.mk (Turret.x t) (Turret.y t) (Turret.active t) a (Turret.maxAmmo t).

Definition setScore (f : Z -> Z) (s : GameState) : GameState :=
  mkState (f (score s)) (status s) (rockets s) (missiles s) (explosions s)
    (cities s) (turrets s) (lastSpawnTime s).

Definition setGameState (g : GameStatus) (s : GameState) : GameState :=
  mkState (score s) g (rockets s) (missiles s) (explosions s)
    (cities s) (turrets s) (lastSpawnTime s).

Definition set_rockets (v : list Rocket.t) (s : GameState) : GameState :=
  mkState (score s) (status s) v (missiles s) (explosions s)
    (cities s) (turrets s) (lastSpawnTime s).

Definition set_missiles (v : list Missile.t) (s : GameState) : GameState :=
  mkState (score s) (status s) (rockets s) v (explosions s)
    (cities s) (turrets s) (lastSpawnTime s).

Definition set_explosions (v : list Explosion.t) (s : GameState) : GameState :=
  mkState (score s) (status s) (rockets s) (missiles s) v
    (cities s) (turrets s) (lastSpawnTime s).

Definition set_cities (v : list City.t) (s : GameState) : GameState :=
  mkState (score s) (status s) (rockets s) (missiles s) (explosions s)
    v (turrets s) (lastSpawnTime s).

Definition set_turrets (v : list Turret.t) (s : GameState) : GameState :=
  mkState (score s) (status s) (rockets s) (missiles s) (explosions s)
    (cities s) v (lastSpawnTime s).

Definition set_lastSpawnTime (v : number) (s : GameState) : GameState :=
  mkState (score s) (status s) (rockets s) (missiles s) (explosions s)
    (cities s) (turrets s) v.

(** [arr[i] = v] for an index of [arr]. *)
Fixpoint replace {A} (i : nat) (v : A) (arr : list A) : list A :=
  match arr, i with
  | [], _ => []
  | _ :: rest, O => v :: rest
  | a :: rest, S j => a :: replace j v rest
  end.

(** [arr.filter(callback)] for a callback that mutates the element it is
    given and the refs around it: the callback returns the element as it
    leaves it when it answers [true], [None] when it answers [false]. *)
Fixpoint filter_with {A S} (callback : A -> S -> option A * S)
  (arr : list A) (s : S) : list A * S :=
  match arr with
  | [] => ([], s)
  | a :: rest =>
      let (keep, s1) := callback a s in
      let (kept, s2) := filter_with callback rest s1 in
      (match keep with Some a' => a' :: kept | None => kept end, s2)
  end.

(** [Math.sqrt(Math.pow(dx, 2) + Math.pow(dy, 2))]. *)
Definition euclid (dx dy : number) : number :=
  JS.Math_sqrt (JS.Math_pow2 dx + JS.Math_pow2 dy)%float.

(* ================================================================== *)
(** * initGame *)

Definition citySpacing : number := (GAME_WIDTH / 8)%float.

(** The body of the loop [for (let i = 0; i < 6; i++)]. *)
Definition initCity (i : Z) : City.t :=
  let x := (JS.ofZ (i + 1) * citySpacing)%float in
  let x := if (2 <=? i)%Z then (x + citySpacing)%float else x in
  let x := if (4 <=? i)%Z then (x + citySpacing)%float else x in
  City.mk x (GAME_HEIGHT - 20)%float true.

(** [now] is the reading of [performance.now()]. *)
Definition initGame (now : number) : GameState :=
  mkState 0 PLAYING [] [] []
    (map initCity [0; 1; 2; 3; 4; 5]%Z)
    [ Turret.mk 40%float (GAME_HEIGHT - 30)%float true TURRET_AMMO.LEFT TURRET_AMMO.LEFT;
      Turret.mk (GAME_WIDTH / 2)%float (GAME_HEIGHT - 30)%float true
        TURRET_AMMO.MIDDLE TURRET_AMMO.MIDDLE;
      Turret.mk (GAME_WIDTH - 40)%float (GAME_HEIGHT - 30)%float true
        TURRET_AMMO.RIGHT TURRET_AMMO.RIGHT ]
    now.

(* ================================================================== *)
(** * fireMissile *)

Definition eligible (turret : Turret.t) : bool :=
  Turret.active turret && (0 <? Turret.ammo turret)%Z.

(** The [forEach] that looks for the closest active turret with ammo.  [i] is
    the index of the head of [ts] in [turretsRef.current]; [bestTurret] is a
    reference to an element of that array, kept here with its index. *)
Fixpoint findBestTurret (targetX : number) (ts : list Turret.t) (i : nat)
  (bestTurret : option (nat * Turret.t)) (minDist : number)
  : option (nat * Turret.t) :=
  match ts with
  | [] => bestTurret
  | turret :: rest =>
      if eligible turret then
        let dist := JS.Math_abs (Turret.x turret - targetX)%float in
        if (dist <? minDist)%float
        then findBestTurret targetX rest (S i) (Some (i, turret)) dist
        else findBestTurret targetX rest (S i) bestTurret minDist
      else findBestTurret targetX rest (S i) bestTurret minDist
  end.

Definition newMissile (targetX targetY : number) (turret : Turret.t) : Missile.t :=
  let dist := euclid (targetX - Turret.x turret)%float (targetY - Turret.y turret)%float in
  Missile.mk (Turret.x turret) (Turret.y turret) targetX targetY
    (Turret.x turret) (Turret.y turret) 0%float dist.

Definition fireMissile (targetX targetY : number) (s : GameState) : GameState :=
  if negb (GameStatus_eqb (status s) PLAYING) then s
  else
    match findBestTurret targetX (turrets s) 0 None infinity with
    | Some (i, turret) =>
        let s1 := set_turrets
          (replace i (Turret_set_ammo (Turret.ammo turret - 1) turret) (turrets s)) s in
        set_missiles (missiles s1 ++ [newMissile targetX targetY turret]) s1
    | None => s
    end.

(* ================================================================== *)
(** * spawnRocket and update *)

(** An element of [targets]: a city or a turret. *)
Inductive Target : Type :=
| TargetCity (c : City.t)
| TargetTurret (t : Turret.t).

Definition Target_x (target : Target) : number :=
  match target with
  | TargetCity c => City.x c
  | TargetTurret t => Turret.x t
  end.

Definition Target_y (target : Target) : number :=
  match target with
  | TargetCity c => City.y c
  | TargetTurret t => Turret.y t
  end.

(** [[...cities.filter(c => c.active), ...turrets.filter(t => t.active)]]. *)
Definition activeTargets (s : GameState) : list Target :=
  map TargetCity (filter City.active (cities s))
  ++ map TargetTurret (filter Turret.active (turrets s)).

(** The explosion pushed by a missile detonation and the one pushed by a
    rocket impact. *)
Definition detonationExplosion (missile : Missile.t) : Explosion.t :=
  Explosion.mk (Missile.targetX missile) (Missile.targetY missile) 0%float
    EXPLOSION_RADIUS_MAX 0%float EXPLOSION_DURATION.

Definition impactExplosion (rocket : Rocket.t) : Explosion.t :=
  Explosion.mk (Rocket.x rocket) (Rocket.y rocket) 0%float 20%float 0%float 30%float.

(** The two [forEach] bodies of the impact branch. *)
Definition impactCity (rocket : Rocket.t) (city : City.t) : City.t :=
  if City.active city
     && (JS.Math_abs (City.x city - Rocket.x rocket) <? 10)%float
     && (JS.Math_abs (City.y city - Rocket.y rocket) <? 10)%float
  then City_deactivate city else city.

Definition impactTurret (rocket : Rocket.t) (turret : Turret.t) : Turret.t :=
  if Turret.active turret
     && (JS.Math_abs (Turret.x turret - Rocket.x rocket) <? 15)%float
     && (JS.Math_abs (Turret.y turret - Rocket.y rocket) <? 15)%float
  then Turret_deactivate turret else turret.

(** Missile integration: the three assignments of the missile callback. *)
Definition moveMissile (missile : Missile.t) : Missile.t :=
  let progress := (Missile.progress missile + MISSILE_SPEED / Missile.distance missile)%float in
  let x := (Missile.startX missile
            + (Missile.targetX missile - Missile.startX missile) * progress)%float in
  let y := (Missile.startY missile
            + (Missile.targetY missile - Missile.startY missile) * progress)%float in
  Missile.mk x y (Missile.targetX missile) (Missile.targetY missile)
    (Missile.startX missile) (Missile.startY missile) progress (Missile.distance missile).

Definition missileCallback (missile : Missile.t) (s : GameState)
  : option Missile.t * GameState :=
  let missile := moveMissile missile in
  if JS.geb (Missile.progress missile) 1%float
  then (None, set_explosions (explosions s ++ [detonationExplosion missile]) s)
  else (Some missile, s).

Definition updateMissiles (s : GameState) : GameState :=
  let (kept, s1) := filter_with missileCallback (missiles s) s in
  set_missiles kept s1.

(** Explosion life and radius: the first statements of the explosion callback. *)
Definition growExplosion (exp : Explosion.t) : Explosion.t :=
  let life := (Explosion.life exp + 1)%float in
  let halfLife := (Explosion.maxLife exp / 2)%float in
  let radius :=
    if (life <=? halfLife)%float
    then (life / halfLife * Explosion.maxRadius exp)%float
    else ((1 - (life - halfLife) / halfLife) * Explosion.maxRadius exp)%float in
  Explosion.mk (Explosion.x exp) (Explosion.y exp) radius (Explosion.maxRadius exp)
    life (Explosion.maxLife exp).

(** Is the rocket inside the blast: [dist < exp.radius]. *)
Definition caught (exp : Explosion.t) (rocket : Rocket.t) : bool :=
  let dist := euclid (Rocket.x rocket - Explosion.x exp)%float
                     (Rocket.y rocket - Explosion.y exp)%float in
  (dist <? Explosion.radius exp)%float.

Definition collisionCallback (exp : Explosion.t) (rocket : Rocket.t) (s : GameState)
  : option Rocket.t * GameState :=
  if caught exp rocket
  then (None, setScore (fun prev => prev + POINTS_PER_ROCKET)%Z s)
  else (Some rocket, s).

Definition explosionCallback (exp : Explosion.t) (s : GameState)
  : option Explosion.t * GameState :=
  let exp := growExplosion exp in
  let (kept, s1) := filter_with (collisionCallback exp) (rockets s) s in
  let s2 := set_rockets kept s1 in
  (if (Explosion.life exp <? Explosion.maxLife exp)%float then Some exp else None, s2).

Definition updateExplosions (s : GameState) : GameState :=
  let (kept, s1) := filter_with explosionCallback (explosions s) s in
  set_explosions kept s1.

(** [Check Win/Loss]: [score] is the value captured by the callback. *)
Definition checkWinLoss (score : Z) (s : GameState) : GameState :=
  let activeTurrets := filter Turret.active (turrets s) in
  let s := if (List.length activeTurrets =? 0)%nat then setGameState LOST s else s in
  if (WIN_SCORE <=? score)%Z then setGameState WON s else s.

(** [Math.max(500, 2000 - (score / 100) * 100)]. *)
Definition spawnRate (score : Z) : number :=
  JS.Math_max 500%float (2000 - JS.ofZ score / 100 * 100)%float.

Section Engine.

Context {M : MathLib}.

(** [random k] is the value of the [k]-th call of [Math.random()] made by this
    call of [spawnRocket], counted from 0. *)
Definition spawnRocket (random : nat -> number) (s : GameState)
  : JS.completion GameState :=
  let startX := (random 0%nat * GAME_WIDTH)%float in
  let startY := (-20)%float in
  let targets := activeTargets s in
  if (List.length targets =? 0)%nat then Normal s
  else
    match JS.get targets (JS.Math_floor (random 1%nat * JS.length targets)%float) with
    | None => Throw
    | Some target =>
        let speed := (ROCKET_SPEED_MIN
                      + random 2%nat * (ROCKET_SPEED_MAX - ROCKET_SPEED_MIN))%float in
        let angle := Math_atan2 (Target_y target - startY)%float
                                (Target_x target - startX)%float in
        Normal (set_rockets
                  (rockets s ++ [Rocket.mk startX startY (Target_x target)
                                   (Target_y target) speed angle]) s)
    end.

(** [Spawn rockets]: the first statements of [update]. *)
Definition spawnPhase (time : number) (random : nat -> number) (s : GameState)
  : JS.completion GameState :=
  if JS.gtb (time - lastSpawnTime s)%float (spawnRate (score s))
  then JS.bind (spawnRocket random s) (fun s1 => Normal (set_lastSpawnTime time s1))
  else Normal s.

(** Rocket integration: the two assignments of the rocket callback. *)
Definition moveRocket (rocket : Rocket.t) : Rocket.t :=
  Rocket.mk
    (Rocket.x rocket + Math_cos (Rocket.angle rocket) * Rocket.speed rocket)%float
    (Rocket.y rocket + Math_sin (Rocket.angle rocket) * Rocket.speed rocket)%float
    (Rocket.targetX rocket) (Rocket.targetY rocket)
    (Rocket.speed rocket) (Rocket.angle rocket).

Definition rocketCallback (rocket : Rocket.t) (s : GameState)
  : option Rocket.t * GameState :=
  let rocket := moveRocket rocket in
  let distToTarget := euclid (Rocket.x rocket - Rocket.targetX rocket)%float
                             (Rocket.y rocket - Rocket.targetY rocket)%float in
  if (distToTarget <? 5)%float then
    let s1 := set_cities (map (impactCity rocket) (cities s)) s in
    let s2 := set_turrets (map (impactTurret rocket) (turrets s1)) s1 in
    (None, set_explosions (explosions s2 ++ [impactExplosion rocket]) s2)
  else (if (Rocket.y rocket <? GAME_HEIGHT)%float then Some rocket else None, s).

Definition updateRockets (s : GameState) : GameState :=
  let (kept, s1) := filter_with rocketCallback (rockets s) s in
  set_rockets kept s1.

(** The per-frame callback.  [time] is the timestamp passed by
    [requestAnimationFrame]. *)
Definition update (time : number) (random : nat -> number) (s : GameState)
  : JS.completion GameState :=
  if negb (GameStatus_eqb (status s) PLAYING) then Normal s
  else
    JS.bind (spawnPhase time random s) (fun s1 =>
      let s2 := updateRockets s1 in
      let s3 := updateMissiles s2 in
      let s4 := updateExplosions s3 in
      Normal (checkWinLoss (score s) s4)).

End Engine.

(* ================================================================== *)
(** * The component over time *)

(** The state at mount: [useState('START')], [useState(0)], empty refs. *)
Definition mountState : GameState :=
  mkState 0 START [] [] [] [] [] 0%float.

(** What reaches the engine: the buttons, a click on the canvas, an animation
    frame. *)
Inductive Event : Type :=
| StartButton (now : number)
| PauseButton
| ResumeButton
| BackToStartButton
| CanvasClick (targetX targetY : number)
| AnimationFrame (time : number) (random : nat -> number).

Section Run.

Context {M : MathLib}.

(** The [onClick] handlers of the buttons test nothing: [initGame],
    [() => setGameState('PAUSED')], [() => setGameState('PLAYING')],
    [() => setGameState('START')].  A button is clicked only while it is in
    the document, and the match on the status below says when that is.  The
    pause button is rendered in PLAYING only.  The overlay is rendered when
    the status is not PLAYING, with the buttons of that status (START: start;
    PAUSED: resume, back to start; WON and LOST: replay, back to start); it
    sits in an [AnimatePresence] with an exit animation, so when the status
    becomes PLAYING the overlay stays in the document as it was last
    rendered, buttons included, until the animation ends: in PLAYING the
    buttons of the overlay can still be clicked.

    An exception thrown by [update] leaves the refs and the React state as
    they were: the only [Throw] of [update] comes before its first mutation. *)
Definition handle (e : Event) (s : GameState) : GameState :=
  match e with
  | StartButton now =>
      match status s with
      | START | WON | LOST | PLAYING => initGame now
      | PAUSED => s
      end
  | PauseButton =>
      match status s with
      | PLAYING => setGameState PAUSED s
      | _ => s
      end
  | ResumeButton =>
      match status s with
      | PAUSED | PLAYING => setGameState PLAYING s
      | _ => s
      end
  | BackToStartButton =>
      match status s with
      | PAUSED | WON | LOST | PLAYING => setGameState START s
      | START => s
      end
  | CanvasClick targetX targetY => fireMissile targetX targetY s
  | AnimationFrame time random =>
      match update time random s with
      | Normal s' => s'
      | Throw => s
      end
  end.

Definition run (es : list Event) (s : GameState) : GameState :=
  fold_left (fun s e => handle e s) es s.

End Run.

Definition isStart (e : Event) : bool :=
  match e with
  | StartButton _ => true
  | _ => false
  end.

(* ================================================================== *)
(** * A reference host

    Polynomial approximations of [Math.cos], [Math.sin] and [Math.atan2]
    (within a few units in the last place on the angles of the game), to run
    the engine on concrete inputs. *)

Module RefHost.

Definition PI : number := 3.141592653589793%float.
Definition PI_2_hi : number := 1.5707963267948966%float.
Definition PI_2_lo : number := 6.123233995736766e-17%float.

(** [c0 + u * (c1 + u * (c2 + ...))]. *)
Fixpoint horner (cs : list number) (u : number) : number :=
  match cs with
  | [] => 0%float
  | c :: rest => (c + u * horner rest u)%float
  end.

Definition sin_coeffs : list number :=
  [1; -1/6; 1/120; -1/5040; 1/362880; -1/39916800; 1/6227020800;
   -1/1307674368000]%float.

Definition cos_coeffs : list number :=
  [1; -1/2; 1/24; -1/720; 1/40320; -1/3628800; 1/479001600; -1/87178291200;
   1/20922789888000]%float.

Definition ksin (r : number) : number := (r * horner sin_coeffs (r * r))%float.
Definition kcos (r : number) : number := horner cos_coeffs (r * r)%float.

(** The quadrant [k] and the remainder [r] of [v = k * (pi/2) + r]. *)
Definition reduce (v : number) : option (Z * number) :=
  match JS.floorZ (v / PI_2_hi + 0.5)%float with
  | Some k =>
      let kf := JS.ofZ k in
      Some (k, ((v - kf * PI_2_hi) - kf * PI_2_lo)%float)
  | None => None
  end.

Definition sin (v : number) : number :=
  match reduce v with
  | Some (k, r) =>
      match (k mod 4)%Z with
      | 0%Z => ksin r
      | 1%Z => kcos r
      | 2%Z => (- ksin r)%float
      | _ => (- kcos r)%float
      end
  | None => nan
  end.

Definition cos (v : number) : number :=
  match reduce v with
  | Some (k, r) =>
      match (k mod 4)%Z with
      | 0%Z => kcos r
      | 1%Z => (- ksin r)%float
      | 2%Z => (- kcos r)%float
      | _ => ksin r
      end
  | None => nan
  end.

Definition atan_coeffs : list number :=
  [1; -1/3; 1/5; -1/7; 1/9; -1/11; 1/13; -1/15; 1/17; -1/19; 1/21; -1/23;
   1/25]%float.

Definition half_angle (t : number) : number := (t / (1 + sqrt (1 + t * t)))%float.

Definition atan01 (t : number) : number :=
  let u := half_angle (half_angle t) in
  (4 * (u * horner atan_coeffs (u * u)))%float.

Definition atan_pos (t : number) : number :=
  if (t <=? 1)%float then atan01 t else (PI_2_hi - atan01 (1 / t))%float.

Definition atan (t : number) : number :=
  if (t <? 0)%float then (- atan_pos (- t))%float else atan_pos t.

Definition atan2 (y x : number) : number :=
  if is_nan y || is_nan x then nan
  else if (0 <? x)%float then atan (y / x)%float
  else if (x <? 0)%float then
    (if get_sign y then atan (y / x) - PI else atan (y / x) + PI)%float
  else if (0 <? y)%float then PI_2_hi
  else if (y <? 0)%float then (- PI_2_hi)%float
  else if get_sign x then (if get_sign y then (- PI)%float else PI) else y.

Definition host : MathLib := {|
  Math_cos := cos;
  Math_sin := sin;
  Math_atan2 := atan2
|}.

End RefHost.


(* ================================================================== *)
(** * handleCanvasClick *)

(** [canvas.getBoundingClientRect()]: the fields that are read. *)
Module DOMRect.
Record t : Type := mk {
  left : number;
  top : number;
  width : number;
  height : number
}.
End DOMRect.

(** The event of [onClick] (a mouse event) or of [onTouchStart] (a touch
    event, with its list [touches] of client positions). *)
Inductive PointerEvent : Type :=
| MouseEvent (clientX clientY : number)
| TouchEvent (touches : list (number * number)).

(** [canvas] is [canvasRef.current], [None] when it is null.  Reading
    [e.touches[0].clientX] of an empty list throws. *)
Definition handleCanvasClick (canvas : option DOMRect.t) (e : PointerEvent)
  (s : GameState) : JS.completion GameState :=
  if negb (GameStatus_eqb (status s) PLAYING) then Normal s
  else
    match canvas with
    | None => Normal s
    | Some rect =>
        let client :=
          match e with
          | TouchEvent touches => nth_error touches 0
          | MouseEvent clientX clientY => Some (clientX, clientY)
          end in
        match client with
        | None => Throw
        | Some (clientX, clientY) =>
            let scaleX := (GAME_WIDTH / DOMRect.width rect)%float in
            let scaleY := (GAME_HEIGHT / DOMRect.height rect)%float in
            let x := ((clientX - DOMRect.left rect) * scaleX)%float in
            let y := ((clientY - DOMRect.top rect) * scaleY)%float in
            Normal (fireMissile x y s)
        end
    end.
(* ================================================================== *)
(** * Vocabulary of the specification *)

(** ** Comparison of numbers *)

(** The comparison of two binary64 values, on which [<?] and [<=?] rest:
    [None] when one of them is NaN. *)
Definition fcmp (x y : number) : option comparison :=
  SFcompare (Prim2SF x) (Prim2SF y).

Definition comparable (x y : number) : Prop := fcmp x y <> None.

(** ** Integers held in numbers

    The ammo of a turret ranges over the integers from 0 to 40 and the score
    over the multiples of [POINTS_PER_ROCKET]; on them the operations of the
    source ([ammo > 0], [ammo -= 1], [prev + POINTS_PER_ROCKET],
    [score >= WIN_SCORE]) give in binary64 what they give in [Z]. *)
Definition ammo_exact (capacity : nat) : bool :=
  forallb
    (fun n =>
       let a := Z.of_nat n in
       Bool.eqb (JS.gtb (JS.ofZ a) 0%float) (0 <? a)%Z
       && PrimFloat.Leibniz.eqb (JS.ofZ a - 1)%float (JS.ofZ (a - 1)))
    (seq 0 (S capacity)).

Definition score_exact (kills : nat) : bool :=
  forallb
    (fun n =>
       let sc := (Z.of_nat n * POINTS_PER_ROCKET)%Z in
       Bool.eqb (JS.geb (JS.ofZ sc) (JS.ofZ WIN_SCORE)) (WIN_SCORE <=? sc)%Z
       && PrimFloat.Leibniz.eqb (JS.ofZ sc + JS.ofZ POINTS_PER_ROCKET)%float
            (JS.ofZ (sc + POINTS_PER_ROCKET)))
    (seq 0 (S kills)).

(** ** Targeting *)

(** The horizontal distance [|turret.x - targetX|]. *)
Definition hdist (targetX : number) (turret : Turret.t) : number :=
  JS.Math_abs (Turret.x turret - targetX)%float.




(** ** Win and loss, ammo, runs *)

(** The loss condition of the win/loss check: no turret is active. *)
Definition noActiveTurret (s : GameState) : Prop :=
  filter Turret.active (turrets s) = [].

(** Ammo within its bounds. *)
Definition ammo_in_bounds (turret : Turret.t) : Prop :=
  (0 <= Turret.ammo turret <= Turret.maxAmmo turret)%Z.

(** One turret before and after an event: its capacity is the same, and its
    ammo is the same or, for a turret that was active with ammo left, lower
    by one. *)
Definition ammo_step (before after : Turret.t) : Prop :=
  Turret.maxAmmo after = Turret.maxAmmo before /\
  (Turret.ammo after = Turret.ammo before \/
   (eligible before = true /\ Turret.ammo after = (Turret.ammo before - 1)%Z)).

(** One turret at the start and at a later point of a run. *)
Definition ammo_not_above (before after : Turret.t) : Prop :=
  Turret.maxAmmo after = Turret.maxAmmo before /\
  (Turret.ammo after <= Turret.ammo before)%Z.

(** No event of [es] is a start or a restart. *)
Definition noStart (es : list Event) : Prop :=
  forall e, In e es -> isStart e = false.

(** ** Rockets and explosions *)

(** The rocket, after integration, is strictly closer than 5 units to its
    target. *)
Definition reachedTarget (rocket : Rocket.t) : bool :=
  (sqrt ((Rocket.x rocket - Rocket.targetX rocket) * (Rocket.x rocket - Rocket.targetX rocket)
         + (Rocket.y rocket - Rocket.targetY rocket) * (Rocket.y rocket - Rocket.targetY rocket))
   <? 5)%float.

(** The explosions taken in turn, in the words of the specification: each one
    grows, destroys every rocket still present that is strictly inside its
    current radius, and adds [POINTS_PER_ROCKET] to the score for each rocket
    so destroyed; the next explosion sees the rockets that are left. *)
Fixpoint blast (exps : list Explosion.t) (rs : list Rocket.t) (sc : Z)
  : list Rocket.t * Z :=
  match exps with
  | [] => (rs, sc)
  | exp :: rest =>
      let exp' := growExplosion exp in
      blast rest
        (filter (fun rocket => negb (caught exp' rocket)) rs)
        (sc + POINTS_PER_ROCKET * Z.of_nat (length (filter (caught exp') rs)))
  end.

(** The triangular envelope of the specification: the radius as a function of
    the life. *)
Definition envelope (maxRadius maxLife life : number) : number :=
  let halfLife := (maxLife / 2)%float in
  if (life <=? halfLife)%float
  then (life / halfLife * maxRadius)%float
  else ((1 - (life - halfLife) / halfLife) * maxRadius)%float.

(** An explosion after [n] frames. *)
Fixpoint aged (n : nat) (exp : Explosion.t) : Explosion.t :=
  match n with
  | O => exp
  | S k => growExplosion (aged k exp)
  end.

(** The life and the radius of an explosion after [n] frames, from the
    fields they depend on. *)
Fixpoint life_radius (n : nat) (maxRadius maxLife life radius : number)
  : number * number :=
  match n with
  | O => (life, radius)
  | S k =>
      let (life', _) := life_radius k maxRadius maxLife life radius in
      ((life' + 1)%float, envelope maxRadius maxLife (life' + 1)%float)
  end.

(** For every [n <= frames]: an explosion created with [maxRadius] and
    [maxLife = frames] has, after [n] frames, life [n] and the radius of the
    envelope at [n], and its life is below [maxLife] exactly when
    [n < frames]. *)
Definition lifecycle_ok (maxRadius maxLife : number) (frames : nat) : bool :=
  forallb
    (fun n =>
       let (life, radius) := life_radius n maxRadius maxLife 0%float 0%float in
       PrimFloat.Leibniz.eqb life (JS.ofZ (Z.of_nat n))
       && PrimFloat.Leibniz.eqb radius (envelope maxRadius maxLife (JS.ofZ (Z.of_nat n)))
       && Bool.eqb (life <? maxLife)%float (n <? frames)%nat)
    (seq 0 (S frames)).

(** An explosion as the engine creates it: at rest, of one of the two kinds;
    [frames] is its [maxLife] as a number of frames. *)
Definition created (exp : Explosion.t) (frames : nat) : Prop :=
  Explosion.life exp = 0%float /\ Explosion.radius exp = 0%float /\
  ((Explosion.maxRadius exp = 46%float /\ Explosion.maxLife exp = 60%float
    /\ frames = 60%nat) \/
   (Explosion.maxRadius exp = 20%float /\ Explosion.maxLife exp = 30%float
    /\ frames = 30%nat)).

(** An explosion found in the list between two frames: created by the engine
    [n] frames ago, with [n] below its [maxLife]. *)
Definition tracked (exp : Explosion.t) : Prop :=
  exists origin frames n,
    created origin frames /\ (n < frames)%nat /\ exp = aged n origin.

(** ** The spawn interval *)

(** The scores on which the spawn interval is tabulated: from 4096 on,
    [score / 100 * 100] is above 2000 whatever the rounding. *)
Definition SCORE_RANGE : nat := 4096.

(** For every integer score [k <= SCORE_RANGE]: the interval at [k + 1] is
    at most the interval at [k], the interval at [k] is a number, and from
    1500 on it is 500. *)
Definition spawnRate_ok (range : nat) : bool :=
  forallb
    (fun k =>
       (spawnRate (Z.of_nat (S k)) <=? spawnRate (Z.of_nat k))%float
       && (spawnRate (Z.of_nat k) <=? spawnRate (Z.of_nat k))%float
       && ((k <? 1500)%nat || PrimFloat.Leibniz.eqb (spawnRate (Z.of_nat k)) 500%float))
    (seq 0 (S range)).

(** A binary64 value, as the specification of the arithmetic gives it, of
    magnitude at least [k]: [+Infinity], or a positive finite number
    [m * 2^e] whose mantissa [m] has [d] bits with [k <= d + e], so that it
    is at least [2^(k - 1)]. *)
Definition magnitude_atleast (k : Z) (x : spec_float) : Prop :=
  x = S754_infinity false \/
  exists m e, x = S754_finite false m e /\ (k <= Z.pos (digits2_pos m) + e)%Z.

(** A binary64 value with the sign bit set, NaN apart. *)
Definition negative_signed (x : spec_float) : Prop :=
  x = S754_zero true \/ x = S754_infinity true \/ exists m e, x = S754_finite true m e.

(* ================================================================== *)
(** * Example states and inputs *)

(** No [Math.random()] call is answered in the frames where none is made. *)
Definition noRandom : nat -> number := fun _ => 0%float.

(** The three draws of a spawn: the abscissa, the target, the speed. *)
Definition draw3 (a b c : number) : nat -> number :=
  fun k => nth k [a; b; c] 0%float.

Definition draws : nat -> number := (draw3 0.5 0.75 0.5)%float.

(** ** A game played to its last frames

    Time is in milliseconds.  A frame whose timestamp is 2001 ms after the
    previous one spawns a rocket; the frames in between are 1 ms apart and
    spawn none.  Every rocket falls straight down with speed 1. *)
Definition frameAt (t : Z) (random : nat -> number) : Event :=
  AnimationFrame (JS.ofZ t) random.

(** [n] frames at [t + 1], ..., [t + n]. *)
Definition idle (t : Z) (n : nat) : list Event :=
  map (fun k => frameAt (t + Z.of_nat k)%Z noRandom) (seq 1 n).

(** Seven rockets spawned in seven frames above the city at [(200, 580)], one
    missile fired at [(200, 100)], and 170 frames: the explosion catches the
    seven rockets and dies out. *)
Definition volley (t : Z) : list Event :=
  map (fun k => frameAt (t + 2001 * Z.of_nat k)%Z (draw3 0.25 0.15 0.5)%float) (seq 1 7)
  ++ [CanvasClick 200 100]%float
  ++ idle (t + 2001 * 7)%Z 170.

Definition volleyTime : Z := (2001 * 7 + 170)%Z.

Definition volleys (n : nat) : list Event :=
  flat_map (fun i => volley (Z.of_nat i * volleyTime)%Z) (seq 0 n).

Definition siegeStart : Z := (7 * volleyTime)%Z.

(** A rocket on the left turret and one on the right turret, left alone until
    both have landed and their explosions have died out. *)
Definition siege : list Event :=
  [frameAt (siegeStart + 2001)%Z (draw3 0.05 0.7 0.5)%float;
   frameAt (siegeStart + 2001 * 2)%Z (draw3 0.95 0.9 0.5)%float]
  ++ idle (siegeStart + 2001 * 2)%Z 620.

Definition endgameStart : Z := (siegeStart + 2001 * 2 + 620)%Z.

(** A rocket on the middle turret; 481 frames later a rocket above the city
    at [(200, 580)] and a missile fired at [(200, 100)]; 102 frames. *)
Definition endgame : list Event :=
  [frameAt (endgameStart + 2001)%Z (draw3 0.5 0.9 0.5)%float]
  ++ idle (endgameStart + 2001)%Z 480
  ++ [frameAt (endgameStart + 2001 + 480 + 2001)%Z (draw3 0.25 0.15 0.5)%float;
      CanvasClick 200%float 100%float]
  ++ idle (endgameStart + 2001 + 480 + 2001)%Z 102.

(** From the start button to the eve of the last kill: 2454 events. *)
Definition playthrough : list Event :=
  [StartButton 0%float] ++ volleys 7 ++ siege ++ endgame.

(** [eve]: the state the playthrough ends in.  The score is one rocket short of
    [WIN_SCORE]; the middle turret is the last one active, and a rocket is 6
    units above it; another rocket is 17 units above the centre of a
    detonation explosion in its 10th frame. *)
Definition eve : GameState :=
  mkState 980 PLAYING
    [Rocket.mk 400 564 400 570 1 1.5707963267948966;
     Rocket.mk 200 83 200 580 1 1.5707963267948966]%float
    []
    [Explosion.mk 200 100 (10 / 30 * 46) 46 10 60]%float
    (map initCity [0; 1; 2; 3; 4; 5]%Z)
    [Turret.mk 40 570 false 13 20;
     Turret.mk 400 570 true 39 40;
     Turret.mk 760 570 false 20 20]%float
    108343%float.

(** [lastStand]: [eve] after one frame.  The explosion has caught the second
    rocket and the score stands at [WIN_SCORE]; the first rocket is exactly 5
    units above the last active turret. *)
Definition lastStand : GameState :=
  mkState 1000 PLAYING
    [Rocket.mk 400 565 400 570 1 1.5707963267948966]%float
    []
    [Explosion.mk 200 100 (11 / 30 * 46) 46 11 60]%float
    (map initCity [0; 1; 2; 3; 4; 5]%Z)
    [Turret.mk 40 570 false 13 20;
     Turret.mk 400 570 true 39 40;
     Turret.mk 760 570 false 20 20]%float
    108343%float.

(** [lastStand] after one frame: the rocket has come within 5 units of the
    middle turret and deactivated it. *)
Definition lastStand_after : GameState :=
  mkState 1000 WON [] []
    [Explosion.mk 200 100 (12 / 30 * 46) 46 12 60;
     Explosion.mk 400 566 (1 / 15 * 20) 20 1 30]%float
    [City.mk 100 580 true; City.mk 200 580 true; City.mk 400 580 true;
     City.mk 500 580 true; City.mk 700 580 true; City.mk 800 580 true]%float
    [Turret.mk 40 570 false 13 20;
     Turret.mk 400 570 false 39 40;
     Turret.mk 760 570 false 20 20]%float
    108343%float.

(** [bothAtOnce]: [eve] with the first rocket two units lower, so that the last
    turret is hit in the frame in which the score reaches [WIN_SCORE]
    (scenario E of the specification). *)
Definition bothAtOnce : GameState :=
  mkState 980 PLAYING
    [Rocket.mk 400 566 400 570 1 1.5707963267948966;
     Rocket.mk 200 83 200 580 1 1.5707963267948966]%float
    []
    [Explosion.mk 200 100 (10 / 30 * 46) 46 10 60]%float
    (map initCity [0; 1; 2; 3; 4; 5]%Z)
    [Turret.mk 40 570 false 13 20;
     Turret.mk 400 570 true 39 40;
     Turret.mk 760 570 false 20 20]%float
    108343%float.

(** A rocket one step from the bottom edge, far from its target. *)
Definition strayRocket : Rocket.t :=
  (Rocket.mk 640 599.5 700 580 1 1.5707963267948966)%float.

(** A state in which every city and every turret has been destroyed. *)
Definition razed : GameState :=
  mkState 100 PLAYING [] [] []
    [City.mk 100 580 false]%float
    [Turret.mk 40 570 false 3 20]%float
    0%float.

(* ================================================================== *)
(** * Vocabulary of the further results *)

(** ** The state machine *)

(** The arrows of the status graph. *)
Definition transition (a b : GameStatus) : bool :=
  match a, b with
  | START, PLAYING
  | PLAYING, PAUSED | PLAYING, WON | PLAYING, LOST | PLAYING, START
  | PAUSED, PLAYING | PAUSED, START
  | WON, START | WON, PLAYING
  | LOST, START | LOST, PLAYING => true
  | _, _ => false
  end.

Definition isFrame (e : Event) : bool :=
  match e with
  | AnimationFrame _ _ => true
  | _ => false
  end.

Definition isClick (e : Event) : bool :=
  match e with
  | CanvasClick _ _ => true
  | _ => false
  end.

(** What the status says about the rest of the state. *)
Definition status_sound (s : GameState) : Prop :=
  (status s = WON -> (WIN_SCORE <= score s)%Z) /\
  (status s = LOST -> noActiveTurret s) /\
  (status s = PLAYING \/ status s = PAUSED ->
   exists t, In t (turrets s) /\ Turret.active t = true).

(** ** The ground *)

(** A city, a turret, before and after: it has not moved, and it is not
    active again after having been inactive. *)
Definition city_step (before after : City.t) : Prop :=
  City.x after = City.x before /\ City.y after = City.y before /\
  (City.active before = false -> City.active after = false).

Definition turret_step (before after : Turret.t) : Prop :=
  Turret.x after = Turret.x before /\ Turret.y after = Turret.y before /\
  Turret.maxAmmo after = Turret.maxAmmo before /\
  (Turret.active before = false -> Turret.active after = false).

Definition city_site (c : City.t) : number * number := (City.x c, City.y c).

Definition turret_site (t : Turret.t) : number * number * Z :=
  (Turret.x t, Turret.y t, Turret.maxAmmo t).

(** The cities and turrets stand where [initGame] puts them, or there is
    none (before the first start). *)
Definition laid_out (s : GameState) : Prop :=
  (cities s = [] /\ turrets s = []) \/
  (map city_site (cities s)
   = [(100, 580); (200, 580); (400, 580); (500, 580); (700, 580); (800, 580)]%float /\
   map turret_site (turrets s)
   = [(40%float, 570%float, 20%Z); (400%float, 570%float, 40%Z);
      (760%float, 570%float, 20%Z)]).

(** The ammo of all turrets together. *)
Definition totalAmmo (ts : list Turret.t) : Z :=
  fold_right (fun t acc => (Turret.ammo t + acc)%Z) 0%Z ts.

(** ** Missiles and rockets in flight *)

(** [missile.progress >= 1]. *)
Definition arrived (missile : Missile.t) : bool :=
  JS.geb (Missile.progress missile) 1%float.

(** A missile of the list between two events: short of its target, with the
    distance computed when it was fired, and either at its start with
    progress 0 or at the point of the segment that its progress gives. *)
Definition missile_in_flight (missile : Missile.t) : Prop :=
  arrived missile = false /\
  Missile.distance missile
  = euclid (Missile.targetX missile - Missile.startX missile)%float
           (Missile.targetY missile - Missile.startY missile)%float /\
  ((Missile.progress missile = 0%float /\
    Missile.x missile = Missile.startX missile /\
    Missile.y missile = Missile.startY missile) \/
   (Missile.x missile
    = (Missile.startX missile
       + (Missile.targetX missile - Missile.startX missile) * Missile.progress missile)%float /\
    Missile.y missile
    = (Missile.startY missile
       + (Missile.targetY missile - Missile.startY missile) * Missile.progress missile)%float)).

(** A rocket of the list between two events: above the bottom edge and not
    within 5 units of its target. *)
Definition rocket_in_flight (rocket : Rocket.t) : Prop :=
  (Rocket.y rocket <? GAME_HEIGHT)%float = true /\ reachedTarget rocket = false.

(** ** The radius of an explosion *)

(** For every [n <= frames]: the envelope at [n] lies between 0 and
    [maxRadius]; below half of [maxLife] it is strictly smaller than the
    envelope at [n + 1]; from half of [maxLife] on, and before [frames], it
    is strictly greater. *)
Definition radius_ok (maxRadius maxLife : number) (frames : nat) : bool :=
  forallb
    (fun n =>
       let life := JS.ofZ (Z.of_nat n) in
       let r := envelope maxRadius maxLife life in
       let r' := envelope maxRadius maxLife (JS.ofZ (Z.of_nat (S n))) in
       (0 <=? r)%float && (r <=? maxRadius)%float
       && (if (life <? maxLife / 2)%float then (r <? r')%float
           else (frames <=? n)%nat || (r' <? r)%float))
    (seq 0 (S frames)).

(** The positions of the three turrets. *)
Definition turretSites : list (number * number) :=
  [(40, 570); (400, 570); (760, 570)]%float.

Definition launched_from_site (missile : Missile.t) : Prop :=
  In (Missile.startX missile, Missile.startY missile) turretSites.

(** The positions of the six cities. *)
Definition citySites : list (number * number) :=
  [(100, 580); (200, 580); (400, 580); (500, 580); (700, 580); (800, 580)]%float.

Definition aimed_at_site (rocket : Rocket.t) : Prop :=
  In (Rocket.targetX rocket, Rocket.targetY rocket) (citySites ++ turretSites).

(** ** The books of a frame *)

(** The missiles of [s] that detonate in the missile phase, as they are after
    their move. *)
Definition missilesDetonated (s : GameState) : list Missile.t :=
  filter arrived (map moveMissile (missiles s)).

(** The explosions of a list that the explosion phase removes, as they are
    after their growth. *)
Definition explosionsExpired (exps : list Explosion.t) : list Explosion.t :=
  filter (fun exp => negb (Explosion.life exp <? Explosion.maxLife exp)%float)
    (map growExplosion exps).

Section FrameBooks.

Context {M : MathLib}.

(** The rockets of [s1], the state left by the spawn phase, as the rocket
    phase leaves them after their move: those that hit their target, those
    that fell to the bottom edge without hitting it, those still flying. *)
Definition rocketsHit (s1 : GameState) : list Rocket.t :=
  filter reachedTarget (map moveRocket (rockets s1)).

Definition rocketsFallen (s1 : GameState) : list Rocket.t :=
  filter (fun r => negb (reachedTarget r) && negb (Rocket.y r <? GAME_HEIGHT)%float)
    (map moveRocket (rockets s1)).

Definition rocketsFlying (s1 : GameState) : list Rocket.t :=
  filter (fun r => negb (reachedTarget r) && (Rocket.y r <? GAME_HEIGHT)%float)
    (map moveRocket (rockets s1)).

End FrameBooks.

(* ================================================================== *)
(** * Order facts on binary64 values *)

Module FloatOrder.

Lemma ltb_cmp x y : (x <? y)%float = true <-> fcmp x y = Some Lt.
Proof.
  rewrite ltb_spec. unfold SFltb, fcmp.
  destruct (SFcompare _ _) as [[]|]; split; congruence.
Qed.

Lemma leb_cmp x y : (x <=? y)%float = true <-> fcmp x y = Some Lt \/ fcmp x y = Some Eq.
Proof.
  rewrite leb_spec. unfold SFleb, fcmp.
  destruct (SFcompare _ _) as [[]|]; split; intros; try tauto; try congruence;
    destruct H; congruence.
Qed.

Ltac order_cases :=
  repeat match goal with
  | H : Some _ = Some _ |- _ => injection H as H
  | H : context [(?a ?= ?b)%Z] |- _ => destruct (Z.compare_spec a b); subst
  | |- context [(?a ?= ?b)%Z] => destruct (Z.compare_spec a b); subst
  | H : context [CompOpp _] |- _ => rewrite <- Pos.compare_antisym in H
  | |- context [CompOpp _] => rewrite <- Pos.compare_antisym
  | |- Some _ = Some _ => f_equal
  end;
  rewrite ?Pos.compare_lt_iff, ?Pos.compare_gt_iff, ?Pos.compare_eq_iff in *;
  try discriminate; try reflexivity; try lia.

Ltac sf_cases a b c :=
  destruct a as [[]|[]| |[] ? ?], b as [[]|[]| |[] ? ?], c as [[]|[]| |[] ? ?];
  simpl; try discriminate; try reflexivity;
  repeat match goal with
  | |- context [PosDef.Pos.compare_cont Eq ?p ?q] => fold (Pos.compare p q)
  end;
  intros; order_cases.

Lemma SFcompare_lt_trans a b c :
  SFcompare a b = Some Lt -> SFcompare b c = Some Lt -> SFcompare a c = Some Lt.
Proof. sf_cases a b c. Qed.

Lemma SFcompare_lt_eq_trans a b c :
  SFcompare a b = Some Lt -> SFcompare b c = Some Eq -> SFcompare a c = Some Lt.
Proof. sf_cases a b c. Qed.

Lemma SFcompare_eq_lt_trans a b c :
  SFcompare a b = Some Eq -> SFcompare b c = Some Lt -> SFcompare a c = Some Lt.
Proof. sf_cases a b c. Qed.

Lemma SFcompare_eq_trans a b c :
  SFcompare a b = Some Eq -> SFcompare b c = Some Eq -> SFcompare a c = Some Eq.
Proof. sf_cases a b c. Qed.

Lemma SFcompare_antisym a b :
  SFcompare b a = option_map CompOpp (SFcompare a b).
Proof.
  destruct a as [[]|[]| |[] ma ea], b as [[]|[]| |[] mb eb]; simpl; try reflexivity;
  fold (Pos.compare ma mb); fold (Pos.compare mb ma); f_equal;
  rewrite (Z.compare_antisym ea eb);
  destruct (ea ?= eb)%Z; simpl; try reflexivity; rewrite (Pos.compare_antisym ma mb);
  destruct (ma ?= mb)%positive; reflexivity.
Qed.

(** Order facts on binary64 values. *)
Lemma ltb_trans x y z :
  (x <? y)%float = true -> (y <? z)%float = true -> (x <? z)%float = true.
Proof. rewrite !ltb_cmp. apply SFcompare_lt_trans. Qed.


Lemma leb_trans x y z :
  (x <=? y)%float = true -> (y <=? z)%float = true -> (x <=? z)%float = true.
Proof.
  rewrite !leb_cmp. unfold fcmp. intros [H|H] [H'|H'].
  - left. eapply SFcompare_lt_trans; eassumption.
  - left. eapply SFcompare_lt_eq_trans; eassumption.
  - left. eapply SFcompare_eq_lt_trans; eassumption.
  - right. eapply SFcompare_eq_trans; eassumption.
Qed.

Lemma ltb_leb x y : (x <? y)%float = true -> (x <=? y)%float = true.
Proof. rewrite ltb_cmp, leb_cmp. auto. Qed.

Lemma leb_not_ltb x y : (x <=? y)%float = true -> (y <? x)%float = false.
Proof.
  rewrite leb_cmp. intros H. apply not_true_is_false. rewrite ltb_cmp. unfold fcmp in *.
  rewrite SFcompare_antisym. destruct H as [H|H]; rewrite H; discriminate.
Qed.

Lemma ltb_asym x y : (x <? y)%float = true -> (y <? x)%float = false.
Proof. intros H. apply leb_not_ltb, ltb_leb, H. Qed.

Lemma not_ltb_leb x y :
  comparable x y -> (x <? y)%float = false -> (y <=? x)%float = true.
Proof.
  unfold comparable. intros Hc H. apply leb_cmp. unfold fcmp in *.
  rewrite SFcompare_antisym.
  destruct (SFcompare (Prim2SF x) (Prim2SF y)) as [[]|] eqn:E; simpl; auto.
  - apply ltb_cmp in E. congruence.
  - congruence.
Qed.


Lemma cmp_comparable x y z : fcmp x y <> None -> fcmp z z <> None -> fcmp x z <> None.
Proof.
  unfold fcmp. destruct (Prim2SF x), (Prim2SF y), (Prim2SF z); simpl; congruence.
Qed.

End FloatOrder.

(** The integer fields: [ammo] up to the largest capacity, [score] up to 150
    rockets destroyed. *)
Lemma ammo_in_binary64 : ammo_exact 40 = true.
Proof. vm_compute. reflexivity. Qed.

Lemma score_in_binary64 : score_exact 150 = true.
Proof. vm_compute. reflexivity. Qed.

(* ================================================================== *)
(** * fireMissile *)

Section FindBest.

Variable targetX : number.




End FindBest.




(** The same call, evaluated: the middle turret answers. *)
Example fireMissile_initGame :
  fireMissile 300%float 200%float (initGame 0%float) =
    mkState 0 PLAYING []
      [Missile.mk 400%float 570%float 300%float 200%float 400%float 570%float 0%float
         383.27535793473601%float]
      [] (cities (initGame 0%float))
      [Turret.mk 40%float 570%float true 20 20;
       Turret.mk 400%float 570%float true 39 40;
       Turret.mk 760%float 570%float true 20 20]
      0%float.
Proof. vm_compute. reflexivity. Qed.

(* ================================================================== *)
(** * What each phase of [update] leaves alone *)

Lemma filter_with_snd {A S} (callback : A -> S -> option A * S) a rest s :
  snd (filter_with callback (a :: rest) s)
  = snd (filter_with callback rest (snd (callback a s))).
Proof.
  simpl. destruct (callback a s) as [keep s1]. simpl.
  destruct (filter_with callback rest s1). reflexivity.
Qed.

Lemma filter_with_fst {A S} (callback : A -> S -> option A * S) a rest s :
  fst (filter_with callback (a :: rest) s)
  = match fst (callback a s) with
    | Some a' => a' :: fst (filter_with callback rest (snd (callback a s)))
    | None => fst (filter_with callback rest (snd (callback a s)))
    end.
Proof.
  simpl. destruct (callback a s) as [keep s1]. simpl.
  destruct (filter_with callback rest s1). reflexivity.
Qed.

(** An invariant of the callback is an invariant of the whole [filter]. *)
Lemma filter_with_inv {A S} (P : S -> Prop) (callback : A -> S -> option A * S) :
  (forall a s, P s -> P (snd (callback a s))) ->
  forall arr s, P s -> P (snd (filter_with callback arr s)).
Proof.
  intros Hcb arr. induction arr as [|a rest IH]; intros s Hs.
  - exact Hs.
  - rewrite filter_with_snd. apply IH, Hcb, Hs.
Qed.

Lemma filter_with_preserves {A S B} (f : S -> B) (callback : A -> S -> option A * S) :
  (forall a s, f (snd (callback a s)) = f s) ->
  forall arr s, f (snd (filter_with callback arr s)) = f s.
Proof.
  intros Hcb arr s.
  apply (filter_with_inv (fun s' => f s' = f s) callback); [|reflexivity].
  intros a s' Hs'. rewrite Hcb. exact Hs'.
Qed.

Lemma collisionCallback_frame exp rocket s :
  let s' := snd (collisionCallback exp rocket s) in
  status s' = status s /\ rockets s' = rockets s /\ missiles s' = missiles s /\
  explosions s' = explosions s /\ cities s' = cities s /\ turrets s' = turrets s /\
  lastSpawnTime s' = lastSpawnTime s.
Proof.
  unfold collisionCallback. destruct (caught exp rocket); simpl; repeat split.
Qed.

Lemma explosionCallback_frame exp s :
  let s' := snd (explosionCallback exp s) in
  status s' = status s /\ missiles s' = missiles s /\
  explosions s' = explosions s /\ cities s' = cities s /\ turrets s' = turrets s /\
  lastSpawnTime s' = lastSpawnTime s.
Proof.
  unfold explosionCallback.
  destruct (filter_with (collisionCallback (growExplosion exp)) (rockets s) s)
    as [kept s1] eqn:E.
  assert (Hs1 : s1 = snd (filter_with (collisionCallback (growExplosion exp)) (rockets s) s))
    by (rewrite E; reflexivity).
  simpl. subst s1.
  repeat split;
    match goal with
    | |- ?f _ = _ =>
        apply (filter_with_preserves f (collisionCallback (growExplosion exp)));
        intros; apply collisionCallback_frame
    end.
Qed.

Lemma updateExplosions_frame s :
  let s' := updateExplosions s in
  status s' = status s /\ missiles s' = missiles s /\
  cities s' = cities s /\ turrets s' = turrets s /\
  lastSpawnTime s' = lastSpawnTime s.
Proof.
  unfold updateExplosions.
  destruct (filter_with explosionCallback (explosions s) s) as [kept s1] eqn:E.
  assert (Hs1 : s1 = snd (filter_with explosionCallback (explosions s) s))
    by (rewrite E; reflexivity).
  simpl. subst s1.
  repeat split;
    match goal with
    | |- ?f _ = _ =>
        apply (filter_with_preserves f explosionCallback);
        intros; apply explosionCallback_frame
    end.
Qed.

Lemma missileCallback_frame missile s :
  let s' := snd (missileCallback missile s) in
  score s' = score s /\ status s' = status s /\ rockets s' = rockets s /\
  missiles s' = missiles s /\ cities s' = cities s /\ turrets s' = turrets s /\
  lastSpawnTime s' = lastSpawnTime s.
Proof.
  unfold missileCallback. destruct (JS.geb _ _); simpl; repeat split.
Qed.

Lemma updateMissiles_frame s :
  let s' := updateMissiles s in
  score s' = score s /\ status s' = status s /\ rockets s' = rockets s /\
  cities s' = cities s /\ turrets s' = turrets s /\
  lastSpawnTime s' = lastSpawnTime s.
Proof.
  unfold updateMissiles.
  destruct (filter_with missileCallback (missiles s) s) as [kept s1] eqn:E.
  assert (Hs1 : s1 = snd (filter_with missileCallback (missiles s) s))
    by (rewrite E; reflexivity).
  simpl. subst s1.
  repeat split;
    match goal with
    | |- ?f _ = _ =>
        apply (filter_with_preserves f missileCallback);
        intros; apply missileCallback_frame
    end.
Qed.

Lemma checkWinLoss_frame sc s :
  let s' := checkWinLoss sc s in
  score s' = score s /\ rockets s' = rockets s /\ missiles s' = missiles s /\
  explosions s' = explosions s /\ cities s' = cities s /\ turrets s' = turrets s /\
  lastSpawnTime s' = lastSpawnTime s.
Proof.
  unfold checkWinLoss.
  destruct (length (filter Turret.active (turrets s)) =? 0)%nat, (WIN_SCORE <=? sc)%Z;
    simpl; repeat split.
Qed.

Section EngineFrames.

Context {M : MathLib}.

Lemma rocketCallback_frame rocket s :
  let s' := snd (rocketCallback rocket s) in
  score s' = score s /\ status s' = status s /\ rockets s' = rockets s /\
  missiles s' = missiles s /\ lastSpawnTime s' = lastSpawnTime s.
Proof.
  unfold rocketCallback. destruct (_ <? 5)%float; simpl; repeat split.
Qed.

Lemma updateRockets_frame s :
  let s' := updateRockets s in
  score s' = score s /\ status s' = status s /\
  missiles s' = missiles s /\ lastSpawnTime s' = lastSpawnTime s.
Proof.
  unfold updateRockets.
  destruct (filter_with rocketCallback (rockets s) s) as [kept s1] eqn:E.
  assert (Hs1 : s1 = snd (filter_with rocketCallback (rockets s) s))
    by (rewrite E; reflexivity).
  simpl. subst s1.
  repeat split;
    match goal with
    | |- ?f _ = _ =>
        apply (filter_with_preserves f rocketCallback);
        intros; apply rocketCallback_frame
    end.
Qed.

Lemma spawnRocket_frame random s s' :
  spawnRocket random s = Normal s' ->
  score s' = score s /\ status s' = status s /\ missiles s' = missiles s /\
  explosions s' = explosions s /\ cities s' = cities s /\ turrets s' = turrets s /\
  lastSpawnTime s' = lastSpawnTime s.
Proof.
  unfold spawnRocket. destruct (length (activeTargets s) =? 0)%nat.
  - intros [= <-]. repeat split.
  - destruct (JS.get _ _); [|discriminate]. intros [= <-]. repeat split.
Qed.

Lemma spawnPhase_frame time random s s' :
  spawnPhase time random s = Normal s' ->
  score s' = score s /\ status s' = status s /\ missiles s' = missiles s /\
  explosions s' = explosions s /\ cities s' = cities s /\ turrets s' = turrets s.
Proof.
  unfold spawnPhase. destruct (JS.gtb _ _).
  - destruct (spawnRocket random s) as [s1|] eqn:E; simpl; [|discriminate].
    intros [= <-]. apply spawnRocket_frame in E. simpl. tauto.
  - intros [= <-]. repeat split.
Qed.

End EngineFrames.

(* ================================================================== *)
(** * The win/loss check *)

Lemma checkWinLoss_status sc s :
  status (checkWinLoss sc s) =
    if (WIN_SCORE <=? sc)%Z then WON
    else if (length (filter Turret.active (turrets s)) =? 0)%nat then LOST
    else status s.
Proof.
  unfold checkWinLoss.
  destruct (WIN_SCORE <=? sc)%Z, (length (filter Turret.active (turrets s)) =? 0)%nat;
    reflexivity.
Qed.

Section Status.

Context {M : MathLib}.

(** A frame in status PLAYING that returns has run the five phases in order,
    the last one with the score the frame started with. *)
Lemma update_PLAYING time random s s' :
  status s = PLAYING ->
  update time random s = Normal s' ->
  exists s1,
    spawnPhase time random s = Normal s1 /\
    s' = checkWinLoss (score s)
           (updateExplosions (updateMissiles (updateRockets s1))).
Proof.
  unfold update. intros ->. simpl.
  destruct (spawnPhase time random s) as [s1|]; simpl; [|discriminate].
  intros [= <-]. exists s1. split; reflexivity.
Qed.

(** In any other status the frame does nothing. *)
Lemma update_not_PLAYING time random s :
  status s <> PLAYING -> update time random s = Normal s.
Proof.
  unfold update. destruct (status s); simpl; congruence.
Qed.

(** The frame returns unless a spawn is due, a target is active and the drawn
    index is not an index of [targets]. *)
Lemma update_returns time random s :
  JS.get (activeTargets s)
    (JS.Math_floor (random 1%nat * JS.length (activeTargets s))%float) <> None ->
  exists s', update time random s = Normal s'.
Proof.
  intros Hget. unfold update. destruct (negb _); [eexists; reflexivity|].
  unfold spawnPhase, spawnRocket.
  destruct (JS.gtb _ _); simpl; [|eexists; reflexivity].
  destruct (length (activeTargets s) =? 0)%nat; simpl; [eexists; reflexivity|].
  destruct (JS.get _ _); [|congruence]. simpl. eexists; reflexivity.
Qed.

Lemma update_status time random s s' :
  status s = PLAYING ->
  update time random s = Normal s' ->
  status s' =
    if (WIN_SCORE <=? score s)%Z then WON
    else if (length (filter Turret.active (turrets s')) =? 0)%nat then LOST
    else PLAYING.
Proof.
  intros Hs Hu. destruct (@update_PLAYING time random s s' Hs Hu) as (s1 & Hsp & ->).
  rewrite checkWinLoss_status.
  destruct (checkWinLoss_frame (score s)
              (updateExplosions (updateMissiles (updateRockets s1))))
    as (_ & _ & _ & _ & _ & -> & _).
  destruct (updateExplosions_frame (updateMissiles (updateRockets s1)))
    as (-> & _).
  destruct (updateMissiles_frame (updateRockets s1)) as (_ & -> & _).
  destruct (updateRockets_frame s1) as (_ & -> & _).
  destruct (@spawnPhase_frame _ time random s s1 Hsp) as (_ & -> & _).
  rewrite Hs. reflexivity.
Qed.

(** C1, as amended.  In a frame in status PLAYING, when no turret is active at
    the end of the frame and the score that the win check reads (the score the
    frame started with) is at least [WIN_SCORE], the resulting status is WON,
    not LOST: the loss check is evaluated first, and the win check that
    follows it overwrites its result.  With no turret active and that score
    below [WIN_SCORE], the resulting status is LOST. *)
Theorem update_win_overrides_loss time random s s' :
  status s = PLAYING ->
  update time random s = Normal s' ->
  noActiveTurret s' ->
  ((WIN_SCORE <= score s)%Z -> status s' = WON) /\
  ((score s < WIN_SCORE)%Z -> status s' = LOST).
Proof.
  intros Hs Hu Hno. rewrite (@update_status time random s s' Hs Hu).
  unfold noActiveTurret in Hno. rewrite Hno. simpl.
  split; intros H.
  - apply Z.leb_le in H. rewrite H. reflexivity.
  - apply Z.leb_gt in H. rewrite H. reflexivity.
Qed.

(** C2, as amended.  A frame in status PLAYING ends in status WON exactly
    when the score it started with (the value captured by the callback, which
    does not include the points awarded during this frame) is at least
    [WIN_SCORE]; the check is made on every such frame. *)
Theorem update_WON_iff time random s s' :
  status s = PLAYING ->
  update time random s = Normal s' ->
  (status s' = WON <-> (WIN_SCORE <= score s)%Z).
Proof.
  intros Hs Hu. rewrite (@update_status time random s s' Hs Hu).
  destruct (WIN_SCORE <=? score s)%Z eqn:E.
  - apply Z.leb_le in E. tauto.
  - apply Z.leb_gt in E.
    destruct (length _ =? 0)%nat; split; intros H; try discriminate; lia.
Qed.

End Status.

(** The three last frames of a lost and won game.  The playthrough, from the
    mounted component, ends in [eve]; the frame of [eve] gives [lastStand];
    the frame of [lastStand] gives [lastStand_after]. *)
Lemma playthrough_eve :
  run (M := RefHost.host) playthrough mountState = eve.
Proof. vm_compute. reflexivity. Qed.

Lemma eve_frame :
  update (M := RefHost.host) 108446%float noRandom eve = Normal lastStand.
Proof. vm_compute. reflexivity. Qed.

Lemma lastStand_frame :
  update (M := RefHost.host) 108447%float noRandom lastStand = Normal lastStand_after.
Proof. vm_compute. reflexivity. Qed.

(** C1, the claim as stated, fails: in the frame of [lastStand] both
    end-of-step conditions hold (no turret is active, the score is [WIN_SCORE]
    before and after the frame) and the resulting status is WON, not LOST. *)
Lemma loss_precedence_counterexample :
  status lastStand = PLAYING /\
  exists s',
    update (M := RefHost.host) 108447%float noRandom lastStand = Normal s' /\
    noActiveTurret s' /\
    (WIN_SCORE <= score lastStand)%Z /\ (WIN_SCORE <= score s')%Z /\
    status s' = WON /\ status s' <> LOST.
Proof.
  split; [reflexivity|]. exists lastStand_after.
  split; [exact lastStand_frame|].
  repeat split; try reflexivity; try discriminate; vm_compute; discriminate.
Qed.

Lemma update_win_overrides_loss_witness :
  ((WIN_SCORE <= score lastStand)%Z -> status lastStand_after = WON) /\
  ((score lastStand < WIN_SCORE)%Z -> status lastStand_after = LOST).
Proof.
  apply (@update_win_overrides_loss RefHost.host 108447%float noRandom
           lastStand lastStand_after).
  - reflexivity.
  - vm_compute. reflexivity.
  - reflexivity.
Defined.

(** C2, the claim as stated, fails: in the frame of [eve], with the points
    awarded during the frame the score is [WIN_SCORE], and the frame does not
    end in status WON. *)
Lemma win_same_step_counterexample :
  status eve = PLAYING /\
  exists s',
    update (M := RefHost.host) 108446%float noRandom eve = Normal s' /\
    score s' = (score eve + POINTS_PER_ROCKET)%Z /\
    (WIN_SCORE <= score s')%Z /\
    status s' <> WON.
Proof.
  split; [reflexivity|]. exists lastStand.
  split; [exact eve_frame|].
  repeat split; try reflexivity; vm_compute; discriminate.
Qed.

Lemma update_WON_iff_witness :
  status lastStand = WON <-> (WIN_SCORE <= score eve)%Z.
Proof.
  apply (@update_WON_iff RefHost.host 108446%float noRandom eve lastStand).
  - reflexivity.
  - vm_compute. reflexivity.
Defined.

(** Scenario E of the specification: the score reaches [WIN_SCORE] in the
    frame in which the last turret is destroyed.  The frame ends in status
    LOST: the win check still reads the score the frame started with. *)
Example scenario_E :
  exists s',
    update (M := RefHost.host) 108446%float noRandom bothAtOnce = Normal s' /\
    score bothAtOnce = 980%Z /\ score s' = 1000%Z /\
    noActiveTurret s' /\ status s' = LOST.
Proof.
  eexists. split; [vm_compute; reflexivity|]. repeat split.
Qed.

(* ================================================================== *)
(** * Ammo *)

Lemma findBestTurret_index targetX ts : forall seen bestTurret minDist,
  (forall k t, bestTurret = Some (k, t) ->
     nth_error (seen ++ ts) k = Some t /\ eligible t = true) ->
  forall k t, findBestTurret targetX ts (length seen) bestTurret minDist = Some (k, t) ->
    nth_error (seen ++ ts) k = Some t /\ eligible t = true.
Proof.
  induction ts as [|e rest IH]; intros seen best minDist Hbest k t; simpl.
  - apply Hbest.
  - replace (seen ++ e :: rest) with ((seen ++ [e]) ++ rest) in *
      by (rewrite <- app_assoc; reflexivity).
    replace (S (length seen)) with (length (seen ++ [e]))
      by (rewrite length_app; simpl; lia).
    destruct (eligible e) eqn:He; [|apply IH; assumption].
    destruct (_ <? minDist)%float; apply IH; try assumption.
    intros k' t' [= <- <-]. split; [|assumption].
    rewrite nth_error_app1 by (rewrite length_app; simpl; lia).
    rewrite nth_error_app2, Nat.sub_diag by lia. reflexivity.
Qed.

Lemma Forall2_replace {A} (R : A -> A -> Prop) (l : list A) :
  (forall a, R a a) ->
  forall i a a', nth_error l i = Some a -> R a a' -> Forall2 R l (replace i a' l).
Proof.
  intros Hrefl. induction l as [|b l IH]; intros [|i] a a' Hi HR; simpl in *;
    try discriminate.
  - injection Hi as ->. constructor; [assumption|].
    clear - Hrefl. induction l; constructor; auto.
  - constructor; [apply Hrefl | eapply IH; eassumption].
Qed.

Lemma Forall2_refl {A} (R : A -> A -> Prop) (l : list A) :
  (forall a, R a a) -> Forall2 R l l.
Proof. intros H. induction l; constructor; auto. Qed.

Lemma Forall2_trans {A} (R : A -> A -> Prop) :
  (forall a b c, R a b -> R b c -> R a c) ->
  forall l1 l2 l3, Forall2 R l1 l2 -> Forall2 R l2 l3 -> Forall2 R l1 l3.
Proof.
  intros Htr l1 l2 l3 H12. revert l3.
  induction H12; intros l3 H23; inversion H23; subst; constructor; eauto.
Qed.

Lemma Forall2_same_ammo (l l' : list Turret.t) :
  map Turret.ammo l' = map Turret.ammo l ->
  map Turret.maxAmmo l' = map Turret.maxAmmo l ->
  Forall2 ammo_step l l'.
Proof.
  revert l'. induction l as [|t l IH]; intros [|t' l'] Ha Hm; simpl in *;
    try discriminate; constructor.
  - injection Ha as Ha _. injection Hm as Hm _. split; auto.
  - injection Ha as _ Ha. injection Hm as _ Hm. auto.
Qed.

Lemma ammo_step_refl t : ammo_step t t.
Proof. split; auto. Qed.

Lemma ammo_step_not_above t t' : ammo_step t t' -> ammo_not_above t t'.
Proof. intros [Hm [Ha|[_ Ha]]]; split; auto; lia. Qed.

Lemma ammo_not_above_trans a b c :
  ammo_not_above a b -> ammo_not_above b c -> ammo_not_above a c.
Proof. unfold ammo_not_above. intros [? ?] [? ?]. split; [congruence|lia]. Qed.

Lemma ammo_step_in_bounds t t' :
  ammo_in_bounds t -> ammo_step t t' -> ammo_in_bounds t'.
Proof.
  unfold ammo_in_bounds, ammo_step, eligible.
  intros Hb [Hm [Ha|[He Ha]]]; rewrite Hm, Ha; [assumption|].
  apply andb_prop in He. destruct He as [_ He]. apply Z.ltb_lt in He. lia.
Qed.

Lemma fireMissile_ammo targetX targetY s :
  Forall2 ammo_step (turrets s) (turrets (fireMissile targetX targetY s)).
Proof.
  unfold fireMissile. destruct (negb _); [apply Forall2_refl, ammo_step_refl|].
  destruct (findBestTurret targetX (turrets s) 0 None infinity) as [[i turret]|] eqn:E;
    [|apply Forall2_refl, ammo_step_refl].
  apply (@findBestTurret_index targetX (turrets s) [] None infinity) in E;
    [|discriminate].
  destruct E as [Hi He]. simpl in Hi |- *.
  eapply Forall2_replace; [apply ammo_step_refl | exact Hi |].
  split; [reflexivity|]. right. split; [assumption|reflexivity].
Qed.

Lemma impactTurret_fields rocket turret :
  let t' := impactTurret rocket turret in
  Turret.x t' = Turret.x turret /\ Turret.y t' = Turret.y turret /\
  Turret.ammo t' = Turret.ammo turret /\ Turret.maxAmmo t' = Turret.maxAmmo turret.
Proof. unfold impactTurret. destruct (_ && _ && _); simpl; repeat split. Qed.

Section Ammo.

Context {M : MathLib}.

Lemma rocketCallback_turret_field {B} (f : Turret.t -> B) rocket s :
  (forall r t, f (impactTurret r t) = f t) ->
  map f (turrets (snd (rocketCallback rocket s))) = map f (turrets s).
Proof.
  intros Hf. unfold rocketCallback. destruct (_ <? 5)%float; simpl; [|reflexivity].
  rewrite map_map. apply map_ext. intros t. apply Hf.
Qed.

Lemma updateRockets_turret_field {B} (f : Turret.t -> B) s :
  (forall r t, f (impactTurret r t) = f t) ->
  map f (turrets (updateRockets s)) = map f (turrets s).
Proof.
  intros Hf. unfold updateRockets.
  destruct (filter_with rocketCallback (rockets s) s) as [kept s1] eqn:E.
  assert (Hs1 : s1 = snd (filter_with rocketCallback (rockets s) s))
    by (rewrite E; reflexivity).
  simpl. subst s1.
  apply (filter_with_preserves (fun s => map f (turrets s)) rocketCallback).
  intros a s'. apply rocketCallback_turret_field, Hf.
Qed.

(** The turrets at the end of a frame are those left by the rocket phase. *)
Lemma update_turrets time random s s' :
  status s = PLAYING ->
  update time random s = Normal s' ->
  exists s1, spawnPhase time random s = Normal s1 /\
    turrets s1 = turrets s /\ cities s1 = cities s /\
    turrets s' = turrets (updateRockets s1) /\
    cities s' = cities (updateRockets s1).
Proof.
  intros Hs Hu. destruct (@update_PLAYING _ time random s s' Hs Hu) as (s1 & Hsp & ->).
  exists s1. split; [assumption|].
  destruct (@spawnPhase_frame _ time random s s1 Hsp) as (_ & _ & _ & _ & Hc & Ht).
  destruct (checkWinLoss_frame (score s)
              (updateExplosions (updateMissiles (updateRockets s1))))
    as (_ & _ & _ & _ & -> & -> & _).
  destruct (updateExplosions_frame (updateMissiles (updateRockets s1)))
    as (_ & _ & -> & -> & _).
  destruct (updateMissiles_frame (updateRockets s1)) as (_ & _ & _ & -> & -> & _).
  auto.
Qed.

Lemma update_turret_field {B} (f : Turret.t -> B) time random s s' :
  (forall r t, f (impactTurret r t) = f t) ->
  update time random s = Normal s' ->
  map f (turrets s') = map f (turrets s).
Proof.
  intros Hf Hu. destruct (GameStatus_eqb (status s) PLAYING) eqn:Hs.
  - assert (Hp : status s = PLAYING) by (destruct (status s); try discriminate; reflexivity).
    destruct (@update_turrets time random s s' Hp Hu) as (s1 & _ & Ht & _ & -> & _).
    rewrite updateRockets_turret_field by assumption. rewrite Ht. reflexivity.
  - unfold update in Hu. rewrite Hs in Hu. simpl in Hu. injection Hu as <-. reflexivity.
Qed.

Lemma handle_ammo e s :
  isStart e = false -> Forall2 ammo_step (turrets s) (turrets (handle e s)).
Proof.
  destruct e as [now| | | |tx ty|time random]; simpl; try discriminate; intros _.
  - destruct (status s); apply Forall2_refl, ammo_step_refl.
  - destruct (status s); apply Forall2_refl, ammo_step_refl.
  - destruct (status s); apply Forall2_refl, ammo_step_refl.
  - apply fireMissile_ammo.
  - destruct (update time random s) as [s'|] eqn:Hu;
      [|apply Forall2_refl, ammo_step_refl].
    apply Forall2_same_ammo; apply (update_turret_field _ time random s); try assumption;
      intros r t; apply impactTurret_fields.
Qed.

Lemma initGame_ammo now :
  Forall (fun t => Turret.ammo t = Turret.maxAmmo t /\ (0 < Turret.ammo t)%Z)
    (turrets (initGame now)).
Proof. simpl. repeat constructor. Qed.

Lemma handle_in_bounds e s :
  Forall ammo_in_bounds (turrets s) -> Forall ammo_in_bounds (turrets (handle e s)).
Proof.
  intros Hb. destruct (isStart e) eqn:He.
  - destruct e as [now| | | | | ]; try discriminate. simpl.
    assert (Hinit : Forall ammo_in_bounds (turrets (initGame now))).
    { eapply Forall_impl; [|apply initGame_ammo].
      unfold ammo_in_bounds. intros t [? ?]. lia. }
    destruct (status s); assumption.
  - pose proof (handle_ammo e s He) as H2. revert Hb.
    induction H2; intros Hb; inversion Hb; subst; constructor; auto.
    eapply ammo_step_in_bounds; eassumption.
Qed.

Lemma run_snoc es e s : run (es ++ [e]) s = handle e (run es s).
Proof. unfold run. rewrite fold_left_app. reflexivity. Qed.

(** C4.  A game starts with every turret at full ammo.  At every point of a
    run ammo is within [[0, maxAmmo]] for every turret.  An event other than
    a start or restart leaves the ammo of a turret as it is or, for a turret
    that is active with ammo left, lowers it by one: ammo never becomes
    negative, a turret that is empty or inactive is never decremented, and
    between an initialization and the end of the run ammo is never raised. *)
Theorem ammo_within_bounds :
  (forall now, Forall (fun t => Turret.ammo t = Turret.maxAmmo t /\ (0 < Turret.ammo t)%Z)
                 (turrets (initGame now))) /\
  (forall es, Forall ammo_in_bounds (turrets (run es mountState))) /\
  (forall e s, isStart e = false ->
     Forall2 ammo_step (turrets s) (turrets (handle e s))) /\
  (forall es s, noStart es ->
     Forall2 ammo_not_above (turrets s) (turrets (run es s))).
Proof.
  split; [exact initGame_ammo|]. split; [|split; [exact handle_ammo|]].
  - intros es. induction es as [|e es IH] using rev_ind.
    + constructor.
    + rewrite run_snoc. apply handle_in_bounds, IH.
  - intros es. induction es as [|e es IH] using rev_ind; intros s Hno.
    + apply Forall2_refl. split; [reflexivity|lia].
    + rewrite run_snoc.
      eapply Forall2_trans; [exact ammo_not_above_trans | apply IH |].
      * intros e' He'. apply Hno, in_or_app. left. exact He'.
      * eapply Forall2_impl; [exact ammo_step_not_above|].
        apply handle_ammo, Hno, in_or_app. right. left. reflexivity.
Qed.

End Ammo.

(* ================================================================== *)
(** * Explosions against rockets, and the score *)

Lemma filter_with_collision exp rs : forall s,
  filter_with (collisionCallback exp) rs s
  = (filter (fun rocket => negb (caught exp rocket)) rs,
     setScore (fun prev => prev
                 + POINTS_PER_ROCKET * Z.of_nat (length (filter (caught exp) rs)))%Z s).
Proof.
  induction rs as [|r rs IH]; intros s.
  - simpl. unfold setScore. destruct s; simpl. rewrite Z.add_0_r. reflexivity.
  - cbn [filter_with filter]. unfold collisionCallback at 1.
    destruct (caught exp r) eqn:E; cbn [negb]; rewrite IH; [|reflexivity].
    f_equal. unfold setScore. cbn [score status rockets missiles explosions cities
                                   turrets lastSpawnTime length].
    f_equal. rewrite Nat2Z.inj_succ. unfold POINTS_PER_ROCKET. lia.
Qed.

Lemma explosionCallback_eq exp s :
  explosionCallback exp s
  = (let exp' := growExplosion exp in
     (if (Explosion.life exp' <? Explosion.maxLife exp')%float then Some exp' else None,
      mkState
        (score s + POINTS_PER_ROCKET
                   * Z.of_nat (length (filter (caught exp') (rockets s))))
        (status s)
        (filter (fun rocket => negb (caught exp' rocket)) (rockets s))
        (missiles s) (explosions s) (cities s) (turrets s) (lastSpawnTime s))).
Proof.
  unfold explosionCallback. rewrite filter_with_collision. reflexivity.
Qed.

Lemma filter_with_explosions_blast exps : forall s,
  let s' := snd (filter_with explosionCallback exps s) in
  (rockets s', score s') = blast exps (rockets s) (score s).
Proof.
  induction exps as [|exp rest IH]; intros s.
  - reflexivity.
  - cbv zeta. rewrite filter_with_snd, explosionCallback_eq. cbv zeta in IH.
    rewrite IH. reflexivity.
Qed.

Lemma updateExplosions_blast s :
  (rockets (updateExplosions s), score (updateExplosions s))
  = blast (explosions s) (rockets s) (score s).
Proof.
  unfold updateExplosions.
  destruct (filter_with explosionCallback (explosions s) s) as [kept s1] eqn:E.
  assert (Hs1 : s1 = snd (filter_with explosionCallback (explosions s) s))
    by (rewrite E; reflexivity).
  simpl. subst s1. apply filter_with_explosions_blast.
Qed.

Lemma filter_split_length {A} (p : A -> bool) (l : list A) :
  (length (filter (fun a => negb (p a)) l) + length (filter p l) = length l)%nat.
Proof.
  induction l as [|a l IH]; simpl; [reflexivity|].
  destruct (p a); simpl; lia.
Qed.

(** Every point stands for one rocket that is gone, and no rocket appears. *)
Lemma blast_account exps : forall rs sc,
  let (rs', sc') := blast exps rs sc in
  (sc' = sc + POINTS_PER_ROCKET * (Z.of_nat (length rs) - Z.of_nat (length rs')))%Z /\
  (length rs' <= length rs)%nat /\
  incl rs' rs.
Proof.
  induction exps as [|exp rest IH]; intros rs sc; cbn [blast].
  - split; [lia|]. split; [lia|apply incl_refl].
  - specialize (IH (filter (fun rocket => negb (caught (growExplosion exp) rocket)) rs)
                   (sc + POINTS_PER_ROCKET
                         * Z.of_nat (length (filter (caught (growExplosion exp)) rs)))%Z).
    destruct (blast rest _ _) as [rs' sc'].
    destruct IH as (Hsc & Hlen & Hincl).
    pose proof (filter_split_length (caught (growExplosion exp)) rs) as Hsplit.
    split; [|split].
    + rewrite Hsc. unfold POINTS_PER_ROCKET. lia.
    + lia.
    + intros r Hr. apply Hincl in Hr. apply filter_In in Hr. tauto.
Qed.

Lemma updateExplosions_score s :
  let s' := updateExplosions s in
  (score s' = score s + POINTS_PER_ROCKET
                        * (Z.of_nat (length (rockets s)) - Z.of_nat (length (rockets s'))))%Z /\
  (length (rockets s') <= length (rockets s))%nat /\
  incl (rockets s') (rockets s).
Proof.
  cbv zeta. pose proof (blast_account (explosions s) (rockets s) (score s)) as H.
  rewrite <- updateExplosions_blast in H. exact H.
Qed.

Lemma fireMissile_score targetX targetY s :
  score (fireMissile targetX targetY s) = score s.
Proof.
  unfold fireMissile. destruct (negb _); [reflexivity|].
  destruct (findBestTurret _ _ _ _ _) as [[i t]|]; reflexivity.
Qed.

Section Score.

Context {M : MathLib}.

Lemma update_score time random s s' :
  update time random s = Normal s' -> (score s <= score s')%Z.
Proof.
  intros Hu. destruct (GameStatus_eqb (status s) PLAYING) eqn:Hs.
  - assert (Hp : status s = PLAYING) by (destruct (status s); try discriminate; reflexivity).
    destruct (@update_PLAYING _ time random s s' Hp Hu) as (s1 & Hsp & ->).
    destruct (checkWinLoss_frame (score s)
                (updateExplosions (updateMissiles (updateRockets s1)))) as (-> & _).
    destruct (updateExplosions_score (updateMissiles (updateRockets s1)))
      as (-> & Hlen & _).
    destruct (updateMissiles_frame (updateRockets s1)) as (-> & _).
    destruct (updateRockets_frame s1) as (-> & _).
    destruct (@spawnPhase_frame _ time random s s1 Hsp) as (-> & _).
    unfold POINTS_PER_ROCKET. lia.
  - unfold update in Hu. rewrite Hs in Hu. simpl in Hu. injection Hu as <-. lia.
Qed.

Lemma handle_score e s : isStart e = false -> (score s <= score (handle e s))%Z.
Proof.
  destruct e as [now| | | |tx ty|time random]; simpl; try discriminate; intros _.
  - destruct (status s); simpl; lia.
  - destruct (status s); simpl; lia.
  - destruct (status s); simpl; lia.
  - rewrite fireMissile_score. lia.
  - destruct (update time random s) as [s'|] eqn:Hu; [|lia].
    eapply update_score; eassumption.
Qed.

(** C7.  In the explosion phase the explosions are taken in turn; each one,
    at the radius it has just grown to, removes every rocket still present
    whose Euclidean distance to its centre is strictly below that radius, and
    the score grows by exactly [POINTS_PER_ROCKET] for each rocket removed.
    A rocket removed by one explosion is not seen by the later ones: over the
    whole phase the score grows by [POINTS_PER_ROCKET] times the number of
    rockets that are gone, and the rockets left are among those present
    before.  Hence the score never decreases: not in a frame, not on any
    other event of a run but a start or restart, which resets it. *)
Theorem explosions_score_rockets :
  (forall exp s,
     let exp' := growExplosion exp in
     let s' := snd (explosionCallback exp s) in
     rockets s' = filter (fun rocket => negb (caught exp' rocket)) (rockets s) /\
     score s' = (score s + POINTS_PER_ROCKET
                           * Z.of_nat (length (filter (caught exp') (rockets s))))%Z) /\
  (forall exp rocket,
     caught exp rocket =
       (sqrt ((Rocket.x rocket - Explosion.x exp) * (Rocket.x rocket - Explosion.x exp)
              + (Rocket.y rocket - Explosion.y exp) * (Rocket.y rocket - Explosion.y exp))
        <? Explosion.radius exp)%float) /\
  (forall s,
     (rockets (updateExplosions s), score (updateExplosions s))
     = blast (explosions s) (rockets s) (score s)) /\
  (forall s,
     let s' := updateExplosions s in
     score s' = (score s + POINTS_PER_ROCKET
                           * (Z.of_nat (length (rockets s))
                              - Z.of_nat (length (rockets s'))))%Z /\
     (length (rockets s') <= length (rockets s))%nat /\
     incl (rockets s') (rockets s)) /\
  (forall time random s s',
     update time random s = Normal s' -> (score s <= score s')%Z) /\
  (forall es s, noStart es -> (score s <= score (run es s))%Z).
Proof.
  split; [|split; [|split; [|split; [|split]]]].
  - intros exp s. cbv zeta. rewrite explosionCallback_eq. simpl. split; reflexivity.
  - reflexivity.
  - exact updateExplosions_blast.
  - exact updateExplosions_score.
  - exact update_score.
  - intros es. induction es as [|e es IH] using rev_ind; intros s Hno.
    + simpl. lia.
    + rewrite run_snoc. etransitivity.
      * apply IH. intros e' He'. apply Hno, in_or_app. left. exact He'.
      * apply handle_score, Hno, in_or_app. right. left. reflexivity.
Qed.

End Score.

(* ================================================================== *)
(** * Rocket impact *)

Lemma impactCity_spec rocket city :
  let city' := impactCity rocket city in
  City.x city' = City.x city /\ City.y city' = City.y city /\
  City.active city' =
    City.active city
    && negb ((JS.Math_abs (City.x city - Rocket.x rocket) <? 10)%float
             && (JS.Math_abs (City.y city - Rocket.y rocket) <? 10)%float).
Proof.
  unfold impactCity.
  destruct (City.active city) eqn:Ha, (_ <? 10)%float, (_ <? 10)%float; simpl;
    rewrite ?Ha; repeat split.
Qed.

Lemma impactTurret_spec rocket turret :
  let turret' := impactTurret rocket turret in
  Turret.x turret' = Turret.x turret /\ Turret.y turret' = Turret.y turret /\
  Turret.ammo turret' = Turret.ammo turret /\
  Turret.maxAmmo turret' = Turret.maxAmmo turret /\
  Turret.active turret' =
    Turret.active turret
    && negb ((JS.Math_abs (Turret.x turret - Rocket.x rocket) <? 15)%float
             && (JS.Math_abs (Turret.y turret - Rocket.y rocket) <? 15)%float).
Proof.
  unfold impactTurret.
  destruct (Turret.active turret) eqn:Ha, (_ <? 15)%float, (_ <? 15)%float; simpl;
    rewrite ?Ha; repeat split.
Qed.

Section Rockets.

Context {M : MathLib}.

(** The rocket phase as a whole: the rockets are moved in order; those that
    reached their target leave an explosion each and strike the cities and
    turrets, in that order; those that did not and are above the bottom edge
    are kept. *)
Lemma filter_with_rockets rs : forall s,
  let moved := map moveRocket rs in
  let hits := filter reachedTarget moved in
  filter_with rocketCallback rs s
  = (filter (fun r => negb (reachedTarget r) && (Rocket.y r <? GAME_HEIGHT)%float) moved,
     mkState (score s) (status s) (rockets s) (missiles s)
       (explosions s ++ map impactExplosion hits)
       (fold_left (fun cs r => map (impactCity r) cs) hits (cities s))
       (fold_left (fun ts r => map (impactTurret r) ts) hits (turrets s))
       (lastSpawnTime s)).
Proof.
  induction rs as [|r rs IH]; intros s; cbv zeta in *.
  - simpl. rewrite app_nil_r. destruct s; reflexivity.
  - cbn [filter_with map filter]. unfold rocketCallback at 1.
    fold (reachedTarget (moveRocket r)).
    change (euclid (Rocket.x (moveRocket r) - Rocket.targetX (moveRocket r))
                   (Rocket.y (moveRocket r) - Rocket.targetY (moveRocket r)) <? 5)%float
      with (reachedTarget (moveRocket r)).
    destruct (reachedTarget (moveRocket r)) eqn:Hhit; cbn [negb andb].
    + rewrite IH. cbn [score status rockets missiles explosions cities turrets
                        lastSpawnTime set_explosions set_turrets set_cities
                        map fold_left].
      rewrite <- app_assoc. reflexivity.
    + rewrite IH. destruct (Rocket.y (moveRocket r) <? GAME_HEIGHT)%float; reflexivity.
Qed.

Lemma updateRockets_eq s :
  let moved := map moveRocket (rockets s) in
  let hits := filter reachedTarget moved in
  updateRockets s
  = mkState (score s) (status s)
      (filter (fun r => negb (reachedTarget r) && (Rocket.y r <? GAME_HEIGHT)%float) moved)
      (missiles s)
      (explosions s ++ map impactExplosion hits)
      (fold_left (fun cs r => map (impactCity r) cs) hits (cities s))
      (fold_left (fun ts r => map (impactTurret r) ts) hits (turrets s))
      (lastSpawnTime s).
Proof.
  cbv zeta. unfold updateRockets. rewrite filter_with_rockets. reflexivity.
Qed.

(** C6.  The rocket callback first integrates the position.  If the rocket
    is then strictly closer than 5 units (Euclidean) to its target, it is
    removed, an explosion with radius 0, maxRadius 20, life 0 and maxLife 30
    is appended at the rocket's position, every active city with both
    [|city.x - rocket.x| < 10] and [|city.y - rocket.y| < 10] is deactivated,
    every active turret with both differences below 15 is deactivated, and
    nothing else changes (the other cities and turrets, positions, ammo, the
    score, the missiles).  A rocket that is not that close and has
    [y >= GAME_HEIGHT] is removed and the state is left exactly as it was;
    one with [y < GAME_HEIGHT] is kept at its new position. *)
Theorem rocket_impact rocket s :
  let moved := moveRocket rocket in
  let distToTarget :=
    (sqrt ((Rocket.x moved - Rocket.targetX moved) * (Rocket.x moved - Rocket.targetX moved)
           + (Rocket.y moved - Rocket.targetY moved) * (Rocket.y moved - Rocket.targetY moved)))%float in
  let s' := snd (rocketCallback rocket s) in
  (Rocket.x moved = (Rocket.x rocket + Math_cos (Rocket.angle rocket) * Rocket.speed rocket)%float /\
   Rocket.y moved = (Rocket.y rocket + Math_sin (Rocket.angle rocket) * Rocket.speed rocket)%float /\
   Rocket.targetX moved = Rocket.targetX rocket /\
   Rocket.targetY moved = Rocket.targetY rocket) /\
  ((distToTarget <? 5)%float = true ->
     fst (rocketCallback rocket s) = None /\
     explosions s' =
       explosions s ++ [Explosion.mk (Rocket.x moved) (Rocket.y moved) 0%float
                          20%float 0%float 30%float] /\
     cities s' = map (impactCity moved) (cities s) /\
     turrets s' = map (impactTurret moved) (turrets s) /\
     (forall city, In city (cities s) ->
        let city' := impactCity moved city in
        City.x city' = City.x city /\ City.y city' = City.y city /\
        City.active city' =
          City.active city
          && negb ((JS.Math_abs (City.x city - Rocket.x moved) <? 10)%float
                   && (JS.Math_abs (City.y city - Rocket.y moved) <? 10)%float)) /\
     (forall turret, In turret (turrets s) ->
        let turret' := impactTurret moved turret in
        Turret.x turret' = Turret.x turret /\ Turret.y turret' = Turret.y turret /\
        Turret.ammo turret' = Turret.ammo turret /\
        Turret.maxAmmo turret' = Turret.maxAmmo turret /\
        Turret.active turret' =
          Turret.active turret
          && negb ((JS.Math_abs (Turret.x turret - Rocket.x moved) <? 15)%float
                   && (JS.Math_abs (Turret.y turret - Rocket.y moved) <? 15)%float)) /\
     score s' = score s /\ status s' = status s /\ missiles s' = missiles s /\
     lastSpawnTime s' = lastSpawnTime s) /\
  ((distToTarget <? 5)%float = false ->
     (GAME_HEIGHT <=? Rocket.y moved)%float = true ->
     rocketCallback rocket s = (None, s)) /\
  ((distToTarget <? 5)%float = false ->
     (Rocket.y moved <? GAME_HEIGHT)%float = true ->
     rocketCallback rocket s = (Some moved, s)) /\
  (let moved := map moveRocket (rockets s) in
   let hits := filter reachedTarget moved in
   updateRockets s
   = mkState (score s) (status s)
       (filter (fun r => negb (reachedTarget r) && (Rocket.y r <? GAME_HEIGHT)%float) moved)
       (missiles s)
       (explosions s ++ map impactExplosion hits)
       (fold_left (fun cs r => map (impactCity r) cs) hits (cities s))
       (fold_left (fun ts r => map (impactTurret r) ts) hits (turrets s))
       (lastSpawnTime s)).
Proof.
  cbv zeta. split; [repeat split|]. unfold rocketCallback, euclid, JS.Math_sqrt, JS.Math_pow2.
  split; [|split; [|split]]; [| | |apply updateRockets_eq].
  - intros ->. simpl.
    do 4 (split; [reflexivity|]).
    split; [intros city _; apply impactCity_spec|].
    split; [intros turret _; apply impactTurret_spec|].
    repeat split.
  - intros -> Hy. apply FloatOrder.leb_not_ltb in Hy. rewrite Hy. reflexivity.
  - intros -> ->. reflexivity.
Qed.

End Rockets.

(* ================================================================== *)
(** * Explosions touch nothing but rockets and the score *)

Section Frame.

Context {M : MathLib}.

(** C10.  An explosion, whatever its kind, radius or age, changes no city,
    no turret (neither its active flag nor its ammo) and no missile: not in
    its own callback, not over the whole explosion phase.  Nor does the
    missile phase change a city or a turret.  The cities and turrets at the
    end of a frame are those left by the rocket phase, where only the impact
    branch changes them: a rocket that does not come within 5 units of its
    target leaves them as they are. *)
Theorem explosions_leave_ground_alone :
  (forall exp s,
     let s' := snd (explosionCallback exp s) in
     cities s' = cities s /\ turrets s' = turrets s /\ missiles s' = missiles s) /\
  (forall s,
     let s' := updateExplosions s in
     cities s' = cities s /\ turrets s' = turrets s /\ missiles s' = missiles s) /\
  (forall s,
     let s' := updateMissiles s in
     cities s' = cities s /\ turrets s' = turrets s) /\
  (forall rocket s,
     let moved := moveRocket rocket in
     (euclid (Rocket.x moved - Rocket.targetX moved)
             (Rocket.y moved - Rocket.targetY moved) <? 5)%float = false ->
     let s' := snd (rocketCallback rocket s) in
     cities s' = cities s /\ turrets s' = turrets s) /\
  (forall time random s s',
     status s = PLAYING ->
     update time random s = Normal s' ->
     exists s1, spawnPhase time random s = Normal s1 /\
       turrets s1 = turrets s /\ cities s1 = cities s /\
       turrets s' = turrets (updateRockets s1) /\
       cities s' = cities (updateRockets s1)).
Proof.
  split; [|split; [|split; [|split]]].
  - intros exp s. pose proof (explosionCallback_frame exp s) as H. cbv zeta in *. tauto.
  - intros s. pose proof (updateExplosions_frame s) as H. cbv zeta in *. tauto.
  - intros s. pose proof (updateMissiles_frame s) as H. cbv zeta in *. tauto.
  - intros rocket s. cbv zeta. intros H. unfold rocketCallback. rewrite H.
    split; reflexivity.
  - exact update_turrets.
Qed.

End Frame.

Lemma explosions_leave_ground_alone_witness :
  exists s1, spawnPhase (M := RefHost.host) 108446%float noRandom eve = Normal s1 /\
    turrets s1 = turrets eve /\ cities s1 = cities eve /\
    turrets lastStand = turrets (updateRockets (M := RefHost.host) s1) /\
    cities lastStand = cities (updateRockets (M := RefHost.host) s1).
Proof.
  apply (proj2 (proj2 (proj2 (proj2 (@explosions_leave_ground_alone RefHost.host))))
           108446%float noRandom eve lastStand).
  - reflexivity.
  - vm_compute. reflexivity.
Defined.

(* ================================================================== *)
(** * The missile fired at its own turret *)

(** C5.  Fired at the position of the middle turret, a missile is created by
    that turret with target equal to start and distance 0.  In the next frame
    the missile callback divides [MISSILE_SPEED] by that distance with no
    test in between: the progress increment is [Infinity], the new position
    is NaN, and the missile detonates at once at its target. *)
Theorem zero_distance_missile :
  let fired := fireMissile 400%float 570%float (initGame 0%float) in
  (exists missile,
     missiles fired = [missile] /\
     Missile.startX missile = 400%float /\ Missile.startY missile = 570%float /\
     Missile.targetX missile = Missile.startX missile /\
     Missile.targetY missile = Missile.startY missile /\
     nth_error (turrets (initGame 0%float)) 1
       = Some (Turret.mk (Missile.startX missile) (Missile.startY missile) true 40 40) /\
     nth_error (turrets fired) 1
       = Some (Turret.mk (Missile.startX missile) (Missile.startY missile) true 39 40) /\
     Missile.progress missile = 0%float /\
     Missile.distance missile = 0%float /\
     (MISSILE_SPEED / Missile.distance missile)%float = infinity /\
     is_finite (MISSILE_SPEED / Missile.distance missile)%float = false /\
     Missile.progress (moveMissile missile) = infinity /\
     Missile.x (moveMissile missile) = nan /\
     Missile.y (moveMissile missile) = nan /\
     missileCallback missile fired
     = (None, set_explosions [detonationExplosion missile] fired)) /\
  (forall missile,
     Missile.progress (moveMissile missile)
     = (Missile.progress missile + MISSILE_SPEED / Missile.distance missile)%float) /\
  (forall missile,
     Missile.distance missile = 0%float ->
     Missile.progress (moveMissile missile)
     = (Missile.progress missile + infinity)%float).
Proof.
  cbv zeta. split; [|split].
  - eexists. split; [vm_compute; reflexivity|].
    repeat split; vm_compute; reflexivity.
  - reflexivity.
  - intros missile H. unfold moveMissile. simpl. rewrite H. reflexivity.
Qed.

Lemma zero_distance_missile_witness :
  let missile := (Missile.mk 400 570 400 570 400 570 0 0)%float in
  Missile.progress (moveMissile missile) = (Missile.progress missile + infinity)%float.
Proof.
  apply (proj2 (proj2 zero_distance_missile)). reflexivity.
Defined.

(** The frame after that shot, on the reference host. *)
Example zero_distance_frame :
  update (M := RefHost.host) 16%float noRandom
    (fireMissile 400%float 570%float (initGame 0%float))
  = Normal (mkState 0 PLAYING [] []
              [Explosion.mk 400 570 (1 / 30 * 46) 46 1 60]%float
              (cities (initGame 0%float))
              [Turret.mk 40 570 true 20 20;
               Turret.mk 400 570 true 39 40;
               Turret.mk 760 570 true 20 20]%float
              0%float).
Proof. vm_compute. reflexivity. Qed.

(* ================================================================== *)
(** * The phases of a frame in closed form *)

(** The missile callback over the whole list. *)
Lemma filter_with_missiles ms : forall s,
  let moved := map moveMissile ms in
  filter_with missileCallback ms s
  = (filter (fun missile => negb (arrived missile)) moved,
     mkState (score s) (status s) (rockets s) (missiles s)
       (explosions s ++ map detonationExplosion (filter arrived moved))
       (cities s) (turrets s) (lastSpawnTime s)).
Proof.
  induction ms as [|m ms IH]; intros s; cbv zeta.
  - simpl. rewrite app_nil_r. destruct s; reflexivity.
  - cbn [filter_with map filter]. unfold missileCallback at 1.
    fold (arrived (moveMissile m)).
    destruct (arrived (moveMissile m)) eqn:Ha; rewrite IH; cbv zeta; simpl.
    + rewrite <- app_assoc. reflexivity.
    + reflexivity.
Qed.

Lemma updateMissiles_eq s :
  let moved := map moveMissile (missiles s) in
  updateMissiles s
  = mkState (score s) (status s) (rockets s)
      (filter (fun missile => negb (arrived missile)) moved)
      (explosions s ++ map detonationExplosion (filter arrived moved))
      (cities s) (turrets s) (lastSpawnTime s).
Proof.
  cbv zeta. unfold updateMissiles. rewrite filter_with_missiles. reflexivity.
Qed.

(** The explosions kept by the explosion callback over the whole list. *)
Lemma filter_with_explosions_fst exps : forall s,
  fst (filter_with explosionCallback exps s)
  = filter (fun exp => (Explosion.life exp <? Explosion.maxLife exp)%float)
      (map growExplosion exps).
Proof.
  induction exps as [|exp rest IH]; intros s; [reflexivity|].
  rewrite filter_with_fst, explosionCallback_eq. cbv zeta. cbn [fst snd map filter].
  destruct (Explosion.life (growExplosion exp) <? Explosion.maxLife (growExplosion exp))%float;
    rewrite IH; reflexivity.
Qed.

Lemma updateExplosions_explosions s :
  explosions (updateExplosions s)
  = filter (fun exp => (Explosion.life exp <? Explosion.maxLife exp)%float)
      (map growExplosion (explosions s)).
Proof.
  unfold updateExplosions.
  pose proof (filter_with_explosions_fst (explosions s) s) as H.
  destruct (filter_with explosionCallback (explosions s) s) as [kept s1].
  exact H.
Qed.

Section Phases.

Context {M : MathLib}.

(** The parts of a frame run in PLAYING, field by field. *)
Lemma frame_anatomy time random s s' :
  status s = PLAYING ->
  update time random s = Normal s' ->
  exists s1,
    spawnPhase time random s = Normal s1 /\
    let s2 := updateRockets s1 in
    let s3 := updateMissiles s2 in
    let s4 := updateExplosions s3 in
    s' = checkWinLoss (score s) s4 /\
    (score s1 = score s /\ missiles s1 = missiles s /\ explosions s1 = explosions s /\
     cities s1 = cities s /\ turrets s1 = turrets s) /\
    (score s2 = score s /\ missiles s2 = missiles s) /\
    (score s3 = score s /\ rockets s3 = rockets s2 /\ cities s3 = cities s2 /\
     turrets s3 = turrets s2) /\
    (missiles s4 = missiles s3 /\ cities s4 = cities s2 /\ turrets s4 = turrets s2) /\
    (score s' = score s4 /\ rockets s' = rockets s4 /\ missiles s' = missiles s3 /\
     explosions s' = explosions s4 /\ cities s' = cities s2 /\ turrets s' = turrets s2 /\
     lastSpawnTime s' = lastSpawnTime s1).
Proof.
  intros Hp Hu. destruct (@update_PLAYING _ time random s s' Hp Hu) as (s1 & Hsp & ->).
  exists s1. split; [exact Hsp|]. cbv zeta. split; [reflexivity|].
  destruct (@spawnPhase_frame _ time random s s1 Hsp) as (A1 & A2 & A3 & A4 & A5 & A6).
  destruct (updateRockets_frame s1) as (B1 & B2 & B3 & B4).
  destruct (updateMissiles_frame (updateRockets s1)) as (C1 & C2 & C3 & C4 & C5 & C6).
  destruct (updateExplosions_frame (updateMissiles (updateRockets s1)))
    as (D1 & D2 & D3 & D4 & D5).
  destruct (checkWinLoss_frame (score s)
              (updateExplosions (updateMissiles (updateRockets s1))))
    as (E1 & E2 & E3 & E4 & E5 & E6 & E7).
  repeat split; congruence.
Qed.

(** The explosions after a frame run in PLAYING: those before it, the
    impacts of the rocket phase and the detonations of the missile phase,
    each grown by one frame, less those whose life has reached [maxLife]. *)
Lemma frame_explosions time random s s' :
  status s = PLAYING ->
  update time random s = Normal s' ->
  exists s1,
    spawnPhase time random s = Normal s1 /\
    explosions s'
    = filter (fun exp => (Explosion.life exp <? Explosion.maxLife exp)%float)
        (map growExplosion
           (explosions s
            ++ map impactExplosion (filter reachedTarget (map moveRocket (rockets s1)))
            ++ map detonationExplosion (filter arrived (map moveMissile (missiles s))))).
Proof.
  intros Hp Hu.
  destruct (@frame_anatomy time random s s' Hp Hu)
    as (s1 & Hsp & _ & (_ & _ & He1 & _) & (_ & Hm2) & _ & _ & (_ & _ & _ & He' & _)).
  exists s1. split; [exact Hsp|].
  rewrite He', updateExplosions_explosions, updateMissiles_eq. cbn [explosions].
  rewrite Hm2, updateRockets_eq. cbn [explosions]. rewrite He1, <- app_assoc. reflexivity.
Qed.

End Phases.

(* ================================================================== *)
(** * The life of an explosion *)

Lemma growExplosion_spec exp :
  let exp' := growExplosion exp in
  Explosion.life exp' = (Explosion.life exp + 1)%float /\
  Explosion.radius exp'
  = envelope (Explosion.maxRadius exp) (Explosion.maxLife exp) (Explosion.life exp') /\
  Explosion.x exp' = Explosion.x exp /\ Explosion.y exp' = Explosion.y exp /\
  Explosion.maxRadius exp' = Explosion.maxRadius exp /\
  Explosion.maxLife exp' = Explosion.maxLife exp.
Proof. repeat split. Qed.

Lemma aged_life_radius n exp :
  let exp' := aged n exp in
  (Explosion.life exp', Explosion.radius exp')
  = life_radius n (Explosion.maxRadius exp) (Explosion.maxLife exp)
      (Explosion.life exp) (Explosion.radius exp) /\
  Explosion.x exp' = Explosion.x exp /\ Explosion.y exp' = Explosion.y exp /\
  Explosion.maxRadius exp' = Explosion.maxRadius exp /\
  Explosion.maxLife exp' = Explosion.maxLife exp.
Proof.
  induction n as [|n IH]; cbv zeta in *.
  - repeat split.
  - cbn [aged life_radius].
    destruct IH as (Hlr & Hx & Hy & Hmr & Hml).
    destruct (growExplosion_spec (aged n exp))
      as (Hl' & Hr' & Hx' & Hy' & Hmr' & Hml').
    rewrite Hr', Hl', Hx', Hy', Hmr', Hml', Hx, Hy, Hmr, Hml.
    rewrite <- Hlr. repeat split.
Qed.

Lemma lifecycle_detonation : lifecycle_ok EXPLOSION_RADIUS_MAX EXPLOSION_DURATION 60 = true.
Proof. vm_compute. reflexivity. Qed.

Lemma lifecycle_impact : lifecycle_ok 20%float 30%float 30 = true.
Proof. vm_compute. reflexivity. Qed.

Lemma lifecycle_ok_spec maxRadius maxLife frames n exp :
  lifecycle_ok maxRadius maxLife frames = true ->
  (n <= frames)%nat ->
  Explosion.maxRadius exp = maxRadius -> Explosion.maxLife exp = maxLife ->
  Explosion.life exp = 0%float -> Explosion.radius exp = 0%float ->
  let exp' := aged n exp in
  Explosion.life exp' = JS.ofZ (Z.of_nat n) /\
  Explosion.radius exp' = envelope maxRadius maxLife (JS.ofZ (Z.of_nat n)) /\
  ((Explosion.life exp' <? Explosion.maxLife exp')%float = true <-> (n < frames)%nat).
Proof.
  intros Hok Hn Hmr Hml Hl Hr. cbv zeta.
  destruct (aged_life_radius n exp) as (Hlr & _ & _ & _ & Hml').
  rewrite Hmr, Hml, Hl, Hr in Hlr. rewrite Hml', Hml.
  unfold lifecycle_ok in Hok. rewrite forallb_forall in Hok.
  specialize (Hok n). rewrite in_seq in Hok. specialize (Hok ltac:(lia)).
  destruct (life_radius n maxRadius maxLife 0%float 0%float) as [life radius].
  injection Hlr as -> ->.
  apply andb_prop in Hok. destruct Hok as [Hok H3].
  apply andb_prop in Hok. destruct Hok as [H1 H2].
  apply FloatAxioms.Leibniz.eqb_spec in H1, H2. apply Bool.eqb_prop in H3.
  split; [exact H1 | split; [exact H2 | rewrite H3; apply Nat.ltb_lt]].
Qed.

Lemma created_lifecycle origin frames n :
  created origin frames -> (n <= frames)%nat ->
  let exp := aged n origin in
  Explosion.life exp = JS.ofZ (Z.of_nat n) /\
  Explosion.radius exp
  = envelope (Explosion.maxRadius exp) (Explosion.maxLife exp) (JS.ofZ (Z.of_nat n)) /\
  Explosion.maxRadius exp = Explosion.maxRadius origin /\
  Explosion.maxLife exp = Explosion.maxLife origin /\
  ((Explosion.life exp <? Explosion.maxLife exp)%float = true <-> (n < frames)%nat).
Proof.
  intros (Hl & Hr & Hkind) Hn. cbv zeta.
  destruct (aged_life_radius n origin) as (_ & _ & _ & Hmr & Hml).
  rewrite Hmr, Hml.
  destruct Hkind as [(Hmr0 & Hml0 & ->)|(Hmr0 & Hml0 & ->)].
  - destruct (@lifecycle_ok_spec 46%float 60%float 60 n origin
                lifecycle_detonation Hn Hmr0 Hml0 Hl Hr) as (H1 & H2 & H3).
    rewrite Hmr0, Hml0. rewrite Hml, Hml0 in H3. tauto.
  - destruct (@lifecycle_ok_spec 20%float 30%float 30 n origin
                lifecycle_impact Hn Hmr0 Hml0 Hl Hr) as (H1 & H2 & H3).
    rewrite Hmr0, Hml0. rewrite Hml, Hml0 in H3. tauto.
Qed.

Lemma created_tracked exp frames : created exp frames -> tracked exp.
Proof.
  intros H. exists exp, frames, 0%nat. split; [exact H|]. split; [|reflexivity].
  destruct H as (_ & _ & [(_ & _ & ->)|(_ & _ & ->)]); lia.
Qed.

Lemma growExplosion_tracked exp :
  tracked exp ->
  (Explosion.life (growExplosion exp) <? Explosion.maxLife (growExplosion exp))%float = true ->
  tracked (growExplosion exp).
Proof.
  intros (origin & frames & n & Hc & Hn & ->) Hlive.
  exists origin, frames, (S n). split; [exact Hc|]. split; [|reflexivity].
  change (growExplosion (aged n origin)) with (aged (S n) origin) in Hlive.
  apply (created_lifecycle (n := S n) Hc); [lia | exact Hlive].
Qed.

Lemma filter_with_explosions_tracked exps : forall s,
  Forall tracked exps ->
  Forall tracked (fst (filter_with explosionCallback exps s)).
Proof.
  induction exps as [|exp rest IH]; intros s Hall.
  - constructor.
  - inversion Hall as [|? ? Hexp Hrest]; subst.
    rewrite filter_with_fst, explosionCallback_eq. cbv zeta. cbn [fst snd].
    destruct (Explosion.life (growExplosion exp) <? Explosion.maxLife (growExplosion exp))%float
      eqn:Hlive.
    + constructor; [apply growExplosion_tracked; assumption | apply IH, Hrest].
    + apply IH, Hrest.
Qed.

Lemma updateExplosions_tracked s :
  Forall tracked (explosions s) -> Forall tracked (explosions (updateExplosions s)).
Proof.
  intros H. unfold updateExplosions.
  pose proof (filter_with_explosions_tracked s H) as Hk.
  destruct (filter_with explosionCallback (explosions s) s) as [kept s1].
  exact Hk.
Qed.

Lemma updateMissiles_tracked s :
  Forall tracked (explosions s) -> Forall tracked (explosions (updateMissiles s)).
Proof.
  intros H. unfold updateMissiles.
  pose proof (filter_with_inv (fun s' => Forall tracked (explosions s')) missileCallback) as Hinv.
  destruct (filter_with missileCallback (missiles s) s) as [kept s1] eqn:E.
  assert (Hs1 : s1 = snd (filter_with missileCallback (missiles s) s))
    by (rewrite E; reflexivity).
  simpl. subst s1. apply Hinv; [|exact H].
  intros missile s' Hs'. unfold missileCallback. destruct (JS.geb _ _); simpl; [|exact Hs'].
  apply Forall_app. split; [exact Hs'|]. constructor; [|constructor].
  apply (@created_tracked _ 60%nat). repeat split. left. repeat split.
Qed.

Lemma fireMissile_explosions targetX targetY s :
  explosions (fireMissile targetX targetY s) = explosions s.
Proof.
  unfold fireMissile. destruct (negb _); [reflexivity|].
  destruct (findBestTurret _ _ _ _ _) as [[i t]|]; reflexivity.
Qed.

Section Lifecycle.

Context {M : MathLib}.

Lemma updateRockets_tracked s :
  Forall tracked (explosions s) -> Forall tracked (explosions (updateRockets s)).
Proof.
  intros H. rewrite updateRockets_eq. cbv zeta. simpl.
  apply Forall_app. split; [exact H|].
  apply Forall_forall. intros exp Hin. apply in_map_iff in Hin.
  destruct Hin as (rocket & <- & _).
  apply (@created_tracked _ 30%nat). repeat split. right. repeat split.
Qed.

Lemma handle_tracked e s :
  Forall tracked (explosions s) -> Forall tracked (explosions (handle e s)).
Proof.
  intros H. destruct e as [now| | | |tx ty|time random]; simpl.
  - destruct (status s); try exact H; constructor.
  - destruct (status s); exact H.
  - destruct (status s); exact H.
  - destruct (status s); exact H.
  - rewrite fireMissile_explosions. exact H.
  - destruct (update time random s) as [s'|] eqn:Hu; [|exact H].
    destruct (GameStatus_eqb (status s) PLAYING) eqn:Hs.
    + assert (Hp : status s = PLAYING)
        by (destruct (status s); try discriminate; reflexivity).
      destruct (@update_PLAYING _ time random s s' Hp Hu) as (s1 & Hsp & ->).
      destruct (checkWinLoss_frame (score s)
                  (updateExplosions (updateMissiles (updateRockets s1))))
        as (_ & _ & _ & -> & _).
      apply updateExplosions_tracked, updateMissiles_tracked, updateRockets_tracked.
      destruct (@spawnPhase_frame _ time random s s1 Hsp) as (_ & _ & _ & -> & _).
      exact H.
    + unfold update in Hu. rewrite Hs in Hu. simpl in Hu. injection Hu as <-. exact H.
Qed.

Lemma run_tracked es : Forall tracked (explosions (run es mountState)).
Proof.
  induction es as [|e es IH] using rev_ind.
  - constructor.
  - rewrite run_snoc. apply handle_tracked, IH.
Qed.

(** C8.  Each frame an explosion's life grows by 1 and its radius is set to
    the triangular envelope at the new life: [(life / halfLife) * maxRadius]
    up to [halfLife = maxLife / 2], [(1 - (life - halfLife) / halfLife) *
    maxRadius] after it; the explosion is kept exactly when the new life is
    below [maxLife].  For the two explosions the engine creates (detonation:
    maxRadius 46, maxLife 60; impact: maxRadius 20, maxLife 30): the radius
    is 0 at creation, where life is 0, and the envelope is 0 there; after
    [n <= maxLife] frames the life is [n] and the radius the envelope at
    [n]; the radius is exactly [maxRadius] at [halfLife] and exactly 0 at
    [maxLife]; and the explosion is removed in the frame in which its life
    reaches [maxLife], not before.  At every point of a run every explosion in
    the list is of one of these two kinds, some [n < maxLife] frames old.
    And this is what every step does to the list of explosions: the explosion
    phase replaces the list by its explosions, each grown by one frame, less
    those whose new life is not below [maxLife]; over a frame run in PLAYING
    the list becomes the explosions before the frame, the impacts of its
    rocket phase and the detonations of its missile phase, each grown by one
    frame, less those whose new life is not below [maxLife]; so every
    explosion of the list whose life plus 1 is below [maxLife] is in the next
    list with its life incremented by 1, and every explosion of the next
    list is such a grown explosion, with its life below [maxLife]. *)
Theorem explosion_lifecycle :
  (forall exp,
     let exp' := growExplosion exp in
     let halfLife := (Explosion.maxLife exp / 2)%float in
     Explosion.life exp' = (Explosion.life exp + 1)%float /\
     Explosion.radius exp'
     = (if (Explosion.life exp' <=? halfLife)%float
        then (Explosion.life exp' / halfLife * Explosion.maxRadius exp)%float
        else ((1 - (Explosion.life exp' - halfLife) / halfLife)
              * Explosion.maxRadius exp)%float) /\
     Explosion.radius exp'
     = envelope (Explosion.maxRadius exp) (Explosion.maxLife exp) (Explosion.life exp') /\
     Explosion.x exp' = Explosion.x exp /\ Explosion.y exp' = Explosion.y exp /\
     Explosion.maxRadius exp' = Explosion.maxRadius exp /\
     Explosion.maxLife exp' = Explosion.maxLife exp) /\
  (forall exp s,
     fst (explosionCallback exp s)
     = if (Explosion.life exp + 1 <? Explosion.maxLife exp)%float
       then Some (growExplosion exp) else None) /\
  (forall missile,
     let exp := detonationExplosion missile in
     Explosion.maxRadius exp = 46%float /\ Explosion.maxLife exp = 60%float /\
     Explosion.life exp = 0%float /\ Explosion.radius exp = 0%float /\
     forall n, (n <= 60)%nat ->
       let exp' := aged n exp in
       Explosion.life exp' = JS.ofZ (Z.of_nat n) /\
       Explosion.radius exp' = envelope 46%float 60%float (JS.ofZ (Z.of_nat n)) /\
       ((Explosion.life exp' <? Explosion.maxLife exp')%float = true <-> (n < 60)%nat)) /\
  (forall rocket,
     let exp := impactExplosion rocket in
     Explosion.maxRadius exp = 20%float /\ Explosion.maxLife exp = 30%float /\
     Explosion.life exp = 0%float /\ Explosion.radius exp = 0%float /\
     forall n, (n <= 30)%nat ->
       let exp' := aged n exp in
       Explosion.life exp' = JS.ofZ (Z.of_nat n) /\
       Explosion.radius exp' = envelope 20%float 30%float (JS.ofZ (Z.of_nat n)) /\
       ((Explosion.life exp' <? Explosion.maxLife exp')%float = true <-> (n < 30)%nat)) /\
  (envelope 46 60 0 = 0 /\ envelope 46 60 30 = 46 /\ envelope 46 60 60 = 0)%float /\
  (envelope 20 30 0 = 0 /\ envelope 20 30 15 = 20 /\ envelope 20 30 30 = 0)%float /\
  (forall es exp,
     In exp (explosions (run es mountState)) ->
     exists n,
       ((n < 60)%nat /\ Explosion.maxRadius exp = 46%float
        /\ Explosion.maxLife exp = 60%float \/
        (n < 30)%nat /\ Explosion.maxRadius exp = 20%float
        /\ Explosion.maxLife exp = 30%float) /\
       Explosion.life exp = JS.ofZ (Z.of_nat n) /\
       Explosion.radius exp
       = envelope (Explosion.maxRadius exp) (Explosion.maxLife exp) (JS.ofZ (Z.of_nat n))) /\
  (forall s,
     explosions (updateExplosions s)
     = filter (fun exp => (Explosion.life exp <? Explosion.maxLife exp)%float)
         (map growExplosion (explosions s))) /\
  (forall time random s s',
     status s = PLAYING ->
     update time random s = Normal s' ->
     exists s1,
       spawnPhase time random s = Normal s1 /\
       explosions s'
       = filter (fun exp => (Explosion.life exp <? Explosion.maxLife exp)%float)
           (map growExplosion
              (explosions s
               ++ map impactExplosion
                    (filter reachedTarget (map moveRocket (rockets s1)))
               ++ map detonationExplosion
                    (filter arrived (map moveMissile (missiles s)))))) /\
  (forall time random s s',
     status s = PLAYING ->
     update time random s = Normal s' ->
     (forall exp,
        In exp (explosions s) ->
        (Explosion.life exp + 1 <? Explosion.maxLife exp)%float = true ->
        In (growExplosion exp) (explosions s')) /\
     (forall exp',
        In exp' (explosions s') ->
        exists exp,
          exp' = growExplosion exp /\
          Explosion.life exp' = (Explosion.life exp + 1)%float /\
          (Explosion.life exp' <? Explosion.maxLife exp')%float = true /\
          (In exp (explosions s) \/
           (exists rocket, exp = impactExplosion rocket) \/
           (exists missile, exp = detonationExplosion missile)))).
Proof.
  split; [|split; [|split; [|split; [|split; [|split; [|split; [|split; [|split]]]]]]]].
  - intros exp. repeat split.
  - intros exp s. rewrite explosionCallback_eq. reflexivity.
  - intros missile. cbv zeta. do 4 (split; [reflexivity|]). intros n Hn.
    apply (@lifecycle_ok_spec 46%float 60%float 60 n (detonationExplosion missile)
             lifecycle_detonation Hn); reflexivity.
  - intros rocket. cbv zeta. do 4 (split; [reflexivity|]). intros n Hn.
    apply (@lifecycle_ok_spec 20%float 30%float 30 n (impactExplosion rocket)
             lifecycle_impact Hn); reflexivity.
  - repeat split; vm_compute; reflexivity.
  - repeat split; vm_compute; reflexivity.
  - intros es exp Hin.
    pose proof (run_tracked es) as Hall. rewrite Forall_forall in Hall.
    destruct (Hall exp Hin) as (origin & frames & n & Hc & Hn & ->).
    destruct (@created_lifecycle origin frames n Hc ltac:(lia))
      as (Hl & Hr & Hmr & Hml & _).
    exists n. split; [|split; [exact Hl | exact Hr]].
    rewrite Hmr, Hml.
    destruct Hc as (_ & _ & [(-> & -> & ->)|(-> & -> & ->)]); [left|right]; auto.
  - exact updateExplosions_explosions.
  - intros time random s s' Hp Hu. exact (@frame_explosions _ time random s s' Hp Hu).
  - intros time random s s' Hp Hu.
    destruct (@frame_explosions _ time random s s' Hp Hu) as (s1 & _ & ->).
    split.
    + intros exp Hin Hlive. apply filter_In. split; [|exact Hlive].
      apply in_map, in_or_app. left. exact Hin.
    + intros exp' Hin. apply filter_In in Hin. destruct Hin as (Hin & Hlive).
      apply in_map_iff in Hin. destruct Hin as (exp & <- & Hin).
      exists exp. split; [reflexivity|]. split; [reflexivity|]. split; [exact Hlive|].
      apply in_app_or in Hin. destruct Hin as [Hin|Hin]; [left; exact Hin|right].
      apply in_app_or in Hin. destruct Hin as [Hin|Hin];
        apply in_map_iff in Hin; destruct Hin as (a & <- & _); [left|right];
        exists a; reflexivity.
Qed.

End Lifecycle.

Lemma explosion_lifecycle_witness :
  (let exp' := aged 60 (detonationExplosion (Missile.mk 0 0 300 200 400 570 1 0)%float) in
   Explosion.life exp' = JS.ofZ 60 /\
   Explosion.radius exp' = envelope 46%float 60%float (JS.ofZ 60) /\
   ((Explosion.life exp' <? Explosion.maxLife exp')%float = true <-> (60 < 60)%nat)) /\
  (exists s1,
     spawnPhase (M := RefHost.host) 108446%float noRandom eve = Normal s1 /\
     explosions lastStand
     = filter (fun exp => (Explosion.life exp <? Explosion.maxLife exp)%float)
         (map growExplosion
            (explosions eve
             ++ map impactExplosion
                  (filter reachedTarget
                     (map (moveRocket (M := RefHost.host)) (rockets s1)))
             ++ map detonationExplosion
                  (filter arrived (map moveMissile (missiles eve)))))).
Proof.
  split.
  - apply (proj2 (proj2 (proj2 (proj2
             (proj1 (proj2 (proj2 (@explosion_lifecycle RefHost.host)))
                (Missile.mk 0 0 300 200 400 570 1 0)%float)))) 60%nat).
    apply Nat.le_refl.
  - apply (proj1 (proj2 (proj2 (proj2 (proj2 (proj2 (proj2 (proj2 (proj2
             (@explosion_lifecycle RefHost.host)))))))))
             108446%float noRandom eve lastStand).
    + reflexivity.
    + vm_compute. reflexivity.
Defined.

(* ================================================================== *)
(** * Binary64 rounding

    What is needed of the arithmetic of binary64 beyond its order: the
    result of a rounding has the magnitude of the exact value or more, and
    its sign.  Proved from the specification of the operations
    ([binary_normalize], [SFdiv], [SFmul], [SFsub]). *)

Module Binary64.

Open Scope Z_scope.

(** Linear arithmetic over powers of two taken as unknowns. *)
Ltac pow_lia :=
  repeat match goal with
  | |- context [Z.pow 2 ?e] => generalize dependent (Z.pow 2 e); intros
  | H : context [Z.pow 2 ?e] |- _ => generalize dependent (Z.pow 2 e); intros
  end; lia.

Lemma digits2_pos_bounds p :
  2 ^ (Z.pos (digits2_pos p) - 1) <= Z.pos p < 2 ^ Z.pos (digits2_pos p).
Proof.
  induction p as [p IH|p IH|]; cbn [digits2_pos].
  - rewrite Pos2Z.inj_succ, (Pos2Z.inj_xI p).
    replace (Z.succ (Z.pos (digits2_pos p)) - 1) with (Z.succ (Z.pos (digits2_pos p) - 1)) by lia.
    rewrite !Z.pow_succ_r by lia. pow_lia.
  - rewrite Pos2Z.inj_succ, (Pos2Z.inj_xO p).
    replace (Z.succ (Z.pos (digits2_pos p)) - 1) with (Z.succ (Z.pos (digits2_pos p) - 1)) by lia.
    rewrite !Z.pow_succ_r by lia. pow_lia.
  - simpl. lia.
Qed.

Lemma digits2_pos_unique p k :
  2 ^ (k - 1) <= Z.pos p < 2 ^ k -> Z.pos (digits2_pos p) = k.
Proof.
  intros [Hlo Hhi]. pose proof (digits2_pos_bounds p) as [Blo Bhi].
  assert (0 < k).
  { destruct (Z.ltb_spec 0 k) as [|Hk]; [assumption|].
    assert (2 ^ k <= 1).
    { destruct (Z.eq_dec k 0) as [->|]; [simpl; lia|].
      rewrite Z.pow_neg_r by lia. lia. }
    lia. }
  assert (Z.pos (digits2_pos p) - 1 < k).
  { apply (Z.pow_lt_mono_r_iff 2); lia. }
  assert (k - 1 < Z.pos (digits2_pos p)).
  { apply (Z.pow_lt_mono_r_iff 2); lia. }
  lia.
Qed.

Lemma digits2_pos_lower p k :
  2 ^ (k - 1) <= Z.pos p -> k <= Z.pos (digits2_pos p).
Proof.
  intros Hlo. pose proof (digits2_pos_bounds p) as [Blo Bhi].
  destruct (Z.leb_spec k 0) as [|Hk]; [lia|].
  assert (k - 1 < Z.pos (digits2_pos p)).
  { apply (Z.pow_lt_mono_r_iff 2); lia. }
  lia.
Qed.

Lemma shr_m_shr_1 mrs : 0 <= shr_m mrs -> shr_m (shr_1 mrs) = shr_m mrs / 2.
Proof.
  destruct mrs as [m r s]. cbn [shr_m]. intros Hm.
  destruct m as [|[p|p|]|p]; cbn [shr_1 shr_m]; try lia.
  - reflexivity.
  - rewrite (Pos2Z.inj_xI p). apply Z.div_unique with (r := 1); lia.
  - rewrite (Pos2Z.inj_xO p). apply Z.div_unique with (r := 0); lia.
  - reflexivity.
Qed.

Lemma shr_m_iter p : forall mrs,
  0 <= shr_m mrs -> shr_m (iter_pos shr_1 p mrs) = shr_m mrs / 2 ^ Z.pos p.
Proof.
  induction p as [p IH|p IH|]; intros mrs Hm; cbn [iter_pos].
  - assert (H1 : 0 <= shr_m (shr_1 mrs)).
    { rewrite shr_m_shr_1 by exact Hm. apply Z.div_pos; lia. }
    assert (H2 : 0 <= shr_m (iter_pos shr_1 p (shr_1 mrs))).
    { rewrite IH by exact H1. apply Z.div_pos; [exact H1|]. apply Z.pow_pos_nonneg; lia. }
    rewrite IH by exact H2. rewrite IH by exact H1. rewrite shr_m_shr_1 by exact Hm.
    rewrite !Z.div_div by (try apply Z.pow_pos_nonneg; lia).
    f_equal. rewrite (Pos2Z.inj_xI p).
    replace (2 * Z.pos p + 1) with (1 + Z.pos p + Z.pos p) by lia.
    rewrite !Z.pow_add_r by lia. lia.
  - assert (H2 : 0 <= shr_m (iter_pos shr_1 p mrs)).
    { rewrite IH by exact Hm. apply Z.div_pos; [exact Hm|]. apply Z.pow_pos_nonneg; lia. }
    rewrite IH by exact H2. rewrite IH by exact Hm.
    rewrite !Z.div_div by (try apply Z.pow_pos_nonneg; lia).
    f_equal. rewrite (Pos2Z.inj_xO p).
    replace (2 * Z.pos p) with (Z.pos p + Z.pos p) by lia.
    rewrite !Z.pow_add_r by lia. lia.
  - rewrite shr_m_shr_1 by exact Hm. reflexivity.
Qed.

Lemma shr_m_record_of_loc m l : shr_m (shr_record_of_loc m l) = m.
Proof. destruct l as [|[]]; reflexivity. Qed.

(** [shr] on a non-negative_signed mantissa, for a shift that is not negative_signed. *)
Lemma shr_spec m l e n :
  0 <= m -> 0 <= n ->
  shr_m (fst (shr (shr_record_of_loc m l) e n)) = m / 2 ^ n /\
  snd (shr (shr_record_of_loc m l) e n) = e + n.
Proof.
  intros Hm Hn. unfold shr. destruct n as [|p|p]; cbn [fst snd]; try lia.
  - rewrite shr_m_record_of_loc, Z.div_1_r. lia.
  - rewrite shr_m_iter by (rewrite shr_m_record_of_loc; exact Hm).
    rewrite shr_m_record_of_loc. lia.
Qed.

Lemma round_nearest_even_bounds m l :
  m <= round_nearest_even m l <= m + 1.
Proof.
  unfold round_nearest_even. destruct l as [|[]]; try lia.
  destruct (Z.even m); lia.
Qed.

Lemma fexp_normal D : -1021 <= D -> fexp prec emax D = D - 53.
Proof. unfold fexp, emin, prec, emax. lia. Qed.

(** Rounding a positive number given with enough digits, in the range of the
    normal numbers: the result is [Infinity] or has a mantissa of 53 bits and
    the exponent of the number or the next one. *)
Lemma binary_round_aux_normal sx mx ex lx :
  0 < mx ->
  let D := Zdigits2 mx + ex in
  ex <= D - 53 -> -1021 <= D ->
  binary_round_aux prec emax sx mx ex lx = S754_infinity sx \/
  exists m e,
    binary_round_aux prec emax sx mx ex lx = S754_finite sx m e /\
    Z.pos (digits2_pos m) = 53 /\ D - 53 <= e <= D - 52 /\ e <= 971.
Proof.
  intros Hmx D Hal Hn.
  destruct mx as [|p|p]; try lia. cbn [Zdigits2] in D.
  pose proof (digits2_pos_bounds p) as [Blo Bhi].
  set (d := Z.pos (digits2_pos p)) in *.
  unfold binary_round_aux, shr_fexp. cbn [Zdigits2]. fold d. fold D.
  rewrite (fexp_normal Hn).
  set (n := D - 53 - ex).
  assert (Hn0 : 0 <= n) by (unfold n; lia).
  destruct (@shr_spec (Z.pos p) lx ex n ltac:(lia) Hn0) as [Hm' He'].
  destruct (shr (shr_record_of_loc (Z.pos p) lx) ex n) as [mrs' e'].
  cbn [fst snd] in Hm', He'.
  assert (He : e' = D - 53) by (unfold n in He'; lia).
  assert (Hpow : 2 ^ d = 2 ^ 53 * 2 ^ n /\ 2 ^ (d - 1) = 2 ^ 52 * 2 ^ n).
  { unfold n, D. split; rewrite <- Z.pow_add_r by lia; f_equal; lia. }
  destruct Hpow as [Hp1 Hp2].
  assert (Hpn : 0 < 2 ^ n) by (apply Z.pow_pos_nonneg; lia).
  assert (Hlo : 2 ^ 52 <= shr_m mrs').
  { rewrite Hm'. apply Z.div_le_lower_bound; [exact Hpn|]. rewrite Z.mul_comm, <- Hp2. exact Blo. }
  assert (Hhi : shr_m mrs' < 2 ^ 53).
  { rewrite Hm'. apply Z.div_lt_upper_bound; [exact Hpn|]. rewrite Z.mul_comm, <- Hp1. exact Bhi. }
  pose proof (round_nearest_even_bounds (shr_m mrs') (loc_of_shr_record mrs')) as Hr.
  set (m2 := round_nearest_even (shr_m mrs') (loc_of_shr_record mrs')) in *.
  destruct m2 as [|q|q] eqn:Hq; try lia.
  cbn [Zdigits2].
  destruct (Z.eq_dec (Z.pos q) (2 ^ 53)) as [Htop|Htop].
  - assert (Hd : Z.pos (digits2_pos q) = 54).
    { apply digits2_pos_unique. rewrite Htop. simpl. lia. }
    rewrite Hd, fexp_normal by lia.
    replace (54 + e' - 53 - e') with 1 by lia.
    cbn [shr shr_record_of_loc iter_pos].
    rewrite shr_m_shr_1 by (cbn [shr_m]; lia). cbn [shr_m]. rewrite Htop.
    change (2 ^ 53 / 2) with (Z.pos (2 ^ 52)%positive).
    destruct (e' + 1 <=? emax - prec) eqn:Hle; [right|left; reflexivity].
    apply Z.leb_le in Hle. unfold emax, prec in Hle.
    exists (2 ^ 52)%positive, (e' + 1). split; [reflexivity|].
    split; [reflexivity|]. lia.
  - assert (Hd : Z.pos (digits2_pos q) = 53).
    { apply digits2_pos_unique. simpl (53 - 1). lia. }
    rewrite Hd, fexp_normal by lia.
    replace (53 + e' - 53 - e') with 0 by lia.
    cbn [shr shr_record_of_loc shr_m].
    destruct (e' <=? emax - prec) eqn:Hle; [right|left; reflexivity].
    apply Z.leb_le in Hle. unfold emax, prec in Hle.
    exists q, e'. split; [reflexivity|]. split; [exact Hd|]. lia.
Qed.

Lemma iter_xO p d : Z.pos (Pos.iter xO p d) = Z.pos p * 2 ^ Z.pos d.
Proof.
  induction d as [|d IH] using Pos.peano_ind.
  - simpl. lia.
  - rewrite Pos.iter_succ, Pos2Z.inj_xO, IH, Pos2Z.inj_succ, Z.pow_succ_r by lia. lia.
Qed.

(** The mantissa that [shl_align] gives for an exponent that is not above
    the exponent of the number. *)
Lemma shl_align_fst mx ex ez :
  ez <= ex -> Z.pos (fst (shl_align mx ex ez)) = Z.pos mx * 2 ^ (ex - ez).
Proof.
  intros H. unfold shl_align.
  destruct (ez - ex) as [|d|d] eqn:E; cbn [fst]; try lia.
  - replace (ex - ez) with 0 by lia. simpl. lia.
  - rewrite iter_xO. f_equal. f_equal. lia.
Qed.

Lemma digits2_pos_mul_pow2 p k :
  0 <= k -> forall q, Z.pos q = Z.pos p * 2 ^ k ->
  Z.pos (digits2_pos q) = Z.pos (digits2_pos p) + k.
Proof.
  intros Hk q Hq. pose proof (digits2_pos_bounds p) as [Blo Bhi].
  apply digits2_pos_unique. rewrite Hq.
  replace (Z.pos (digits2_pos p) + k - 1) with (Z.pos (digits2_pos p) - 1 + k) by lia.
  rewrite !Z.pow_add_r by lia.
  assert (0 < 2 ^ k) by (apply Z.pow_pos_nonneg; lia).
  split; [apply Z.mul_le_mono_nonneg_r; lia|apply Z.mul_lt_mono_pos_r; lia].
Qed.

(** An integer as a binary64 value. *)
Lemma binary_normalize_pos p :
  let d := Z.pos (digits2_pos p) in
  binary_normalize prec emax (Z.pos p) 0 false = S754_infinity false \/
  exists m e,
    binary_normalize prec emax (Z.pos p) 0 false = S754_finite false m e /\
    Z.pos (digits2_pos m) = 53 /\ d - 53 <= e <= d - 52 /\ e <= 971.
Proof.
  intros d. unfold binary_normalize, binary_round. fold d.
  rewrite fexp_normal by lia.
  destruct (shl_align p 0 (d + 0 - 53)) as [mz ez] eqn:E.
  unfold shl_align in E.
  destruct (d + 0 - 53 - 0) as [|k|k] eqn:Ek; injection E as <- <-.
  - apply (@binary_round_aux_normal false (Z.pos p) 0 loc_Exact); cbn [Zdigits2]; fold d; lia.
  - apply (@binary_round_aux_normal false (Z.pos p) 0 loc_Exact); cbn [Zdigits2]; fold d; lia.
  - assert (Hd : Z.pos (digits2_pos (Pos.iter xO p k)) = d + Z.pos k)
      by (apply digits2_pos_mul_pow2; [lia|apply iter_xO]).
    destruct (@binary_round_aux_normal false (Z.pos (Pos.iter xO p k)) (d + 0 - 53) loc_Exact)
      as [H|(m & e & H & Hm & He & Hmax)]; cbn [Zdigits2]; try rewrite Hd; try lia.
    + left. exact H.
    + right. exists m, e. split; [exact H|]. split; [exact Hm|].
      cbn [Zdigits2] in He. rewrite Hd in He. lia.
Qed.

Lemma Prim2SF_ofZ_pos p :
  Prim2SF (JS.ofZ (Z.pos p)) = binary_normalize prec emax (Z.pos p) 0 false.
Proof.
  unfold JS.ofZ. apply Prim2SF_SF2Prim.
  destruct (binary_normalize_pos p) as [->|(m & e & -> & Hm & He & Hmax)]; [reflexivity|].
  unfold valid_binary, SpecFloat.valid_binary, bounded, canonical_mantissa.
  rewrite Hm, fexp_normal by lia.
  apply andb_true_intro. split; [apply Z.eqb_eq; lia|apply Z.leb_le; unfold emax, prec; lia].
Qed.

Lemma magnitude_ofZ z k : 2 ^ (k - 1) <= z -> 0 < z -> magnitude_atleast k (Prim2SF (JS.ofZ z)).
Proof.
  intros Hk Hz. destruct z as [|p|p]; try lia.
  rewrite Prim2SF_ofZ_pos.
  pose proof (@digits2_pos_lower p k Hk) as Hd.
  destruct (binary_normalize_pos p) as [->|(m & e & -> & Hm & He & Hmax)].
  - left. reflexivity.
  - right. exists m, e. split; [reflexivity|]. lia.
Qed.

Lemma Prim2SF_100 : Prim2SF 100%float = S754_finite false 7036874417766400 (-46).
Proof. reflexivity. Qed.

Lemma Prim2SF_2000 : Prim2SF 2000%float = S754_finite false 8796093022208000 (-42).
Proof. reflexivity. Qed.

(** Division by 100 takes off at most seven binary orders of magnitude. *)
Lemma magnitude_div_100 k x :
  -1000 <= k -> magnitude_atleast k x -> magnitude_atleast (k - 7) (SF64div x (Prim2SF 100%float)).
Proof.
  intros Hk [->|(m1 & e1 & -> & Hmag)]; rewrite Prim2SF_100; [left; reflexivity|].
  unfold SF64div, SFdiv, SFdiv_core_binary. cbn [Zdigits2 xorb].
  change (Z.pos (digits2_pos 7036874417766400)) with 53.
  pose proof (digits2_pos_bounds m1) as [Blo Bhi].
  set (d1 := Z.pos (digits2_pos m1)) in *.
  rewrite fexp_normal by lia.
  set (e' := Z.min (d1 + e1 - (53 + -46) - 53) (e1 - -46)).
  remember (e1 - -46 - e') as s eqn:Es.
  assert (Hs : 106 - d1 <= s) by (unfold e' in Es; lia).
  assert (Hs0 : 0 <= s) by lia.
  remember (match s with Z.pos _ => Z.shiftl (Z.pos m1) s | 0 => Z.pos m1 | Z.neg _ => 0 end)
    as m' eqn:Em.
  assert (Hm' : m' = Z.pos m1 * 2 ^ s).
  { rewrite Em. destruct s as [|ps|ps]; try lia.
    apply Z.shiftl_mul_pow2. lia. }
  clear Em.
  destruct (Z.div_eucl m' 7036874417766400) as [q r] eqn:Ediv.
  assert (Hq : q = m' / 7036874417766400) by (unfold Z.div; rewrite Ediv; reflexivity).
  assert (Hqlo : 2 ^ (d1 + s - 54) <= q).
  { rewrite Hq. apply Z.div_le_lower_bound; [lia|].
    rewrite Hm'.
    apply Z.le_trans with (2 ^ 53 * 2 ^ (d1 + s - 54)).
    - apply Z.mul_le_mono_nonneg_r; [apply Z.pow_nonneg; lia|simpl; lia].
    - rewrite <- Z.pow_add_r by lia.
      replace (53 + (d1 + s - 54)) with (d1 - 1 + s) by lia.
      rewrite Z.pow_add_r by lia.
      apply Z.mul_le_mono_nonneg_r; [apply Z.pow_nonneg; lia|exact Blo]. }
  assert (Hq0 : 0 < q).
  { apply Z.lt_le_trans with (2 ^ (d1 + s - 54)); [apply Z.pow_pos_nonneg; lia|exact Hqlo]. }
  destruct q as [|pq|pq]; try lia.
  assert (Hdq : d1 + s - 53 <= Z.pos (digits2_pos pq)).
  { apply digits2_pos_lower. replace (d1 + s - 53 - 1) with (d1 + s - 54) by lia. exact Hqlo. }
  destruct (@binary_round_aux_normal false (Z.pos pq) e'
              (new_location 7036874417766400 r))
    as [H|(m & e & H & Hm & He & Hmax)]; cbn [Zdigits2]; try (unfold e' in *; lia).
  - left. exact H.
  - right. exists m, e. split; [exact H|]. cbn [Zdigits2] in He. unfold e' in *. lia.
Qed.

(** Multiplication by 100 adds at least six binary orders of magnitude. *)
Lemma magnitude_mul_100 k x :
  -1000 <= k -> magnitude_atleast k x -> magnitude_atleast (k + 6) (SF64mul x (Prim2SF 100%float)).
Proof.
  intros Hk [->|(m1 & e1 & -> & Hmag)]; rewrite Prim2SF_100; [left; reflexivity|].
  unfold SF64mul, SFmul. cbn [xorb].
  pose proof (digits2_pos_bounds m1) as [Blo Bhi].
  set (d1 := Z.pos (digits2_pos m1)) in *.
  assert (Hd1 : 0 < d1) by (unfold d1; lia).
  assert (Hd : d1 + 52 <= Z.pos (digits2_pos (m1 * 7036874417766400))).
  { apply digits2_pos_lower. rewrite Pos2Z.inj_mul.
    replace (d1 + 52 - 1) with (d1 - 1 + 52) by lia. rewrite Z.pow_add_r by lia.
    apply Z.mul_le_mono_nonneg; try lia; try (apply Z.pow_nonneg; lia); simpl; lia. }
  pose proof (@binary_round_aux_normal false (Z.pos (m1 * 7036874417766400)) (e1 + -46)
              loc_Exact) as Hround.
  cbv zeta in Hround. cbn [Zdigits2] in Hround.
  destruct Hround as [H|(m & e & H & Hm & He & Hmax)]; try lia.
  - left. exact H.
  - right. exists m, e. split; [exact H|]. lia.
Qed.

Lemma shr_m_nonneg m l e n : 0 <= m -> 0 <= shr_m (fst (shr (shr_record_of_loc m l) e n)).
Proof.
  intros Hm. destruct n as [|p|p]; cbn [shr fst]; rewrite ?shr_m_record_of_loc; try exact Hm.
  rewrite shr_m_iter, shr_m_record_of_loc by (rewrite shr_m_record_of_loc; exact Hm).
  apply Z.div_pos; [exact Hm|apply Z.pow_pos_nonneg; lia].
Qed.

(** Rounding keeps the sign. *)
Lemma binary_round_aux_sign sx mx ex lx :
  0 <= mx ->
  let r := binary_round_aux prec emax sx mx ex lx in
  r = S754_zero sx \/ r = S754_infinity sx \/ exists m e, r = S754_finite sx m e.
Proof.
  intros Hmx. cbv zeta. unfold binary_round_aux, shr_fexp.
  pose proof (@shr_m_nonneg mx lx ex (fexp prec emax (Zdigits2 mx + ex) - ex) Hmx) as H1.
  destruct (shr (shr_record_of_loc mx lx) ex (fexp prec emax (Zdigits2 mx + ex) - ex))
    as [mrs' e'].
  cbn [fst] in H1.
  pose proof (round_nearest_even_bounds (shr_m mrs') (loc_of_shr_record mrs')) as Hr.
  set (m2 := round_nearest_even (shr_m mrs') (loc_of_shr_record mrs')) in *.
  pose proof (@shr_m_nonneg m2 loc_Exact e' (fexp prec emax (Zdigits2 m2 + e') - e')
                ltac:(lia)) as H2.
  destruct (shr (shr_record_of_loc m2 loc_Exact) e' (fexp prec emax (Zdigits2 m2 + e') - e'))
    as [mrs'' e''].
  cbn [fst] in H2.
  destruct (shr_m mrs'') as [|m|m]; try lia.
  - left. reflexivity.
  - destruct (e'' <=? emax - prec); [right; right; eexists; eexists; reflexivity|].
    right. left. reflexivity.
Qed.

(** 2000 minus a number of at least twelve binary orders of magnitude. *)
Lemma negative_2000_sub w :
  magnitude_atleast 12 w -> negative_signed (SF64sub (Prim2SF 2000%float) w).
Proof.
  intros [->|(mw & ew & -> & Hmag)]; rewrite Prim2SF_2000;
    [right; left; reflexivity|].
  unfold SF64sub, SFsub. cbn [cond_Zopp].
  set (ez := Z.min (-42) ew).
  rewrite !shl_align_fst by (unfold ez; lia).
  pose proof (digits2_pos_bounds mw) as [Blo Bhi].
  set (dw := Z.pos (digits2_pos mw)) in *.
  assert (Hneg : Z.pos 8796093022208000 * 2 ^ (-42 - ez) - Z.pos mw * 2 ^ (ew - ez) < 0).
  { assert (H1 : Z.pos 8796093022208000 * 2 ^ (-42 - ez) < 2 ^ 53 * 2 ^ (-42 - ez)).
    { apply Z.mul_lt_mono_pos_r; [apply Z.pow_pos_nonneg; unfold ez; lia|simpl; lia]. }
    assert (H2 : 2 ^ (dw - 1) * 2 ^ (ew - ez) <= Z.pos mw * 2 ^ (ew - ez)).
    { apply Z.mul_le_mono_nonneg_r; [apply Z.pow_nonneg; lia|exact Blo]. }
    rewrite <- Z.pow_add_r in H1, H2 by (unfold ez; lia).
    assert (H3 : 2 ^ (53 + (-42 - ez)) <= 2 ^ (dw - 1 + (ew - ez))).
    { apply Z.pow_le_mono_r; unfold ez; lia. }
    lia. }
  destruct (Z.pos 8796093022208000 * 2 ^ (-42 - ez) - Z.pos mw * 2 ^ (ew - ez))
    as [|p|p]; try lia.
  unfold binary_normalize, binary_round.
  destruct (shl_align p ez (fexp prec emax (Z.pos (digits2_pos p) + ez))) as [mz ez'].
  destruct (@binary_round_aux_sign true (Z.pos mz) ez' loc_Exact ltac:(lia))
    as [H|[H|(m & e & H)]]; rewrite H.
  - left. reflexivity.
  - right. left. reflexivity.
  - right. right. exists m, e. reflexivity.
Qed.

Lemma Math_max_500_negative v :
  negative_signed (Prim2SF v) -> JS.Math_max 500%float v = 500%float.
Proof.
  intros Hv. unfold JS.Math_max, is_nan. rewrite !eqb_spec, !ltb_spec.
  change (Prim2SF 500%float) with (S754_finite false 8796093022208000 (-44)).
  destruct Hv as [->|[->|(m & e & ->)]]; try reflexivity.
  unfold SFeqb, SFltb. simpl. rewrite Z.compare_refl. fold (Pos.compare m m).
  rewrite Pos.compare_refl. reflexivity.
Qed.

(** From score 4096 on the spawn interval is 500: [score / 100 * 100] is at
    least 2048, whatever the rounding. *)
Lemma spawnRate_saturated sc : 4096 <= sc -> spawnRate sc = 500%float.
Proof.
  intros Hsc. unfold spawnRate. apply Math_max_500_negative.
  rewrite sub_spec. apply negative_2000_sub.
  rewrite mul_spec. apply (@magnitude_mul_100 6); [lia|].
  rewrite div_spec. apply (@magnitude_div_100 13); [lia|].
  apply magnitude_ofZ; simpl; lia.
Qed.

End Binary64.

(* ================================================================== *)
(** * Spawning *)

Lemma Math_max_floor a b :
  (a <? a)%float = false -> (JS.Math_max a b <? a)%float = false.
Proof.
  intros Ha. unfold JS.Math_max.
  destruct (is_nan a || is_nan b).
  - rewrite ltb_spec. reflexivity.
  - destruct (a <? b)%float eqn:Hab; [apply FloatOrder.ltb_asym, Hab|].
    destruct (b <? a)%float eqn:Hba; [exact Ha|].
    destruct (get_sign a); assumption.
Qed.

Lemma spawnRate_table : spawnRate_ok SCORE_RANGE = true.
Proof. vm_compute. reflexivity. Qed.

Lemma spawnRate_ok_spec range k :
  spawnRate_ok range = true ->
  (k <= range)%nat ->
  (spawnRate (Z.of_nat (S k)) <=? spawnRate (Z.of_nat k))%float = true /\
  (spawnRate (Z.of_nat k) <=? spawnRate (Z.of_nat k))%float = true /\
  ((1500 <= k)%nat -> spawnRate (Z.of_nat k) = 500%float).
Proof.
  intros H Hk. unfold spawnRate_ok in H.
  rewrite forallb_forall in H. specialize (H k). rewrite in_seq in H.
  specialize (H ltac:(lia)).
  apply andb_prop in H. destruct H as [H H3].
  apply andb_prop in H. destruct H as [H1 H2].
  split; [exact H1|]. split; [exact H2|]. intros Hge.
  apply orb_prop in H3. destruct H3 as [H3|H3].
  - apply Nat.ltb_lt in H3. lia.
  - apply FloatAxioms.Leibniz.eqb_spec. exact H3.
Qed.

Lemma spawnRate_antitone_nat range a d :
  spawnRate_ok range = true ->
  (a + d <= range)%nat ->
  (spawnRate (Z.of_nat (a + d)) <=? spawnRate (Z.of_nat a))%float = true.
Proof.
  intros Hok. induction d as [|d IH]; intros H.
  - rewrite Nat.add_0_r. apply (spawnRate_ok_spec Hok). lia.
  - rewrite Nat.add_succ_r.
    eapply FloatOrder.leb_trans; [|apply IH; lia].
    apply (spawnRate_ok_spec Hok). lia.
Qed.

Lemma spawnRate_antitone range s1 s2 :
  spawnRate_ok range = true ->
  (0 <= s1 <= s2)%Z -> (s2 <= Z.of_nat range)%Z ->
  (spawnRate s2 <=? spawnRate s1)%float = true.
Proof.
  intros Hok [H0 H12] Hr.
  pose proof (spawnRate_antitone_nat (Z.to_nat s1) (Z.to_nat s2 - Z.to_nat s1) Hok) as H.
  replace (Z.to_nat s1 + (Z.to_nat s2 - Z.to_nat s1))%nat with (Z.to_nat s2) in H by lia.
  rewrite !Z2Nat.id in H by lia. apply H. lia.
Qed.

Lemma spawnRate_floor_reached range sc :
  spawnRate_ok range = true ->
  (1500 <= sc <= Z.of_nat range)%Z -> spawnRate sc = 500%float.
Proof.
  intros Hok [Hlo Hhi]. replace sc with (Z.of_nat (Z.to_nat sc)) by lia.
  apply (spawnRate_ok_spec Hok); lia.
Qed.

(** Monotonicity and floor of the interval over all scores: the table up to
    [SCORE_RANGE], the rounding lemmas from there on. *)
Lemma spawnRate_floor_all sc : (1500 <= sc)%Z -> spawnRate sc = 500%float.
Proof.
  intros Hsc. destruct (Z.le_gt_cases 4096 sc) as [Hbig|Hsmall].
  - apply Binary64.spawnRate_saturated, Hbig.
  - apply (@spawnRate_floor_reached SCORE_RANGE sc spawnRate_table).
    unfold SCORE_RANGE. lia.
Qed.

Lemma spawnRate_antitone_all s1 s2 :
  (0 <= s1 <= s2)%Z -> (spawnRate s2 <=? spawnRate s1)%float = true.
Proof.
  intros [H0 H12]. destruct (Z.le_gt_cases s2 4096) as [Hsmall|Hbig].
  - apply (@spawnRate_antitone SCORE_RANGE s1 s2 spawnRate_table); [lia|].
    unfold SCORE_RANGE. lia.
  - rewrite (@spawnRate_floor_all s2) by lia.
    destruct (Z.le_gt_cases 4096 s1) as [Hbig1|Hsmall1].
    + rewrite (@spawnRate_floor_all s1) by lia. reflexivity.
    + rewrite <- (@spawnRate_floor_all 4096) by lia.
      apply (@spawnRate_antitone SCORE_RANGE s1 4096 spawnRate_table); [lia|].
      unfold SCORE_RANGE. lia.
Qed.

Section Spawn.

Context {M : MathLib}.

(** C9.  In a frame in status PLAYING a spawn is attempted exactly when
    [time - lastSpawnTime > spawnRate], where [spawnRate = Math.max(500, 2000
    - (score / 100) * 100)] for the score the frame started with: otherwise
    the spawn phase changes nothing; when it is, [spawnRocket] is called and
    the last spawn time becomes [time], so that the time compared at the
    next frame is the time elapsed since this one; the spawn phase throws
    only when a spawn is due and [spawnRocket] throws.  [spawnRocket]
    returns without creating a rocket, and without an exception, when no
    city and no turret is active; with an active target drawn, it appends
    exactly one rocket, at height -20, aimed at that target.  The interval
    is never below 500; it never grows with the score, over all scores from
    0 on; it is 500 from score 1500 on; and the score is never negative at
    any point of a run. *)
Theorem spawn_policy :
  (forall time random s,
     status s = PLAYING ->
     update time random s
     = JS.bind (spawnPhase time random s) (fun s1 =>
         Normal (checkWinLoss (score s)
                   (updateExplosions (updateMissiles (updateRockets s1)))))) /\
  (forall sc,
     spawnRate sc = JS.Math_max 500%float (2000 - JS.ofZ sc / 100 * 100)%float) /\
  (forall time random s,
     (spawnRate (score s) <? time - lastSpawnTime s)%float = false ->
     spawnPhase time random s = Normal s) /\
  (forall time random s,
     (spawnRate (score s) <? time - lastSpawnTime s)%float = true ->
     spawnPhase time random s
     = JS.bind (spawnRocket random s) (fun s1 => Normal (set_lastSpawnTime time s1))) /\
  (forall random s,
     (forall c, In c (cities s) -> City.active c = false) ->
     (forall t, In t (turrets s) -> Turret.active t = false) ->
     spawnRocket random s = Normal s) /\
  (forall random s target,
     JS.get (activeTargets s)
       (JS.Math_floor (random 1%nat * JS.length (activeTargets s))%float) = Some target ->
     In target (activeTargets s) /\
     exists speed angle,
       spawnRocket random s
       = Normal (set_rockets
                   (rockets s ++
                    [Rocket.mk (random 0%nat * GAME_WIDTH)%float (-20)%float
                       (Target_x target) (Target_y target) speed angle]) s)) /\
  (forall sc, (spawnRate sc <? 500)%float = false) /\
  (forall s1 s2, (0 <= s1 <= s2)%Z -> (spawnRate s2 <=? spawnRate s1)%float = true) /\
  (forall sc, (1500 <= sc)%Z -> spawnRate sc = 500%float) /\
  (spawnRate 0 = 2000 /\ spawnRate 500 = 1500 /\ spawnRate 1000 = 1000)%float /\
  (forall time random s s1,
     spawnPhase time random s = Normal s1 ->
     if (spawnRate (score s) <? time - lastSpawnTime s)%float
     then lastSpawnTime s1 = time /\
          exists s0,
            spawnRocket random s = Normal s0 /\
            s1 = mkState (score s0) (status s0) (rockets s0) (missiles s0)
                   (explosions s0) (cities s0) (turrets s0) time
     else s1 = s) /\
  (forall time random s,
     spawnPhase time random s = Throw <->
     (spawnRate (score s) <? time - lastSpawnTime s)%float = true /\
     spawnRocket random s = Throw) /\
  (forall time random s s',
     status s = PLAYING ->
     update time random s = Normal s' ->
     lastSpawnTime s'
     = if (spawnRate (score s) <? time - lastSpawnTime s)%float
       then time else lastSpawnTime s) /\
  (forall es, (0 <= score (run es mountState))%Z).
Proof.
  split; [intros time random s Hs; unfold update; rewrite Hs; reflexivity|].
  split; [reflexivity|].
  split; [|split; [|split; [|split; [|split; [|split; [|split;
    [|split; [|split; [|split; [|split]]]]]]]]]].
  - intros time random s H. unfold spawnPhase, JS.gtb. rewrite H. reflexivity.
  - intros time random s H. unfold spawnPhase, JS.gtb. rewrite H. reflexivity.
  - intros random s Hc Ht. unfold spawnRocket, activeTargets.
    replace (filter City.active (cities s)) with (@nil City.t).
    + replace (filter Turret.active (turrets s)) with (@nil Turret.t); [reflexivity|].
      symmetry. induction (turrets s) as [|t l IH]; [reflexivity|]. simpl.
      rewrite (Ht t) by (left; reflexivity). apply IH. intros t' H'. apply Ht. right.
      exact H'.
    + symmetry. induction (cities s) as [|c l IH]; [reflexivity|]. simpl.
      rewrite (Hc c) by (left; reflexivity). apply IH. intros c' H'. apply Hc. right.
      exact H'.
  - intros random s target Hget. split.
    + unfold JS.get in Hget. destruct (JS.floorZ _) as [z|]; [|discriminate].
      destruct (_ && _); [|discriminate]. eapply nth_error_In. exact Hget.
    + unfold spawnRocket. rewrite Hget.
      destruct (length (activeTargets s) =? 0)%nat eqn:E.
      * apply Nat.eqb_eq in E. unfold JS.get in Hget.
        destruct (JS.floorZ _) as [z|]; [|discriminate].
        destruct (_ && _); [|discriminate]. apply nth_error_In in Hget.
        destruct (activeTargets s); [destruct Hget | discriminate].
      * eexists. eexists. reflexivity.
  - intros sc. apply Math_max_floor. rewrite ltb_spec. reflexivity.
  - exact spawnRate_antitone_all.
  - exact spawnRate_floor_all.
  - repeat split; vm_compute; reflexivity.
  - intros time random s s1. unfold spawnPhase, JS.gtb.
    destruct (spawnRate (score s) <? time - lastSpawnTime s)%float.
    + destruct (spawnRocket random s) as [s0|]; simpl; [|discriminate].
      intros H. injection H as <-. split; [reflexivity|].
      exists s0. split; reflexivity.
    + intros H. injection H as <-. reflexivity.
  - intros time random s. unfold spawnPhase, JS.gtb.
    destruct (spawnRate (score s) <? time - lastSpawnTime s)%float.
    + destruct (spawnRocket random s) as [s0|]; simpl.
      * split; [discriminate|intros [_ H]; discriminate].
      * split; [intros _; split; reflexivity|reflexivity].
    + split; [discriminate|intros [H _]; discriminate].
  - intros time random s s' Hp Hu.
    destruct (@frame_anatomy _ time random s s' Hp Hu)
      as (s1 & Hsp & _ & _ & _ & _ & _ & (_ & _ & _ & _ & _ & _ & ->)).
    unfold spawnPhase, JS.gtb in Hsp.
    destruct (spawnRate (score s) <? time - lastSpawnTime s)%float.
    + destruct (spawnRocket random s) as [s0|]; simpl in Hsp; [|discriminate].
      injection Hsp as <-. reflexivity.
    + injection Hsp as <-. reflexivity.
  - induction es as [|e es IH] using rev_ind; [simpl; lia|].
    rewrite run_snoc. destruct (isStart e) eqn:He.
    + destruct e; try discriminate. simpl.
      destruct (status (run es mountState)); simpl; lia.
    + pose proof (@handle_score _ e (run es mountState) He). lia.
Qed.

End Spawn.

(* ================================================================== *)
(** * The theorems at concrete inputs *)

Lemma ammo_within_bounds_witness :
  Forall2 ammo_step (turrets (initGame 0%float))
    (turrets (handle (M := RefHost.host) (CanvasClick 300 200)%float (initGame 0%float))) /\
  Forall2 ammo_not_above (turrets (initGame 0%float))
    (turrets (run (M := RefHost.host)
                [CanvasClick 300 200; AnimationFrame 16 noRandom; CanvasClick 10 10]%float
                (initGame 0%float))).
Proof.
  destruct (@ammo_within_bounds RefHost.host) as (_ & _ & Hstep & Hrun).
  split.
  - apply Hstep. reflexivity.
  - apply Hrun. intros e He. simpl in He.
    destruct He as [<-|[<-|[<-|[]]]]; reflexivity.
Defined.

Lemma rocket_impact_witness :
  (let rocket := (Rocket.mk 400 565 400 570 1 1.5707963267948966)%float in
   let moved := moveRocket (M := RefHost.host) rocket in
   let s' := snd (rocketCallback (M := RefHost.host) rocket lastStand) in
   fst (rocketCallback (M := RefHost.host) rocket lastStand) = None /\
   explosions s'
   = explosions lastStand
     ++ [Explosion.mk (Rocket.x moved) (Rocket.y moved) 0 20 0 30]%float /\
   cities s' = map (impactCity moved) (cities lastStand) /\
   turrets s' = map (impactTurret moved) (turrets lastStand)) /\
  rocketCallback (M := RefHost.host) strayRocket lastStand = (None, lastStand).
Proof.
  split.
  - cbv zeta.
    destruct (proj1 (proj2 (@rocket_impact RefHost.host
                (Rocket.mk 400 565 400 570 1 1.5707963267948966)%float lastStand)))
      as (H1 & H2 & H3 & H4 & _).
    + vm_compute. reflexivity.
    + auto.
  - apply (proj1 (proj2 (proj2 (@rocket_impact RefHost.host strayRocket lastStand)))).
    + vm_compute. reflexivity.
    + vm_compute. reflexivity.
Defined.

Lemma explosions_score_rockets_witness :
  (score eve <= score lastStand)%Z /\
  (score eve
   <= score (run (M := RefHost.host)
               [AnimationFrame 108446 noRandom; PauseButton; ResumeButton;
                AnimationFrame 108447 noRandom]%float eve))%Z.
Proof.
  destruct (@explosions_score_rockets RefHost.host) as (_ & _ & _ & _ & Hframe & Hrun).
  split.
  - apply (Hframe 108446%float noRandom). vm_compute. reflexivity.
  - apply Hrun. intros e He. simpl in He.
    destruct He as [<-|[<-|[<-|[<-|[]]]]]; reflexivity.
Defined.

Lemma spawn_policy_witness :
  (spawnRate 1000 <=? spawnRate 980)%float = true /\
  (spawnRate 1000000 <=? spawnRate 980)%float = true /\
  spawnRate 2000 = 500%float /\
  spawnRate (2 ^ 2000) = 500%float /\
  spawnRocket (M := RefHost.host) draws razed = Normal razed /\
  spawnPhase (M := RefHost.host) 108446%float draws eve = Normal eve /\
  spawnPhase (M := RefHost.host) 2500%float draws (initGame 0%float)
  = JS.bind (spawnRocket (M := RefHost.host) draws (initGame 0%float))
      (fun s1 => Normal (set_lastSpawnTime 2500%float s1)) /\
  lastSpawnTime lastStand
  = (if (spawnRate (score eve) <? 108446 - lastSpawnTime eve)%float
     then 108446%float else lastSpawnTime eve) /\
  lastSpawnTime
    (handle (M := RefHost.host) (AnimationFrame 2500%float draws) (initGame 0%float))
  = (if (spawnRate (score (initGame 0%float)) <? 2500 - lastSpawnTime (initGame 0%float))%float
     then 2500%float else lastSpawnTime (initGame 0%float)).
Proof.
  destruct (@spawn_policy RefHost.host)
    as (_ & _ & Hnot & Hdue & Hnone & _ & _ & Hmono & Hfloor & _ & _ & _ & Hclock & _).
  split; [|split; [|split; [|split; [|split; [|split; [|split; [|split]]]]]]].
  - apply Hmono. lia.
  - apply Hmono. lia.
  - apply Hfloor. lia.
  - apply Hfloor. vm_compute. discriminate.
  - apply Hnone; intros x Hx; simpl in Hx; destruct Hx as [<-|[]]; reflexivity.
  - apply Hnot. vm_compute. reflexivity.
  - apply Hdue. vm_compute. reflexivity.
  - apply (Hclock 108446%float noRandom eve lastStand).
    + reflexivity.
    + vm_compute. reflexivity.
  - apply (Hclock 2500%float draws (initGame 0%float)).
    + reflexivity.
    + vm_compute. reflexivity.
Defined.

(** A spawn on the reference host: the draws pick the left turret, and the
    rocket starts at [(400, -20)] with speed 1. *)
Example spawn_at_start :
  spawnPhase (M := RefHost.host) 2500%float draws (initGame 0%float)
  = Normal (mkState 0 PLAYING
              [Rocket.mk 400 (-20) 40 570 1 2.1186598582967320]%float
              [] [] (cities (initGame 0%float)) (turrets (initGame 0%float))
              2500%float).
Proof. vm_compute. reflexivity. Qed.

(* ================================================================== *)
(** * Scenarios of the specification, on the reference host *)

(** Scenario A: a missile fired from a fresh game at (300, 200) flies
    383.27... units; it is still in flight after 69 frames and detonates in
    the 70th, leaving an explosion of maximal radius 46. *)
Example scenario_A :
  let fired := fireMissile 300%float 200%float (initGame 0%float) in
  let frames n := repeat (AnimationFrame 16%float noRandom) n in
  length (missiles (run (M := RefHost.host) (frames 69%nat) fired)) = 1%nat /\
  explosions (run (M := RefHost.host) (frames 69%nat) fired) = [] /\
  missiles (run (M := RefHost.host) (frames 70%nat) fired) = [] /\
  explosions (run (M := RefHost.host) (frames 70%nat) fired)
  = [Explosion.mk 300 200 (1 / 30 * 46) 46 1 60]%float.
Proof. vm_compute. repeat split. Qed.

(** Scenario B: the turret nearest to the target is out of ammo; the first of
    the two equally distant ones answers. *)
Example scenario_B :
  let s := set_turrets
             [Turret.mk 40 570 true 20 20; Turret.mk 400 570 true 0 40;
              Turret.mk 760 570 true 20 20]%float (initGame 0%float) in
  turrets (fireMissile 400%float 300%float s)
  = [Turret.mk 40 570 true 19 20; Turret.mk 400 570 true 0 40;
     Turret.mk 760 570 true 20 20]%float /\
  map (fun m => (Missile.startX m, Missile.startY m)) (missiles (fireMissile 400%float 300%float s))
  = [(40, 570)]%float.
Proof. vm_compute. repeat split. Qed.

(* ================================================================== *)
(** * Further results: the state machine *)

Lemma status_PLAYING_dec s : {status s = PLAYING} + {status s <> PLAYING}.
Proof. destruct (status s); (left; reflexivity) || (right; discriminate). Qed.

Lemma GameStatus_eqb_PLAYING s :
  GameStatus_eqb (status s) PLAYING = true <-> status s = PLAYING.
Proof. destruct (status s); simpl; split; congruence. Qed.

(** What [fireMissile] does: nothing, or one shot from an eligible turret. *)
Lemma fireMissile_cases targetX targetY s :
  fireMissile targetX targetY s = s \/
  (status s = PLAYING /\
   exists i turret,
     nth_error (turrets s) i = Some turret /\ eligible turret = true /\
     fireMissile targetX targetY s
     = mkState (score s) (status s) (rockets s)
         (missiles s ++ [newMissile targetX targetY turret])
         (explosions s) (cities s)
         (replace i (Turret_set_ammo (Turret.ammo turret - 1) turret) (turrets s))
         (lastSpawnTime s)).
Proof.
  unfold fireMissile.
  destruct (status_PLAYING_dec s) as [Hp|Hp].
  - rewrite Hp. simpl.
    destruct (findBestTurret targetX (turrets s) 0 None infinity) as [[i turret]|] eqn:Hf.
    + right. split; [reflexivity|]. exists i, turret.
      destruct (@findBestTurret_index targetX (turrets s) [] None infinity
                  ltac:(discriminate) i turret Hf) as (Hn & He).
      split; [exact Hn|]. split; [exact He|]. rewrite <- Hp. reflexivity.
    + left. reflexivity.
  - left. destruct (status s); try reflexivity. contradiction.
Qed.

Lemma map_replace {A B} (f : A -> B) (l : list A) :
  forall i a a', nth_error l i = Some a -> f a' = f a ->
    map f (replace i a' l) = map f l.
Proof.
  induction l as [|b l IH]; intros [|i] a a' Hn Hf; simpl in *; try discriminate.
  - injection Hn as ->. rewrite Hf. reflexivity.
  - rewrite (IH i a a' Hn Hf). reflexivity.
Qed.

Lemma fireMissile_turret_field {B} (f : Turret.t -> B) targetX targetY s :
  (forall a t, f (Turret_set_ammo a t) = f t) ->
  map f (turrets (fireMissile targetX targetY s)) = map f (turrets s).
Proof.
  intros Hf. destruct (fireMissile_cases targetX targetY s) as [->|(_ & i & t & Hn & _ & ->)].
  - reflexivity.
  - simpl. apply map_replace with (a := t); [exact Hn|apply Hf].
Qed.

Lemma fireMissile_status targetX targetY s :
  status (fireMissile targetX targetY s) = status s.
Proof.
  destruct (fireMissile_cases targetX targetY s) as [->|(_ & i & t & _ & _ & ->)];
    reflexivity.
Qed.

Lemma exists_active_map (l l' : list Turret.t) :
  map Turret.active l' = map Turret.active l ->
  (exists t, In t l /\ Turret.active t = true) ->
  exists t, In t l' /\ Turret.active t = true.
Proof.
  revert l'. induction l as [|a l IH]; intros [|a' l'] Hm (t & Hin & Ha);
    simpl in *; try discriminate; try contradiction.
  injection Hm as Hh Ht. destruct Hin as [->|Hin].
  - exists a'. split; [left; reflexivity|congruence].
  - destruct (IH l' Ht (ex_intro _ t (conj Hin Ha))) as (t' & Hin' & Ha').
    exists t'. split; [right; exact Hin'|exact Ha'].
Qed.

Lemma filter_active_nonempty (l : list Turret.t) :
  (length (filter Turret.active l) =? 0)%nat = false ->
  exists t, In t l /\ Turret.active t = true.
Proof.
  destruct (filter Turret.active l) as [|t rest] eqn:Hf; simpl; [discriminate|].
  intros _. exists t. apply filter_In. rewrite Hf. left. reflexivity.
Qed.

Section Machine.

Context {M : MathLib}.

(** A frame, seen from the component: nothing, or the phases in turn. *)
Lemma handle_frame_cases time random s :
  handle (AnimationFrame time random) s = s \/
  (status s = PLAYING /\
   exists s1, spawnPhase time random s = Normal s1 /\
     update time random s = Normal (handle (AnimationFrame time random) s) /\
     handle (AnimationFrame time random) s
     = checkWinLoss (score s) (updateExplosions (updateMissiles (updateRockets s1)))).
Proof.
  simpl. destruct (update time random s) as [s'|] eqn:Hu; [|left; reflexivity].
  destruct (status_PLAYING_dec s) as [Hp|Hp].
  - right. split; [exact Hp|].
    destruct (@update_PLAYING _ time random s s' Hp Hu) as (s1 & Hsp & ->).
    exists s1. repeat split. exact Hsp.
  - left. rewrite (@update_not_PLAYING _ time random s Hp) in Hu. congruence.
Qed.

Lemma handle_status_sound e s : status_sound s -> status_sound (handle e s).
Proof.
  intros Hs0. pose proof Hs0 as (Hw & Hl & Ha).
  assert (Hinit : forall now, status_sound (initGame now)).
  { intros now. split; [discriminate|split; [discriminate|]]. intros _.
    exists (Turret.mk 40%float (GAME_HEIGHT - 30)%float true
              TURRET_AMMO.LEFT TURRET_AMMO.LEFT).
    split; [left; reflexivity|reflexivity]. }
  assert (Hstart : status_sound (setGameState START s)).
  { split; [discriminate|split; [discriminate|]]. intros [H|H]; discriminate. }
  destruct e as [now| | | |tx ty|time random].
  - simpl. destruct (status s); try exact Hs0; apply Hinit.
  - simpl. destruct (status s) eqn:Hs; try exact Hs0.
    split; [discriminate|split; [discriminate|]]. intros _. apply Ha. left. reflexivity.
  - simpl. destruct (status s) eqn:Hs; try exact Hs0;
      (split; [discriminate|split; [discriminate|]]); intros _; apply Ha; auto.
  - simpl. destruct (status s); try exact Hs0; exact Hstart.
  - simpl. unfold status_sound, noActiveTurret.
    rewrite fireMissile_status, fireMissile_score.
    split; [exact Hw|]. split.
    + intros H. destruct (fireMissile_cases tx ty s) as [->|(Hp & _)]; [apply Hl, H|congruence].
    + intros H. apply exists_active_map with (l := turrets s); [|apply Ha, H].
      apply fireMissile_turret_field. reflexivity.
  - destruct (handle_frame_cases time random s) as [->|(Hp & s1 & Hsp & Hu & Heq)].
    + repeat split; assumption.
    + pose proof (@update_status _ time random s _ Hp Hu) as Hst.
      pose proof (@update_score _ time random s _ Hu) as Hsc.
      set (s' := handle (AnimationFrame time random) s) in *.
      unfold status_sound, noActiveTurret. rewrite Hst.
      destruct (WIN_SCORE <=? score s)%Z eqn:Hwin.
      * split; [intros _; apply Z.leb_le in Hwin; lia|].
        split; [discriminate|intros [H|H]; discriminate].
      * destruct (length (filter Turret.active (turrets s')) =? 0)%nat eqn:Hlen.
        -- split; [discriminate|]. split; [|intros [H|H]; discriminate].
           intros _. apply Nat.eqb_eq in Hlen.
           destruct (filter Turret.active (turrets s')); [reflexivity|discriminate].
        -- split; [discriminate|]. split; [discriminate|].
           intros _. apply filter_active_nonempty, Hlen.
Qed.

Ltac graph_split :=
  repeat first [match goal with |- _ /\ _ => split end | progress intros].

(** X1.  The status of the component moves only along the arrows of the
    graph START -> PLAYING, PLAYING -> PAUSED | WON | LOST | START, PAUSED ->
    PLAYING | START, WON | LOST -> START | PLAYING.  Outside PLAYING an
    animation frame and a click on the canvas leave the whole state as it is;
    a click never changes the status; WON is entered only by a frame run in
    PLAYING on a score of at least [WIN_SCORE], and LOST only by a frame run
    in PLAYING on a score below it that ends with no active turret; START is
    entered only by the back-to-start button, which from PLAYING (the
    overlay still fading out) leaves everything but the status as it is; and
    PAUSED is entered only by the pause button. *)
Theorem status_graph (e : Event) (s : GameState) :
  let s' := handle e s in
  (status s' = status s \/ transition (status s) (status s') = true) /\
  (status s <> PLAYING -> isFrame e || isClick e = true -> s' = s) /\
  (isClick e = true -> status s' = status s) /\
  (status s' = WON -> status s <> WON ->
   isFrame e = true /\ status s = PLAYING /\ (WIN_SCORE <= score s)%Z) /\
  (status s' = LOST -> status s <> LOST ->
   isFrame e = true /\ status s = PLAYING /\ (score s < WIN_SCORE)%Z /\
   noActiveTurret s') /\
  (status s' = START -> status s <> START ->
   e = BackToStartButton /\
   s' = mkState (score s) START (rockets s) (missiles s) (explosions s)
          (cities s) (turrets s) (lastSpawnTime s)) /\
  (status s' = PAUSED -> status s <> PAUSED ->
   e = PauseButton /\ status s = PLAYING).
Proof.
  assert (Hbutton : forall P Q : Prop, P -> P \/ Q) by tauto.
  destruct e as [now| | | |tx ty|time random]; cbv zeta.
  - simpl. destruct (status s) eqn:Hs; simpl; rewrite ?Hs;
      graph_split; try discriminate; try congruence; auto.
  - simpl. destruct (status s) eqn:Hs; simpl; rewrite ?Hs;
      graph_split; try discriminate; try congruence; auto.
  - simpl. destruct (status s) eqn:Hs; simpl; rewrite ?Hs;
      graph_split; try discriminate; try congruence; auto.
  - simpl. destruct (status s) eqn:Hs; simpl; rewrite ?Hs;
      graph_split; try discriminate; try congruence; auto.
  - simpl handle. rewrite fireMissile_status.
    split; [left; reflexivity|]. split.
    + intros Hp _. destruct (fireMissile_cases tx ty s) as [->|(Hp' & _)];
        [reflexivity|contradiction].
    + graph_split; congruence.
  - destruct (handle_frame_cases time random s) as [->|(Hp & s1 & Hsp & Hu & Heq)].
    + split; [left; reflexivity|].
      graph_split; try reflexivity; try discriminate; congruence.
    + pose proof (@update_status _ time random s _ Hp Hu) as Hst.
      set (s' := handle (AnimationFrame time random) s) in *.
      rewrite Hp, Hst.
      destruct (WIN_SCORE <=? score s)%Z eqn:Hwin.
      * apply Z.leb_le in Hwin.
        graph_split; try reflexivity; try discriminate; try congruence; try lia.
        right. reflexivity.
      * apply Z.leb_gt in Hwin.
        destruct (length (filter Turret.active (turrets s')) =? 0)%nat eqn:Hlen.
        -- graph_split; try reflexivity; try discriminate; try congruence; try lia.
           ++ right. reflexivity.
           ++ apply Nat.eqb_eq in Hlen. unfold noActiveTurret.
              destruct (filter Turret.active (turrets s')); [reflexivity|discriminate].
        -- graph_split; try reflexivity; try discriminate; try congruence; try lia.
           left. reflexivity.
Qed.

(** X2.  Pausing changes the status and nothing else; while the game is
    paused, animation frames and clicks on the canvas have no effect; and
    resuming gives back exactly the state in which the game was paused. *)
Theorem pause_resume (s : GameState) (es : list Event) :
  status s = PLAYING ->
  (forall e, In e es -> isFrame e || isClick e = true) ->
  handle PauseButton s
  = mkState (score s) PAUSED (rockets s) (missiles s) (explosions s)
      (cities s) (turrets s) (lastSpawnTime s) /\
  run es (handle PauseButton s) = handle PauseButton s /\
  handle ResumeButton (run es (handle PauseButton s)) = s.
Proof.
  intros Hp Hes.
  assert (Hpause : handle PauseButton s = setGameState PAUSED s)
    by (simpl; rewrite Hp; reflexivity).
  assert (Hrun : run es (handle PauseButton s) = handle PauseButton s).
  { rewrite Hpause. clear Hpause.
    induction es as [|e es IH] using rev_ind; [reflexivity|].
    rewrite run_snoc, IH.
    - assert (He : isFrame e || isClick e = true) by (apply Hes, in_or_app; right; left; reflexivity).
      destruct e as [now| | | |tx ty|time random]; try discriminate.
      + reflexivity.
      + unfold handle. rewrite (@update_not_PLAYING _ time random (setGameState PAUSED s));
          [reflexivity|discriminate].
    - intros e' Hin. apply Hes, in_or_app. left. exact Hin. }
  split; [rewrite Hpause; reflexivity|]. split; [exact Hrun|].
  rewrite Hrun, Hpause. destruct s; simpl in *. subst. reflexivity.
Qed.

(** X3.  At every point of every run of the mounted component the status
    agrees with the rest of the state: in WON the score is at least
    [WIN_SCORE]; in LOST no turret is active; in PLAYING and in PAUSED some
    turret is active, so that a frame never starts in PLAYING with every
    turret already destroyed. *)
Theorem status_sound_always (es : list Event) :
  let s := run es mountState in
  (status s = WON -> (WIN_SCORE <= score s)%Z) /\
  (status s = LOST -> noActiveTurret s) /\
  (status s = PLAYING \/ status s = PAUSED ->
   exists t, In t (turrets s) /\ Turret.active t = true).
Proof.
  cbv zeta. fold (status_sound (run es mountState)).
  induction es as [|e es IH] using rev_ind.
  - repeat split; try discriminate. intros [H|H]; discriminate.
  - rewrite run_snoc. apply handle_status_sound, IH.
Qed.

End Machine.

(* ================================================================== *)
(** * Further results: the ground, the shots, the missiles *)

Lemma city_step_refl c : city_step c c.
Proof. repeat split; auto. Qed.

Lemma city_step_trans a b c : city_step a b -> city_step b c -> city_step a c.
Proof.
  intros (Hx & Hy & Ha) (Hx' & Hy' & Ha'). repeat split; try congruence. auto.
Qed.

Lemma turret_step_refl t : turret_step t t.
Proof. repeat split; auto. Qed.

Lemma turret_step_trans a b c : turret_step a b -> turret_step b c -> turret_step a c.
Proof.
  intros (Hx & Hy & Hm & Ha) (Hx' & Hy' & Hm' & Ha'). repeat split; try congruence. auto.
Qed.

Lemma Forall2_map_r {A} (R : A -> A -> Prop) (f : A -> A) (l : list A) :
  (forall a, R a (f a)) -> Forall2 R l (map f l).
Proof. intros H. induction l; simpl; constructor; auto. Qed.

Lemma impactCity_step rocket city : city_step city (impactCity rocket city).
Proof.
  destruct (impactCity_spec rocket city) as (Hx & Hy & Ha).
  repeat split; try assumption. intros H. rewrite Ha, H. reflexivity.
Qed.

Lemma impactTurret_step rocket turret : turret_step turret (impactTurret rocket turret).
Proof.
  destruct (impactTurret_spec rocket turret) as (Hx & Hy & _ & Hm & Ha).
  repeat split; try assumption. intros H. rewrite Ha, H. reflexivity.
Qed.

Lemma fold_impactCity_step hits : forall cs,
  Forall2 city_step cs (fold_left (fun cs r => map (impactCity r) cs) hits cs).
Proof.
  induction hits as [|r hits IH]; intros cs; simpl.
  - apply Forall2_refl, city_step_refl.
  - eapply (Forall2_trans city_step_trans); [|apply IH].
    apply Forall2_map_r. intros c. apply impactCity_step.
Qed.

Lemma fold_impactTurret_step hits : forall ts,
  Forall2 turret_step ts (fold_left (fun ts r => map (impactTurret r) ts) hits ts).
Proof.
  induction hits as [|r hits IH]; intros ts; simpl.
  - apply Forall2_refl, turret_step_refl.
  - eapply (Forall2_trans turret_step_trans); [|apply IH].
    apply Forall2_map_r. intros t. apply impactTurret_step.
Qed.

Lemma Forall2_city_site l l' :
  Forall2 city_step l l' -> map city_site l' = map city_site l.
Proof.
  induction 1 as [|c c' l l' (Hx & Hy & _) _ IH]; simpl; [reflexivity|].
  unfold city_site at 1 3. rewrite Hx, Hy, IH. reflexivity.
Qed.

Lemma Forall2_turret_site l l' :
  Forall2 turret_step l l' -> map turret_site l' = map turret_site l.
Proof.
  induction 1 as [|t t' l l' (Hx & Hy & Hm & _) _ IH]; simpl; [reflexivity|].
  unfold turret_site at 1 3. rewrite Hx, Hy, Hm, IH. reflexivity.
Qed.

Lemma fireMissile_turret_step targetX targetY s :
  Forall2 turret_step (turrets s) (turrets (fireMissile targetX targetY s)).
Proof.
  destruct (fireMissile_cases targetX targetY s) as [->|(_ & i & t & Hn & _ & ->)].
  - apply Forall2_refl, turret_step_refl.
  - simpl. apply Forall2_replace with (a := t); [apply turret_step_refl|exact Hn|].
    repeat split; auto.
Qed.

Lemma fireMissile_cities targetX targetY s :
  cities (fireMissile targetX targetY s) = cities s.
Proof.
  destruct (fireMissile_cases targetX targetY s) as [->|(_ & i & t & _ & _ & ->)];
    reflexivity.
Qed.

Lemma totalAmmo_replace l : forall i t t',
  nth_error l i = Some t ->
  totalAmmo (replace i t' l) = (totalAmmo l - Turret.ammo t + Turret.ammo t')%Z.
Proof.
  induction l as [|a l IH]; intros [|i] t t' Hn; simpl in *; try discriminate.
  - injection Hn as ->. lia.
  - rewrite (IH i t t' Hn). lia.
Qed.

Lemma laid_out_turret s t :
  laid_out s -> In t (turrets s) -> In (Turret.x t, Turret.y t) turretSites.
Proof.
  intros [(_ & Ht)|(_ & Ht)] Hin.
  - rewrite Ht in Hin. contradiction.
  - apply (in_map turret_site) in Hin. rewrite Ht in Hin. unfold turret_site in Hin.
    simpl in Hin. unfold turretSites. simpl.
    destruct Hin as [H|[H|[H|[]]]]; injection H as <- <- _; auto.
Qed.

Lemma newMissile_in_flight targetX targetY turret :
  missile_in_flight (newMissile targetX targetY turret).
Proof.
  unfold missile_in_flight, newMissile. simpl. repeat split.
  left. repeat split.
Qed.

Lemma moveMissile_in_flight missile :
  missile_in_flight missile ->
  arrived (moveMissile missile) = false ->
  missile_in_flight (moveMissile missile).
Proof.
  intros (_ & Hd & _) Ha. split; [exact Ha|]. split; [exact Hd|].
  right. split; reflexivity.
Qed.

Section Ground.

Context {M : MathLib}.

Lemma updateRockets_ground s :
  Forall2 city_step (cities s) (cities (updateRockets s)) /\
  Forall2 turret_step (turrets s) (turrets (updateRockets s)).
Proof.
  rewrite updateRockets_eq. simpl. split.
  - apply fold_impactCity_step.
  - apply fold_impactTurret_step.
Qed.

Lemma handle_ground e s :
  isStart e = false ->
  Forall2 city_step (cities s) (cities (handle e s)) /\
  Forall2 turret_step (turrets s) (turrets (handle e s)).
Proof.
  assert (Hrefl : Forall2 city_step (cities s) (cities s) /\
                  Forall2 turret_step (turrets s) (turrets s))
    by (split; apply Forall2_refl; [apply city_step_refl|apply turret_step_refl]).
  destruct e as [now| | | |tx ty|time random]; intros He; try discriminate.
  - simpl. destruct (status s); exact Hrefl.
  - simpl. destruct (status s); exact Hrefl.
  - simpl. destruct (status s); exact Hrefl.
  - simpl. rewrite fireMissile_cities.
    split; [apply Hrefl|apply fireMissile_turret_step].
  - destruct (handle_frame_cases time random s) as [->|(Hp & _ & _ & Hu & _)];
      [exact Hrefl|].
    destruct (@frame_anatomy _ time random s _ Hp Hu)
      as (s1 & _ & _ & (_ & _ & _ & Hc1 & Ht1) & _ & _ & _ & (_ & _ & _ & _ & Hc & Ht & _)).
    rewrite Hc, Ht, <- Hc1, <- Ht1. apply updateRockets_ground.
Qed.

Lemma run_ground es : forall s,
  noStart es ->
  Forall2 city_step (cities s) (cities (run es s)) /\
  Forall2 turret_step (turrets s) (turrets (run es s)).
Proof.
  induction es as [|e es IH] using rev_ind; intros s Hes.
  - split; apply Forall2_refl; [apply city_step_refl|apply turret_step_refl].
  - rewrite run_snoc.
    destruct (IH s) as (Hc & Ht).
    { intros e' Hin. apply Hes, in_or_app. left. exact Hin. }
    destruct (@handle_ground e (run es s)) as (Hc' & Ht').
    { apply Hes, in_or_app. right. left. reflexivity. }
    split.
    + eapply (Forall2_trans city_step_trans); eassumption.
    + eapply (Forall2_trans turret_step_trans); eassumption.
Qed.

Lemma handle_laid_out e s : laid_out s -> laid_out (handle e s).
Proof.
  intros H. destruct (isStart e) eqn:He.
  - destruct e; try discriminate. simpl.
    destruct (status s); try exact H; right; split; vm_compute; reflexivity.
  - destruct (@handle_ground e s He) as (Hc & Ht).
    destruct H as [(Hcs & Hts)|(Hcs & Hts)].
    + left. rewrite Hcs in Hc. rewrite Hts in Ht. inversion Hc. inversion Ht. split; reflexivity.
    + right. rewrite (@Forall2_city_site _ _ Hc), (@Forall2_turret_site _ _ Ht). split; assumption.
Qed.

Lemma run_laid_out es : laid_out (run es mountState).
Proof.
  induction es as [|e es IH] using rev_ind.
  - left. split; reflexivity.
  - rewrite run_snoc. apply handle_laid_out, IH.
Qed.

(** X4.  The ground is steady.  Over every event other than a start or a
    restart, and over every run of such events, the cities and the turrets
    keep their number, their order and their positions, a turret keeps its
    capacity, and a city or turret that is inactive stays inactive: nothing
    is rebuilt.  At every point of a run of the mounted component the cities
    and turrets are none (before the first start) or stand at the six city
    sites and three turret sites of [initGame].  Only a click on the canvas
    spends ammo. *)
Theorem ground_steady :
  (forall e s, isStart e = false ->
     Forall2 city_step (cities s) (cities (handle e s)) /\
     Forall2 turret_step (turrets s) (turrets (handle e s))) /\
  (forall es s, noStart es ->
     Forall2 city_step (cities s) (cities (run es s)) /\
     Forall2 turret_step (turrets s) (turrets (run es s))) /\
  (forall es, laid_out (run es mountState)) /\
  (forall e s, isStart e = false -> isClick e = false ->
     map Turret.ammo (turrets (handle e s)) = map Turret.ammo (turrets s)).
Proof.
  split; [exact handle_ground|]. split; [exact run_ground|].
  split; [exact run_laid_out|].
  intros e s Hs Hc. destruct e as [now| | | |tx ty|time random]; try discriminate.
  - simpl. destruct (status s); reflexivity.
  - simpl. destruct (status s); reflexivity.
  - simpl. destruct (status s); reflexivity.
  - simpl. destruct (update time random s) as [s'|] eqn:Hu; [|reflexivity].
    apply (@update_turret_field _ _ Turret.ammo time random s s'); [|exact Hu].
    intros r t. apply impactTurret_fields.
Qed.

(** X5.  A call of [fireMissile], whatever the state and the target: the
    score, the status, the rockets, the explosions, the cities and the spawn
    clock are untouched; the turrets keep their positions, their active flags
    and their capacities; at most one missile is appended to the missiles,
    none is removed or changed; the missile appended starts at an eligible
    turret of the state, at progress 0, aimed at the target, with the
    Euclidean distance between the two; and the ammo of all turrets together
    falls by exactly the number of missiles fired. *)
Theorem fireMissile_effect (targetX targetY : number) (s : GameState) :
  let s' := fireMissile targetX targetY s in
  (score s' = score s /\ status s' = status s /\ rockets s' = rockets s /\
   explosions s' = explosions s /\ cities s' = cities s /\
   lastSpawnTime s' = lastSpawnTime s) /\
  (map Turret.x (turrets s') = map Turret.x (turrets s) /\
   map Turret.y (turrets s') = map Turret.y (turrets s) /\
   map Turret.active (turrets s') = map Turret.active (turrets s) /\
   map Turret.maxAmmo (turrets s') = map Turret.maxAmmo (turrets s)) /\
  exists fired,
    missiles s' = missiles s ++ fired /\
    (length fired <= 1)%nat /\
    totalAmmo (turrets s') = (totalAmmo (turrets s) - Z.of_nat (length fired))%Z /\
    forall missile, In missile fired ->
      exists turret,
        In turret (turrets s) /\ eligible turret = true /\
        missile
        = Missile.mk (Turret.x turret) (Turret.y turret) targetX targetY
            (Turret.x turret) (Turret.y turret) 0%float
            (euclid (targetX - Turret.x turret) (targetY - Turret.y turret))%float.
Proof.
  cbv zeta.
  split; [|split].
  - destruct (fireMissile_cases targetX targetY s) as [->|(_ & i & t & _ & _ & ->)];
      repeat split.
  - repeat split; apply fireMissile_turret_field; reflexivity.
  - destruct (fireMissile_cases targetX targetY s) as [->|(_ & i & t & Hn & He & ->)].
    + exists []. rewrite app_nil_r. repeat split; simpl; try lia; try contradiction.
    + exists [newMissile targetX targetY t]. simpl.
      split; [reflexivity|]. split; [lia|]. split.
      * rewrite (@totalAmmo_replace (turrets s) i t _ Hn). simpl. lia.
      * intros m [<-|[]]. exists t. split; [eapply nth_error_In, Hn|].
        split; [exact He|reflexivity].
Qed.

(** X6.  The missile phase of a frame in closed form.  Every missile is
    advanced once; the missiles left are the advanced missiles with
    [progress < 1] (or NaN), in order; for each advanced missile with
    [progress >= 1], and for no other, one explosion is appended at the
    missile's target, at rest, with radius 46 and duration 60; nothing else
    changes.  So every missile of the list is, after the phase, either still
    a missile or exactly one new explosion; and advancing a missile never
    changes its target, its start or its distance. *)
Theorem missile_phase (s : GameState) :
  let moved := map moveMissile (missiles s) in
  let s' := updateMissiles s in
  s' = mkState (score s) (status s) (rockets s)
         (filter (fun missile => negb (arrived missile)) moved)
         (explosions s ++ map detonationExplosion (filter arrived moved))
         (cities s) (turrets s) (lastSpawnTime s) /\
  (length (missiles s') + length (filter arrived moved) = length (missiles s))%nat /\
  (length (explosions s') = length (explosions s) + length (filter arrived moved))%nat /\
  (forall missile,
     detonationExplosion (moveMissile missile)
     = Explosion.mk (Missile.targetX missile) (Missile.targetY missile) 0%float
         46%float 0%float 60%float) /\
  (forall missile,
     let missile' := moveMissile missile in
     Missile.targetX missile' = Missile.targetX missile /\
     Missile.targetY missile' = Missile.targetY missile /\
     Missile.startX missile' = Missile.startX missile /\
     Missile.startY missile' = Missile.startY missile /\
     Missile.distance missile' = Missile.distance missile).
Proof.
  cbv zeta. rewrite updateMissiles_eq. simpl.
  split; [reflexivity|]. split; [|split; [|split]].
  - rewrite filter_split_length, length_map. reflexivity.
  - rewrite length_app, length_map. reflexivity.
  - reflexivity.
  - repeat split.
Qed.

Lemma handle_missiles e s :
  laid_out s ->
  Forall (fun m => missile_in_flight m /\ launched_from_site m) (missiles s) ->
  Forall (fun m => missile_in_flight m /\ launched_from_site m) (missiles (handle e s)).
Proof.
  intros Hl H. destruct e as [now| | | |tx ty|time random].
  - simpl. destruct (status s); try exact H; constructor.
  - simpl. destruct (status s); exact H.
  - simpl. destruct (status s); exact H.
  - simpl. destruct (status s); exact H.
  - simpl. destruct (fireMissile_cases tx ty s) as [->|(_ & i & t & Hn & _ & ->)];
      [exact H|]. simpl.
    apply Forall_app. split; [exact H|]. constructor; [|constructor].
    split; [apply newMissile_in_flight|].
    apply (@laid_out_turret s t Hl). eapply nth_error_In, Hn.
  - destruct (handle_frame_cases time random s) as [->|(Hp & _ & _ & Hu & _)];
      [exact H|].
    destruct (@frame_anatomy _ time random s _ Hp Hu)
      as (s1 & _ & _ & _ & (_ & Hm2) & _ & _ & (_ & _ & Hm & _)).
    rewrite Hm, updateMissiles_eq. simpl. rewrite Hm2.
    clear - H. induction H as [|m ms (Hf & Hs) _ IH]; simpl; [constructor|].
    destruct (arrived (moveMissile m)) eqn:Ha; simpl; [exact IH|].
    constructor; [|exact IH]. split.
    + apply moveMissile_in_flight; assumption.
    + exact Hs.
Qed.

(** X7.  Every missile in the list, at every point of every run of the
    mounted component, is in flight: its progress is not at or above 1 (a
    missile that arrives is removed in the frame in which it arrives); its
    distance is the Euclidean distance from its start to its target, computed
    when it was fired; it is at its start with progress 0 (just fired) or at
    the point [start + (target - start) * progress]; and its start is one of
    the three turret sites. *)
Theorem missiles_in_flight (es : list Event) (missile : Missile.t) :
  In missile (missiles (run es mountState)) ->
  missile_in_flight missile /\ launched_from_site missile.
Proof.
  revert missile.
  assert (H : Forall (fun m => missile_in_flight m /\ launched_from_site m)
                (missiles (run es mountState))).
  { induction es as [|e es IH] using rev_ind; [constructor|].
    rewrite run_snoc. apply handle_missiles; [apply run_laid_out|exact IH]. }
  intros m Hin. rewrite Forall_forall in H. apply H, Hin.
Qed.

End Ground.

(* ================================================================== *)
(** * Further results: rockets, the books of a frame, the score, radii *)

Lemma filter_with_length {A S} (callback : A -> S -> option A * S) (arr : list A) :
  forall s, (length (fst (filter_with callback arr s)) <= length arr)%nat.
Proof.
  induction arr as [|a rest IH]; intros s; [simpl; lia|].
  rewrite filter_with_fst. specialize (IH (snd (callback a s))).
  destruct (fst (callback a s)); simpl; lia.
Qed.

Lemma updateExplosions_length s :
  (length (explosions (updateExplosions s)) <= length (explosions s))%nat.
Proof.
  unfold updateExplosions.
  pose proof (filter_with_length explosionCallback (explosions s) s) as H.
  destruct (filter_with explosionCallback (explosions s) s) as [kept s1].
  exact H.
Qed.

Lemma laid_out_city s c :
  laid_out s -> In c (cities s) -> In (City.x c, City.y c) citySites.
Proof.
  intros [(Hc & _)|(Hc & _)] Hin.
  - rewrite Hc in Hin. contradiction.
  - apply (in_map city_site) in Hin. rewrite Hc in Hin. exact Hin.
Qed.

Lemma laid_out_target s target :
  laid_out s -> In target (activeTargets s) ->
  In (Target_x target, Target_y target) (citySites ++ turretSites).
Proof.
  intros Hl Hin. unfold activeTargets in Hin.
  apply in_app_or in Hin. apply in_or_app.
  destruct Hin as [Hin|Hin]; apply in_map_iff in Hin; destruct Hin as (a & <- & Hin);
    apply filter_In in Hin; destruct Hin as (Hin & _).
  - left. apply (@laid_out_city s a Hl Hin).
  - right. apply (@laid_out_turret s a Hl Hin).
Qed.

Lemma JS_get_In {A} (arr : list A) i a : JS.get arr i = Some a -> In a arr.
Proof.
  unfold JS.get. destruct (JS.floorZ i) as [z|]; [|discriminate].
  destruct ((0 <=? z)%Z && (JS.ofZ z =? i)%float); [|discriminate].
  apply nth_error_In.
Qed.

Lemma leb_ltb_trans x y z :
  (x <=? y)%float = true -> (y <? z)%float = true -> (x <? z)%float = true.
Proof.
  rewrite !FloatOrder.ltb_cmp, FloatOrder.leb_cmp. unfold fcmp. intros [H|H] H'.
  - eapply FloatOrder.SFcompare_lt_trans; eassumption.
  - eapply FloatOrder.SFcompare_eq_lt_trans; eassumption.
Qed.

Lemma spawnRate_floor sc : (spawnRate sc <? 500)%float = false.
Proof. unfold spawnRate. apply Math_max_floor. reflexivity. Qed.

Lemma radius_ok_spec maxRadius maxLife frames n :
  radius_ok maxRadius maxLife frames = true ->
  (n < frames)%nat ->
  let life := JS.ofZ (Z.of_nat n) in
  let r := envelope maxRadius maxLife life in
  let r' := envelope maxRadius maxLife (JS.ofZ (Z.of_nat (S n))) in
  (0 <=? r)%float = true /\ (r <=? maxRadius)%float = true /\
  (if (life <? maxLife / 2)%float then (r <? r')%float else (r' <? r)%float) = true.
Proof.
  intros Hok Hn. cbv zeta.
  unfold radius_ok in Hok. rewrite forallb_forall in Hok.
  specialize (Hok n). rewrite in_seq in Hok. specialize (Hok ltac:(lia)).
  cbv zeta in Hok.
  apply andb_prop in Hok. destruct Hok as [Hok H3].
  apply andb_prop in Hok. destruct Hok as [H1 H2].
  split; [exact H1|]. split; [exact H2|].
  destruct (JS.ofZ (Z.of_nat n) <? maxLife / 2)%float; [exact H3|].
  apply orb_prop in H3. destruct H3 as [H3|H3]; [|exact H3].
  apply Nat.leb_le in H3. lia.
Qed.

Lemma radius_detonation : radius_ok 46%float 60%float 60 = true.
Proof. vm_compute. reflexivity. Qed.

Lemma radius_impact : radius_ok 20%float 30%float 30 = true.
Proof. vm_compute. reflexivity. Qed.

Section Books.

Context {M : MathLib}.

Lemma spawnRocket_cases random s s1 :
  spawnRocket random s = Normal s1 ->
  s1 = s \/
  exists target,
    In target (activeTargets s) /\
    s1 = mkState (score s) (status s)
           (rockets s ++
            [Rocket.mk (random 0%nat * GAME_WIDTH)%float (-20)%float
               (Target_x target) (Target_y target)
               (ROCKET_SPEED_MIN + random 2%nat * (ROCKET_SPEED_MAX - ROCKET_SPEED_MIN))%float
               (Math_atan2 (Target_y target - -20)%float
                  (Target_x target - random 0%nat * GAME_WIDTH)%float)])
           (missiles s) (explosions s) (cities s) (turrets s) (lastSpawnTime s).
Proof.
  unfold spawnRocket.
  destruct (length (activeTargets s) =? 0)%nat.
  - intros H. injection H as <-. left. reflexivity.
  - destruct (JS.get (activeTargets s) _) as [target|] eqn:Hg; [|discriminate].
    intros H. injection H as <-. right. exists target.
    split; [apply (@JS_get_In _ _ _ _ Hg)|reflexivity].
Qed.

Lemma spawnPhase_cases time random s s1 :
  spawnPhase time random s = Normal s1 ->
  ((spawnRate (score s) <? time - lastSpawnTime s)%float = false /\ s1 = s) \/
  ((spawnRate (score s) <? time - lastSpawnTime s)%float = true /\
   exists s0, spawnRocket random s = Normal s0 /\ s1 = set_lastSpawnTime time s0).
Proof.
  unfold spawnPhase, JS.gtb.
  destruct (spawnRate (score s) <? time - lastSpawnTime s)%float.
  - destruct (spawnRocket random s) as [s0|]; simpl; [|discriminate].
    intros H. injection H as <-. right. split; [reflexivity|]. exists s0. split; reflexivity.
  - intros H. injection H as <-. left. split; reflexivity.
Qed.

(** The rockets after the spawn phase: those before it, and at most one more,
    aimed at an active city or turret. *)
Lemma spawnPhase_rockets time random s s1 :
  spawnPhase time random s = Normal s1 ->
  rockets s1 = rockets s \/
  exists target startX speed angle,
    In target (activeTargets s) /\
    (spawnRate (score s) <? time - lastSpawnTime s)%float = true /\
    rockets s1 = rockets s ++ [Rocket.mk startX (-20)%float (Target_x target)
                                 (Target_y target) speed angle].
Proof.
  intros H. destruct (@spawnPhase_cases time random s s1 H) as [(_ & ->)|(Hdue & s0 & Hs0 & ->)].
  - left. reflexivity.
  - destruct (@spawnRocket_cases random s s0 Hs0) as [->|(target & Hin & ->)].
    + left. reflexivity.
    + right. do 4 eexists. split; [exact Hin|]. split; [exact Hdue|]. reflexivity.
Qed.

(** The books of a frame run in PLAYING, with the counts written out. *)
Lemma frame_counts time random s s' :
  status s = PLAYING ->
  update time random s = Normal s' ->
  exists s1,
    spawnPhase time random s = Normal s1 /\
    let moved := map moveRocket (rockets s1) in
    let s3 := updateMissiles (updateRockets s1) in
    let hits := length (filter reachedTarget moved) in
    let detonated := length (filter arrived (map moveMissile (missiles s))) in
    (length (rockets s1) <= S (length (rockets s)))%nat /\
    (length (rockets s) <= length (rockets s1))%nat /\
    (length (rockets s3) + hits <= length (rockets s1))%nat /\
    (length (rockets s') <= length (rockets s3))%nat /\
    (length (missiles s') + detonated = length (missiles s))%nat /\
    (length (explosions s') <= length (explosions s) + hits + detonated)%nat /\
    score s' = (score s + POINTS_PER_ROCKET
                          * (Z.of_nat (length (rockets s3))
                             - Z.of_nat (length (rockets s'))))%Z.
Proof.
  intros Hp Hu.
  destruct (@frame_anatomy _ time random s s' Hp Hu)
    as (s1 & Hsp & _ & (_ & Hm1 & He1 & _) & (_ & Hm2) & (Hs3 & Hr3 & _)
        & _ & (Hs' & Hr' & Hm' & He' & _)).
  exists s1. split; [exact Hsp|]. cbv zeta.
  set (s2 := updateRockets s1) in *. set (s3 := updateMissiles s2) in *.
  destruct (updateExplosions_score s3) as (Hsc & Hlen & _).
  pose proof (updateExplosions_length s3) as Hel.
  assert (Hr2 : rockets s2
                = filter (fun r => negb (reachedTarget r) && (Rocket.y r <? GAME_HEIGHT)%float)
                    (map moveRocket (rockets s1)))
    by (unfold s2; rewrite updateRockets_eq; reflexivity).
  assert (He2 : explosions s2
                = explosions s1
                  ++ map impactExplosion (filter reachedTarget (map moveRocket (rockets s1))))
    by (unfold s2; rewrite updateRockets_eq; reflexivity).
  assert (Hm3 : missiles s3
                = filter (fun m => negb (arrived m)) (map moveMissile (missiles s2)))
    by (unfold s3; rewrite updateMissiles_eq; reflexivity).
  assert (He3 : explosions s3
                = explosions s2
                  ++ map detonationExplosion (filter arrived (map moveMissile (missiles s2))))
    by (unfold s3; rewrite updateMissiles_eq; reflexivity).
  rewrite Hm2 in Hm3, He3.
  split; [|split; [|split; [|split; [|split; [|split]]]]].
  - destruct (@spawnPhase_rockets time random s s1 Hsp) as [->|(? & ? & ? & ? & _ & _ & ->)];
      [lia|rewrite length_app; simpl; lia].
  - destruct (@spawnPhase_rockets time random s s1 Hsp) as [->|(? & ? & ? & ? & _ & _ & ->)];
      [lia|rewrite length_app; simpl; lia].
  - rewrite Hr3, Hr2.
    set (moved := map moveRocket (rockets s1)).
    assert (Hsplit : (length (filter (fun r => negb (reachedTarget r)) moved)
                      + length (filter reachedTarget moved) = length moved)%nat)
      by apply filter_split_length.
    assert (Hle : (length (filter (fun r => negb (reachedTarget r)
                                            && (Rocket.y r <? GAME_HEIGHT)%float) moved)
                   <= length (filter (fun r => negb (reachedTarget r)) moved))%nat).
    { clear. induction moved as [|r l IH]; simpl; [lia|].
      destruct (reachedTarget r); simpl; [exact IH|].
      destruct (Rocket.y r <? GAME_HEIGHT)%float; simpl; lia. }
    unfold moved in *. rewrite length_map in Hsplit. lia.
  - rewrite Hr'. exact Hlen.
  - rewrite Hm', Hm3, filter_split_length, length_map. reflexivity.
  - rewrite He'. rewrite He3, He2, He1, !length_app, !length_map in Hel. lia.
  - rewrite Hs', Hr', Hsc, Hs3. reflexivity.
Qed.

Lemma handle_rockets e s :
  laid_out s ->
  Forall (fun r => rocket_in_flight r /\ aimed_at_site r) (rockets s) ->
  Forall (fun r => rocket_in_flight r /\ aimed_at_site r) (rockets (handle e s)).
Proof.
  intros Hl H. destruct e as [now| | | |tx ty|time random].
  - simpl. destruct (status s); try exact H; constructor.
  - simpl. destruct (status s); exact H.
  - simpl. destruct (status s); exact H.
  - simpl. destruct (status s); exact H.
  - simpl. destruct (fireMissile_cases tx ty s) as [->|(_ & i & t & _ & _ & ->)]; exact H.
  - destruct (handle_frame_cases time random s) as [->|(Hp & _ & _ & Hu & _)];
      [exact H|].
    destruct (@frame_anatomy _ time random s _ Hp Hu)
      as (s1 & Hsp & _ & _ & _ & (_ & Hr3 & _) & _ & (_ & Hr' & _)).
    rewrite Forall_forall. intros r' Hin. rewrite Hr' in Hin.
    destruct (updateExplosions_score (updateMissiles (updateRockets s1))) as (_ & _ & Hincl).
    apply Hincl in Hin. rewrite Hr3, updateRockets_eq in Hin. simpl in Hin.
    apply filter_In in Hin. destruct Hin as (Hin & Hkeep).
    apply andb_prop in Hkeep. destruct Hkeep as (Hnr & Hy).
    split; [split; [exact Hy|apply negb_true_iff, Hnr]|].
    apply in_map_iff in Hin. destruct Hin as (r & <- & Hin).
    unfold aimed_at_site. simpl.
    rewrite Forall_forall in H.
    destruct (@spawnPhase_rockets time random s s1 Hsp) as [Heq|(target & ? & ? & ? & Ht & _ & Heq)];
      rewrite Heq in Hin.
    + apply (H r Hin).
    + apply in_app_or in Hin. destruct Hin as [Hin|[<-|[]]].
      * apply (H r Hin).
      * simpl. apply (@laid_out_target s target Hl Ht).
Qed.

(** X8.  Every rocket in the list, at every point of every run of the
    mounted component, is in flight: it is above the bottom edge
    ([y < GAME_HEIGHT]) and not within 5 units of its target, since a rocket
    that reaches its target or the bottom edge is removed in the same frame;
    and it is aimed at one of the six city sites or three turret sites. *)
Theorem rockets_in_flight (es : list Event) (rocket : Rocket.t) :
  In rocket (rockets (run es mountState)) ->
  ((Rocket.y rocket <? GAME_HEIGHT)%float = true /\ reachedTarget rocket = false) /\
  In (Rocket.targetX rocket, Rocket.targetY rocket) (citySites ++ turretSites).
Proof.
  revert rocket.
  assert (H : Forall (fun r => rocket_in_flight r /\ aimed_at_site r)
                (rockets (run es mountState))).
  { induction es as [|e es IH] using rev_ind; [constructor|].
    rewrite run_snoc. apply handle_rockets; [apply run_laid_out|exact IH]. }
  intros r Hin. rewrite Forall_forall in H. apply (H r Hin).
Qed.

Lemma filter_three_length {A} (p q : A -> bool) (l : list A) :
  (length (filter (fun a => negb (p a) && q a) l)
   + length (filter p l)
   + length (filter (fun a => negb (p a) && negb (q a)) l)
   = length l)%nat.
Proof.
  induction l as [|a l IH]; simpl; [reflexivity|].
  destruct (p a), (q a); simpl; lia.
Qed.

(** X9.  The books of a frame run in PLAYING, entry by entry.  With [s1] the
    state left by the spawn phase: [s1] has the rockets of [s] and at most
    one more; every rocket of [s1], after its move, hits its target
    ([rocketsHit]), falls to the bottom edge ([rocketsFallen]) or flies on
    ([rocketsFlying]); the rockets after the frame and the score after the
    frame are what the explosions lit in the frame (those before it, one per
    hit, one per detonation) leave of the flying rockets, taking them in
    turn, at [POINTS_PER_ROCKET] per rocket destroyed; the missiles after
    the frame are the missiles of [s] less those that detonate
    ([missilesDetonated]), and no missile is added; the explosions after the
    frame are the explosions lit less those that expire
    ([explosionsExpired]).  So the counts balance: rockets after + hits +
    fallen + destroyed = rockets of [s1]; missiles after + detonated =
    missiles before; explosions after + expired = explosions before + hits
    + detonated; score after = score before + 20 x destroyed. *)
Theorem frame_accounting time random (s s' : GameState) :
  status s = PLAYING ->
  update time random s = Normal s' ->
  exists s1,
    spawnPhase time random s = Normal s1 /\
    let hits := rocketsHit s1 in
    let fallen := rocketsFallen s1 in
    let flying := rocketsFlying s1 in
    let detonated := missilesDetonated s in
    let lit := explosions s ++ map impactExplosion hits
               ++ map detonationExplosion detonated in
    let expired := explosionsExpired lit in
    let destroyed := (length flying - length (rockets s'))%nat in
    (rockets s1 = rockets s \/ exists rocket, rockets s1 = rockets s ++ [rocket]) /\
    (rockets s', score s') = blast lit flying (score s) /\
    incl (rockets s') flying /\
    missiles s'
    = filter (fun missile => negb (arrived missile)) (map moveMissile (missiles s)) /\
    explosions s'
    = filter (fun exp => (Explosion.life exp <? Explosion.maxLife exp)%float)
        (map growExplosion lit) /\
    (length (rockets s') + length hits + length fallen + destroyed
     = length (rockets s1))%nat /\
    (length (missiles s') + length detonated = length (missiles s))%nat /\
    (length (explosions s') + length expired
     = length (explosions s) + length hits + length detonated)%nat /\
    score s' = (score s + POINTS_PER_ROCKET * Z.of_nat destroyed)%Z.
Proof.
  intros Hp Hu.
  destruct (@frame_anatomy _ time random s s' Hp Hu)
    as (s1 & Hsp & _ & (_ & Hm1 & He1 & _) & (_ & Hm2) & (Hs3 & Hr3 & _)
        & _ & (Hs' & Hr' & Hm' & He' & _)).
  exists s1. split; [exact Hsp|]. cbv zeta.
  unfold rocketsHit, rocketsFallen, rocketsFlying, missilesDetonated, explosionsExpired.
  set (s2 := updateRockets s1) in *. set (s3 := updateMissiles s2) in *.
  set (moved := map moveRocket (rockets s1)).
  set (arrivals := filter arrived (map moveMissile (missiles s))).
  assert (Hr2 : rockets s2
                = filter (fun r => negb (reachedTarget r) && (Rocket.y r <? GAME_HEIGHT)%float)
                    moved)
    by (unfold s2; rewrite updateRockets_eq; reflexivity).
  assert (He2 : explosions s2
                = explosions s1 ++ map impactExplosion (filter reachedTarget moved))
    by (unfold s2; rewrite updateRockets_eq; reflexivity).
  assert (Hm3 : missiles s3
                = filter (fun m => negb (arrived m)) (map moveMissile (missiles s)))
    by (unfold s3; rewrite updateMissiles_eq; cbn [missiles]; rewrite Hm2; reflexivity).
  assert (He3 : explosions s3
                = explosions s ++ map impactExplosion (filter reachedTarget moved)
                  ++ map detonationExplosion arrivals)
    by (unfold s3; rewrite updateMissiles_eq; cbn [explosions];
        rewrite Hm2, He2, He1, <- app_assoc; reflexivity).
  destruct (updateExplosions_score s3) as (Hsc & Hlen & Hincl).
  pose proof (updateExplosions_blast s3) as Hblast.
  rewrite Hr3, Hr2, Hs3, He3 in Hblast.
  rewrite Hr3, Hr2 in Hincl, Hlen, Hsc.
  pose proof (filter_three_length reachedTarget
                (fun r => (Rocket.y r <? GAME_HEIGHT)%float) moved) as H3.
  assert (Hmoved : length moved = length (rockets s1)) by (unfold moved; apply length_map).
  split; [|split; [|split; [|split; [|split; [|split; [|split; [|split]]]]]]].
  - destruct (@spawnPhase_rockets time random s s1 Hsp) as [H|(? & ? & ? & ? & _ & _ & H)];
      [left; exact H|right; eexists; exact H].
  - rewrite Hr', Hs'. exact Hblast.
  - rewrite Hr'. exact Hincl.
  - rewrite Hm'. exact Hm3.
  - rewrite He', updateExplosions_explosions, He3. reflexivity.
  - rewrite Hr'. lia.
  - rewrite Hm', Hm3. unfold arrivals. rewrite filter_split_length, length_map. reflexivity.
  - rewrite He', updateExplosions_explosions, He3.
    set (lit := explosions s ++ map impactExplosion (filter reachedTarget moved)
                ++ map detonationExplosion arrivals).
    pose proof (filter_split_length
                  (fun exp => (Explosion.life exp <? Explosion.maxLife exp)%float)
                  (map growExplosion lit)) as Hx.
    rewrite length_map in Hx. unfold lit at 3 in Hx.
    rewrite !length_app, !length_map in Hx. lia.
  - rewrite Hs', Hsc, Hs3, Hr'. f_equal. f_equal. lia.
Qed.

Lemma handle_score_gain e s :
  isStart e = false ->
  exists k : nat, score (handle e s) = (score s + POINTS_PER_ROCKET * Z.of_nat k)%Z.
Proof.
  assert (H0 : exists k : nat, score s = (score s + POINTS_PER_ROCKET * Z.of_nat k)%Z)
    by (exists 0%nat; lia).
  intros He. destruct e as [now| | | |tx ty|time random]; try discriminate.
  - simpl. destruct (status s); exact H0.
  - simpl. destruct (status s); exact H0.
  - simpl. destruct (status s); exact H0.
  - simpl. rewrite fireMissile_score. exact H0.
  - destruct (handle_frame_cases time random s) as [->|(Hp & _ & _ & Hu & _)];
      [exact H0|].
    destruct (@frame_counts time random s _ Hp Hu) as (s1 & _ & _ & _ & _ & H4 & _ & _ & H7).
    exists (length (rockets (updateMissiles (updateRockets s1)))
            - length (rockets (handle (AnimationFrame time random) s)))%nat.
    rewrite H7. f_equal. f_equal. lia.
Qed.

(** X10.  At every point of every run of the mounted component the score is
    [POINTS_PER_ROCKET] times a natural number: it is never negative and
    never off the grid of 20 points; and over an event that is not a start
    or restart it grows by such a multiple. *)
Theorem score_on_grid :
  (forall es, exists k : nat,
     score (run es mountState) = (POINTS_PER_ROCKET * Z.of_nat k)%Z) /\
  (forall e s, isStart e = false ->
     exists k : nat, score (handle e s) = (score s + POINTS_PER_ROCKET * Z.of_nat k)%Z).
Proof.
  split; [|exact handle_score_gain].
  induction es as [|e es (k & IH)] using rev_ind.
  - exists 0%nat. reflexivity.
  - rewrite run_snoc. destruct (isStart e) eqn:He.
    + destruct e; try discriminate. simpl.
      destruct (status (run es mountState)) eqn:Hs;
        try (exists k; exact IH); exists 0%nat; reflexivity.
    + destruct (@handle_score_gain e (run es mountState) He) as (k' & ->).
      exists (k + k')%nat. rewrite IH. lia.
Qed.

(** X11.  Every explosion in the list, at every point of every run of the
    mounted component, has a radius between 0 and its [maxRadius], which is
    at most [EXPLOSION_RADIUS_MAX]; and its next radius is strictly greater
    while its life is below half of [maxLife], strictly smaller from there
    on: the blast swells, then shrinks, and never exceeds 46 units. *)
Theorem explosion_radius_bounds (es : list Event) (exp : Explosion.t) :
  In exp (explosions (run es mountState)) ->
  (0 <=? Explosion.radius exp)%float = true /\
  (Explosion.radius exp <=? Explosion.maxRadius exp)%float = true /\
  (Explosion.maxRadius exp <=? EXPLOSION_RADIUS_MAX)%float = true /\
  (if (Explosion.life exp <? Explosion.maxLife exp / 2)%float
   then (Explosion.radius exp <? Explosion.radius (growExplosion exp))%float
   else (Explosion.radius (growExplosion exp) <? Explosion.radius exp)%float) = true.
Proof.
  intros Hin.
  pose proof (run_tracked es) as Ht. rewrite Forall_forall in Ht.
  destruct (Ht exp Hin) as (origin & frames & n & Hc & Hn & ->).
  destruct (@created_lifecycle origin frames n Hc ltac:(lia)) as (Hl & Hr & Hmr & Hml & _).
  destruct (@created_lifecycle origin frames (S n) Hc ltac:(lia)) as (_ & Hr' & Hmr' & Hml' & _).
  change (growExplosion (aged n origin)) with (aged (S n) origin).
  rewrite Hr, Hr', Hl, Hmr, Hml, Hmr', Hml'.
  destruct Hc as (_ & _ & [(-> & -> & ->)|(-> & -> & ->)]).
  - destruct (@radius_ok_spec 46%float 60%float 60 n radius_detonation Hn) as (H1 & H2 & H3).
    repeat split; try assumption.
  - destruct (@radius_ok_spec 20%float 30%float 30 n radius_impact Hn) as (H1 & H2 & H3).
    repeat split; try assumption.
Qed.

(** X12.  The spawn clock.  A frame run in PLAYING either is not due, and
    then it leaves the spawn clock alone and spawns nothing, or is due, and
    then more than 500 ms have passed since the clock was last set and the
    clock is set to the frame's time, whether or not a rocket could be
    created: two spawns are always more than 500 ms apart. *)
Theorem spawn_clock time random (s s' : GameState) :
  status s = PLAYING ->
  update time random s = Normal s' ->
  ((spawnRate (score s) <? time - lastSpawnTime s)%float = false /\
   lastSpawnTime s' = lastSpawnTime s /\
   spawnPhase time random s = Normal s) \/
  ((spawnRate (score s) <? time - lastSpawnTime s)%float = true /\
   (500 <? time - lastSpawnTime s)%float = true /\
   lastSpawnTime s' = time).
Proof.
  intros Hp Hu.
  destruct (@frame_anatomy _ time random s s' Hp Hu)
    as (s1 & Hsp & _ & _ & _ & _ & _ & (_ & _ & _ & _ & _ & _ & Hlt)).
  destruct (@spawnPhase_cases time random s s1 Hsp) as [(Hdue & ->)|(Hdue & s0 & Hs0 & ->)].
  - left. repeat split; assumption.
  - right. split; [exact Hdue|]. split; [|exact Hlt].
    apply leb_ltb_trans with (y := spawnRate (score s)); [|exact Hdue].
    apply FloatOrder.not_ltb_leb; [|apply spawnRate_floor].
    apply FloatOrder.cmp_comparable with (y := (time - lastSpawnTime s)%float).
    + apply FloatOrder.ltb_cmp in Hdue. congruence.
    + vm_compute. discriminate.
Qed.

End Books.

(* ================================================================== *)
(** * Further results: targets that are not numbers, clicks on the canvas *)

(** A value that is NaN or an infinity, in the terms of the specification of
    binary64. *)
Lemma nonfinite_cases x :
  is_nan x || is_infinity x = true ->
  Prim2SF x = S754_nan \/ exists sign, Prim2SF x = S754_infinity sign.
Proof.
  unfold is_nan, is_infinity. rewrite !eqb_spec, abs_spec.
  destruct (Prim2SF x) as [b|b| |b m e]; simpl.
  - discriminate.
  - intros _. right. exists b. reflexivity.
  - intros _. left. reflexivity.
  - unfold SFeqb. simpl. rewrite Z.compare_refl. fold (Pos.compare m m).
    rewrite Pos.compare_refl. destruct b; discriminate.
Qed.

Lemma hdist_nonfinite targetX turret :
  Prim2SF targetX = S754_nan \/ (exists sign, Prim2SF targetX = S754_infinity sign) ->
  (hdist targetX turret <? infinity)%float = false.
Proof.
  intros H. unfold hdist, JS.Math_abs. rewrite ltb_spec, abs_spec, sub_spec.
  destruct H as [->|(sign & ->)];
    destruct (Prim2SF (Turret.x turret)) as [b|b| |b m e]; try reflexivity;
    destruct sign, b; reflexivity.
Qed.

Lemma findBestTurret_nonfinite targetX ts : forall i,
  (forall t, (hdist targetX t <? infinity)%float = false) ->
  findBestTurret targetX ts i None infinity = None.
Proof.
  induction ts as [|t ts IH]; intros i H; simpl; [reflexivity|].
  fold (hdist targetX t). rewrite (H t).
  destruct (eligible t); apply IH, H.
Qed.

Lemma fireMissile_nonfinite_SF targetX targetY s :
  Prim2SF targetX = S754_nan \/ (exists sign, Prim2SF targetX = S754_infinity sign) ->
  fireMissile targetX targetY s = s.
Proof.
  intros H. unfold fireMissile.
  destruct (negb (GameStatus_eqb (status s) PLAYING)); [reflexivity|].
  rewrite findBestTurret_nonfinite; [reflexivity|].
  intros t. apply hdist_nonfinite, H.
Qed.

Lemma eqb_zero_SF x :
  (x =? 0)%float = true -> exists sign, Prim2SF x = S754_zero sign.
Proof.
  rewrite eqb_spec.
  destruct (Prim2SF x) as [b|b| |b m e]; try (destruct b; discriminate); try discriminate.
  intros _. exists b. reflexivity.
Qed.

(** Any number times a quotient by zero of a non-zero number. *)
Lemma mul_div_zero_nonfinite d w :
  (w =? 0)%float = true ->
  let x := (d * (GAME_WIDTH / w))%float in
  Prim2SF x = S754_nan \/ exists sign, Prim2SF x = S754_infinity sign.
Proof.
  intros Hw. cbv zeta. destruct (@eqb_zero_SF _ Hw) as (b & Hz).
  rewrite mul_spec, div_spec, Hz.
  change (Prim2SF GAME_WIDTH) with (Prim2SF 800%float).
  replace (SF64div (Prim2SF 800%float) (S754_zero b)) with (S754_infinity b)
    by (destruct b; vm_compute; reflexivity).
  destruct (Prim2SF d) as [c|c| |c m e]; simpl.
  - left. reflexivity.
  - right. eexists. reflexivity.
  - left. reflexivity.
  - right. eexists. reflexivity.
Qed.

(** X13.  A target whose abscissa is not a finite number fires nothing: with
    [targetX] NaN, [Infinity] or [-Infinity], no distance is below the
    initial [minDist = Infinity], no turret is chosen, and [fireMissile]
    returns with the state as it was, whatever the state. *)
Theorem fireMissile_not_finite (targetX targetY : number) (s : GameState) :
  is_nan targetX || is_infinity targetX = true ->
  fireMissile targetX targetY s = s.
Proof.
  intros H. apply fireMissile_nonfinite_SF, nonfinite_cases, H.
Qed.

(** X14.  [handleCanvasClick].  Outside PLAYING, or without a canvas, it
    returns without any effect.  A touch is handled as a click at the
    position of its first touch point, and a touch event with no touch point
    is the only input on which it throws.  Whenever it returns, the state is
    the result of [fireMissile] at some target, so that everything proved of
    a click on the canvas holds of it.  With a canvas laid out with width 0
    the click fires nothing: the horizontal scale is a division by zero. *)
Theorem canvas_click :
  (forall canvas e s, status s <> PLAYING -> handleCanvasClick canvas e s = Normal s) /\
  (forall e s, handleCanvasClick None e s = Normal s) /\
  (forall rect clientX clientY rest s,
     handleCanvasClick (Some rect) (TouchEvent ((clientX, clientY) :: rest)) s
     = handleCanvasClick (Some rect) (MouseEvent clientX clientY) s) /\
  (forall canvas e s,
     handleCanvasClick canvas e s = Throw <->
     status s = PLAYING /\ canvas <> None /\ e = TouchEvent []) /\
  (forall canvas e s s',
     handleCanvasClick canvas e s = Normal s' ->
     exists targetX targetY, s' = fireMissile targetX targetY s) /\
  (forall rect clientX clientY s,
     status s = PLAYING ->
     handleCanvasClick (Some rect) (MouseEvent clientX clientY) s
     = Normal (fireMissile
                 ((clientX - DOMRect.left rect) * (GAME_WIDTH / DOMRect.width rect))%float
                 ((clientY - DOMRect.top rect) * (GAME_HEIGHT / DOMRect.height rect))%float
                 s)) /\
  (forall rect e s s',
     (DOMRect.width rect =? 0)%float = true ->
     handleCanvasClick (Some rect) e s = Normal s' -> s' = s).
Proof.
  split; [|split; [|split; [|split; [|split; [|split]]]]].
  - intros canvas e s Hp. unfold handleCanvasClick.
    destruct (status s); try reflexivity. contradiction.
  - intros e s. unfold handleCanvasClick.
    destruct (negb (GameStatus_eqb (status s) PLAYING)); reflexivity.
  - intros rect cx cy rest s. reflexivity.
  - intros canvas e s. unfold handleCanvasClick.
    destruct (status_PLAYING_dec s) as [Hp|Hp].
    + rewrite Hp. simpl. destruct canvas as [rect|].
      * destruct e as [cx cy|[|[cx cy] rest]]; simpl.
        -- split; [discriminate|intros (_ & _ & H); discriminate].
        -- split; [intros _|reflexivity].
           split; [reflexivity|split; [discriminate|reflexivity]].
        -- split; [discriminate|intros (_ & _ & H); discriminate].
      * split; [discriminate|]. intros (_ & H & _). contradiction.
    + destruct (status s); simpl; try contradiction;
        (split; [discriminate|intros (H & _); discriminate]).
  - intros canvas e s s'. unfold handleCanvasClick.
    assert (H0 : exists targetX targetY : number, s = fireMissile targetX targetY s).
    { exists nan, nan. symmetry. apply fireMissile_nonfinite_SF. left. reflexivity. }
    destruct (negb (GameStatus_eqb (status s) PLAYING)).
    + intros H. injection H as <-. exact H0.
    + destruct canvas as [rect|]; [|intros H; injection H as <-; exact H0].
      destruct e as [cx cy|[|[cx cy] rest]]; simpl; try discriminate;
        intros H; injection H as <-; eexists; eexists; reflexivity.
  - intros rect cx cy s Hp. unfold handleCanvasClick. rewrite Hp. reflexivity.
  - intros rect e s s' Hw. unfold handleCanvasClick.
    destruct (negb (GameStatus_eqb (status s) PLAYING)); [congruence|].
    destruct e as [cx cy|[|[cx cy] rest]]; simpl; try discriminate;
      intros H; injection H as <-; apply fireMissile_nonfinite_SF;
      apply (@mul_div_zero_nonfinite _ _ Hw).
Qed.

(* ================================================================== *)
(** * Further results: the budget of missiles *)

Lemma totalAmmo_map ts :
  totalAmmo ts = fold_right Z.add 0%Z (map Turret.ammo ts).
Proof. induction ts as [|t ts IH]; simpl; [reflexivity|rewrite IH; reflexivity]. Qed.

Lemma totalAmmo_nonneg ts : Forall ammo_in_bounds ts -> (0 <= totalAmmo ts)%Z.
Proof.
  induction 1 as [|t ts Ht _ IH]; simpl; [lia|]. unfold ammo_in_bounds in Ht. lia.
Qed.

Section Budget.

Context {M : MathLib}.

Lemma handle_budget e s :
  (totalAmmo (turrets s) + Z.of_nat (length (missiles s))
   <= TURRET_AMMO.LEFT + TURRET_AMMO.MIDDLE + TURRET_AMMO.RIGHT)%Z ->
  (totalAmmo (turrets (handle e s)) + Z.of_nat (length (missiles (handle e s)))
   <= TURRET_AMMO.LEFT + TURRET_AMMO.MIDDLE + TURRET_AMMO.RIGHT)%Z.
Proof.
  change (TURRET_AMMO.LEFT + TURRET_AMMO.MIDDLE + TURRET_AMMO.RIGHT)%Z with 80%Z.
  intros H. destruct e as [now| | | |tx ty|time random].
  - simpl. destruct (status s); try exact H; vm_compute; discriminate.
  - simpl. destruct (status s); exact H.
  - simpl. destruct (status s); exact H.
  - simpl. destruct (status s); exact H.
  - simpl. destruct (fireMissile_cases tx ty s) as [->|(_ & i & t & Hn & _ & ->)];
      [exact H|].
    cbn [turrets missiles]. rewrite (@totalAmmo_replace (turrets s) i t _ Hn), length_app.
    cbn [Turret_set_ammo Turret.ammo length]. lia.
  - destruct (handle_frame_cases time random s) as [->|(Hp & _ & _ & Hu & _)];
      [exact H|].
    destruct (@frame_counts _ time random s _ Hp Hu) as (s1 & _ & _ & _ & _ & _ & Hm & _).
    rewrite !totalAmmo_map in *.
    rewrite (@update_turret_field _ _ Turret.ammo time random s _
               (fun r t => proj1 (proj2 (proj2 (impactTurret_fields r t)))) Hu).
    lia.
Qed.

(** X15.  The budget of missiles.  At every point of every run of the mounted
    component the ammo left in the turrets is not negative, and the ammo left
    plus the number of missiles in flight is at most the 80 rounds that
    [initGame] hands out (20 + 40 + 20): a game never has more than 80
    missiles in flight, and every missile in flight has been paid for. *)
Theorem missile_budget (es : list Event) :
  let s := run es mountState in
  (0 <= totalAmmo (turrets s))%Z /\
  (totalAmmo (turrets s) + Z.of_nat (length (missiles s))
   <= TURRET_AMMO.LEFT + TURRET_AMMO.MIDDLE + TURRET_AMMO.RIGHT)%Z /\
  (Z.of_nat (length (missiles s)) <= 80)%Z.
Proof.
  cbv zeta.
  assert (Hb : Forall ammo_in_bounds (turrets (run es mountState))).
  { induction es as [|e es IH] using rev_ind; [constructor|].
    rewrite run_snoc. apply handle_in_bounds, IH. }
  assert (Hs : (totalAmmo (turrets (run es mountState))
                + Z.of_nat (length (missiles (run es mountState)))
                <= TURRET_AMMO.LEFT + TURRET_AMMO.MIDDLE + TURRET_AMMO.RIGHT)%Z).
  { clear Hb. induction es as [|e es IH] using rev_ind; [vm_compute; discriminate|].
    rewrite run_snoc. apply handle_budget, IH. }
  pose proof (totalAmmo_nonneg Hb) as H0.
  split; [exact H0|]. split; [exact Hs|].
  unfold TURRET_AMMO.LEFT, TURRET_AMMO.MIDDLE, TURRET_AMMO.RIGHT in Hs. lia.
Qed.

End Budget.

(* ================================================================== *)
(** * The further results at concrete inputs *)

Lemma status_graph_witness :
  (isFrame (AnimationFrame 108447%float noRandom) = true /\
   status lastStand = PLAYING /\ (WIN_SCORE <= score lastStand)%Z) /\
  (BackToStartButton = BackToStartButton /\
   handle (M := RefHost.host) BackToStartButton lastStand
   = mkState (score lastStand) START (rockets lastStand) (missiles lastStand)
       (explosions lastStand) (cities lastStand) (turrets lastStand)
       (lastSpawnTime lastStand)).
Proof.
  split.
  - apply (proj1 (proj2 (proj2 (proj2
             (@status_graph RefHost.host (AnimationFrame 108447%float noRandom) lastStand))))).
    + vm_compute. reflexivity.
    + vm_compute. discriminate.
  - apply (proj1 (proj2 (proj2 (proj2 (proj2 (proj2
             (@status_graph RefHost.host BackToStartButton lastStand))))))).
    + reflexivity.
    + vm_compute. discriminate.
Defined.

Lemma pause_resume_witness :
  let es := [AnimationFrame 108446 noRandom; CanvasClick 300 200;
             AnimationFrame 108447 draws]%float in
  handle (M := RefHost.host) PauseButton eve
  = mkState (score eve) PAUSED (rockets eve) (missiles eve) (explosions eve)
      (cities eve) (turrets eve) (lastSpawnTime eve) /\
  run (M := RefHost.host) es (handle (M := RefHost.host) PauseButton eve)
  = handle (M := RefHost.host) PauseButton eve /\
  handle (M := RefHost.host) ResumeButton
    (run (M := RefHost.host) es (handle (M := RefHost.host) PauseButton eve))
  = eve.
Proof.
  cbv zeta. apply (@pause_resume RefHost.host eve).
  - reflexivity.
  - intros e He. simpl in He. destruct He as [<-|[<-|[<-|[]]]]; reflexivity.
Defined.

Lemma ground_steady_witness :
  let es := [CanvasClick 300 200; AnimationFrame 16 noRandom; PauseButton]%float in
  Forall2 city_step (cities lastStand) (cities (run (M := RefHost.host) es lastStand)) /\
  Forall2 turret_step (turrets lastStand) (turrets (run (M := RefHost.host) es lastStand)).
Proof.
  cbv zeta. apply (proj1 (proj2 (@ground_steady RefHost.host))).
  intros e He. simpl in He. destruct He as [<-|[<-|[<-|[]]]]; reflexivity.
Defined.

Lemma missiles_in_flight_witness :
  let missile :=
    moveMissile (moveMissile (newMissile 300 200 (Turret.mk 400 570 true 40 40)))%float in
  missile_in_flight missile /\ launched_from_site missile.
Proof.
  cbv zeta.
  apply (@missiles_in_flight RefHost.host
           [StartButton 0; CanvasClick 300 200; AnimationFrame 16 noRandom;
            AnimationFrame 32 noRandom]%float).
  vm_compute. left. reflexivity.
Defined.

Lemma rockets_in_flight_witness :
  let rocket :=
    moveRocket (M := RefHost.host)
      (Rocket.mk 400 (-20) 40 570 1 2.1186598582967320)%float in
  ((Rocket.y rocket <? GAME_HEIGHT)%float = true /\ reachedTarget rocket = false) /\
  In (Rocket.targetX rocket, Rocket.targetY rocket) (citySites ++ turretSites).
Proof.
  cbv zeta.
  apply (@rockets_in_flight RefHost.host
           [StartButton 0%float; AnimationFrame 2500%float draws]).
  vm_compute. left. reflexivity.
Defined.

Lemma frame_accounting_witness :
  exists s1,
    spawnPhase (M := RefHost.host) 108446%float noRandom eve = Normal s1 /\
    let hits := rocketsHit (M := RefHost.host) s1 in
    let fallen := rocketsFallen (M := RefHost.host) s1 in
    let flying := rocketsFlying (M := RefHost.host) s1 in
    let detonated := missilesDetonated eve in
    let lit := explosions eve ++ map impactExplosion hits
               ++ map detonationExplosion detonated in
    let expired := explosionsExpired lit in
    let destroyed := (length flying - length (rockets lastStand))%nat in
    (rockets s1 = rockets eve \/ exists rocket, rockets s1 = rockets eve ++ [rocket]) /\
    (rockets lastStand, score lastStand) = blast lit flying (score eve) /\
    incl (rockets lastStand) flying /\
    missiles lastStand
    = filter (fun missile => negb (arrived missile)) (map moveMissile (missiles eve)) /\
    explosions lastStand
    = filter (fun exp => (Explosion.life exp <? Explosion.maxLife exp)%float)
        (map growExplosion lit) /\
    (length (rockets lastStand) + length hits + length fallen + destroyed
     = length (rockets s1))%nat /\
    (length (missiles lastStand) + length detonated = length (missiles eve))%nat /\
    (length (explosions lastStand) + length expired
     = length (explosions eve) + length hits + length detonated)%nat /\
    score lastStand = (score eve + POINTS_PER_ROCKET * Z.of_nat destroyed)%Z.
Proof.
  apply (@frame_accounting RefHost.host 108446%float noRandom eve lastStand).
  - reflexivity.
  - vm_compute. reflexivity.
Defined.

(** The frame of [eve] on the reference host: nothing is spawned, hits,
    falls, detonates or expires, and one rocket of two is destroyed. *)
Example frame_accounting_eve :
  spawnPhase (M := RefHost.host) 108446%float noRandom eve = Normal eve /\
  length (rocketsHit (M := RefHost.host) eve) = 0%nat /\
  length (rocketsFallen (M := RefHost.host) eve) = 0%nat /\
  length (rocketsFlying (M := RefHost.host) eve) = 2%nat /\
  length (rockets lastStand) = 1%nat /\
  length (missilesDetonated eve) = 0%nat /\
  length (explosionsExpired (explosions eve)) = 0%nat.
Proof. vm_compute. repeat split. Qed.

Lemma score_on_grid_witness :
  exists k : nat,
    score (handle (M := RefHost.host) (AnimationFrame 108446%float noRandom) eve)
    = (score eve + POINTS_PER_ROCKET * Z.of_nat k)%Z.
Proof.
  apply (proj2 (@score_on_grid RefHost.host)). reflexivity.
Defined.

Lemma explosion_radius_bounds_witness :
  let exp := (Explosion.mk 400 570 (1 / 30 * 46) 46 1 60)%float in
  (0 <=? Explosion.radius exp)%float = true /\
  (Explosion.radius exp <=? Explosion.maxRadius exp)%float = true /\
  (Explosion.maxRadius exp <=? EXPLOSION_RADIUS_MAX)%float = true /\
  (if (Explosion.life exp <? Explosion.maxLife exp / 2)%float
   then (Explosion.radius exp <? Explosion.radius (growExplosion exp))%float
   else (Explosion.radius (growExplosion exp) <? Explosion.radius exp)%float) = true.
Proof.
  cbv zeta.
  apply (@explosion_radius_bounds RefHost.host
           [StartButton 0; CanvasClick 400 570; AnimationFrame 16 noRandom]%float).
  vm_compute. left. reflexivity.
Defined.

Lemma spawn_clock_witness :
  let s' := handle (M := RefHost.host) (AnimationFrame 2500%float draws) (initGame 0%float) in
  ((spawnRate (score (initGame 0%float)) <? 2500 - lastSpawnTime (initGame 0%float))%float = false /\
   lastSpawnTime s' = lastSpawnTime (initGame 0%float) /\
   spawnPhase (M := RefHost.host) 2500%float draws (initGame 0%float)
   = Normal (initGame 0%float)) \/
  ((spawnRate (score (initGame 0%float)) <? 2500 - lastSpawnTime (initGame 0%float))%float = true /\
   (500 <? 2500 - lastSpawnTime (initGame 0%float))%float = true /\
   lastSpawnTime s' = 2500%float).
Proof.
  cbv zeta. apply (@spawn_clock RefHost.host 2500%float draws (initGame 0%float)).
  - reflexivity.
  - vm_compute. reflexivity.
Defined.

Lemma fireMissile_not_finite_witness :
  fireMissile nan 200%float (initGame 0%float) = initGame 0%float /\
  fireMissile neg_infinity 200%float lastStand = lastStand.
Proof.
  split; apply fireMissile_not_finite; reflexivity.
Defined.

Lemma canvas_click_witness :
  handleCanvasClick (Some (DOMRect.mk 10 20 400 300)%float) (MouseEvent 160 120)%float
    (initGame 0%float)
  = Normal (fireMissile 300%float 200%float (initGame 0%float)) /\
  handleCanvasClick (Some (DOMRect.mk 10 20 400 300)%float) (MouseEvent 160 120)%float
    lastStand_after
  = Normal lastStand_after.
Proof.
  destruct canvas_click as (Hidle & _ & _ & _ & _ & Hclick & _).
  split.
  - apply (Hclick (DOMRect.mk 10 20 400 300)%float 160%float 120%float (initGame 0%float)).
    reflexivity.
  - apply Hidle. vm_compute. discriminate.
Defined.

(** A click in the middle of a canvas shown at half size fires at the middle
    of the playfield; on a canvas of width 0 it fires nothing. *)
Example click_scaled :
  handleCanvasClick (Some (DOMRect.mk 10 20 400 300)%float) (MouseEvent 210 170)%float
    (initGame 0%float)
  = Normal (fireMissile 400%float 300%float (initGame 0%float)) /\
  handleCanvasClick (Some (DOMRect.mk 10 20 0 300)%float) (MouseEvent 210 170)%float
    (initGame 0%float)
  = Normal (initGame 0%float).
Proof. vm_compute. split; reflexivity. Qed.
